(** * prettier-sql: the formatter engine and the public [format] entry

    A shallow embedding of [src/core/Formatter.ts] and of the option handling
    of [src/sqlFormatter.ts], with the properties the specification states
    about them.

    Strings are lists of characters.  The model covers the ASCII range of
    JavaScript's code units: the whitespace class [\s] is TAB, LF, VT, FF, CR
    and SPACE, and [toUpperCase] / [toLowerCase] act on the letters A-Z and
    a-z.  Numbers of the configuration are integers ([Z]). *)

From Stdlib Require Import ZArith Ascii String List Lia.
From stdpp Require Import base option list strings gmap.

Local Open Scope string_scope.
Local Open Scope Z_scope.
Local Open Scope list_scope.

Abbreviation str := (list ascii).
Coercion list_ascii_of_string : string >-> list.

(** ** Errors and the result monad *)

Inductive Error :=
| InvalidQueryArgument
| UnsupportedDialect (language : string)
| InvalidNewline
| TokenizerStuck (offset : nat)
| MissingParameter (keyOrIndex : str)
| RangeError
| TypeError.

Inductive result (A : Type) :=
| Ok (a : A)
| Throw (e : Error).
Arguments Ok {A} a.
Arguments Throw {A} e.

Global Instance result_ret : MRet result := fun A a => Ok a.
Global Instance result_bind : MBind result := fun A B k r =>
  match r with
  | Ok a => k a
  | Throw e => Throw e
  end.

(** ** JavaScript string primitives used by the formatter *)

Module JsString.

Definition LF : ascii := "010"%char.
Definition TAB : ascii := "009"%char.
Definition SPACE : ascii := " "%char.

(** The class [\s] (and the characters [trim] removes), in the ASCII range. *)
Definition isWhitespace (c : ascii) : bool :=
  let n := nat_of_ascii c in
  ((9 <=? n)%nat && (n <=? 13)%nat) || (n =? 32)%nat.

Definition isSpace (c : ascii) : bool := Ascii.eqb c SPACE.

Definition isSpaceOrTab (c : ascii) : bool :=
  Ascii.eqb c SPACE || Ascii.eqb c TAB.

Definition toUpperChar (c : ascii) : ascii :=
  let n := nat_of_ascii c in
  if ((97 <=? n)%nat && (n <=? 122)%nat) then ascii_of_nat (n - 32) else c.

Definition toLowerChar (c : ascii) : ascii :=
  let n := nat_of_ascii c in
  if ((65 <=? n)%nat && (n <=? 90)%nat) then ascii_of_nat (n + 32) else c.

Definition toUpperCase (s : str) : str := map toUpperChar s.
Definition toLowerCase (s : str) : str := map toLowerChar s.

(** Drop the longest prefix of characters in the class [p]. *)
Fixpoint dropStart (p : ascii -> bool) (s : str) : str :=
  match s with
  | [] => []
  | c :: s' => if p c then dropStart p s' else s
  end.

(** Drop the longest suffix of characters in the class [p]. *)
Fixpoint dropEnd (p : ascii -> bool) (s : str) : str :=
  match s with
  | [] => []
  | c :: s' =>
      match dropEnd p s' with
      | [] => if p c then [] else [c]
      | r => c :: r
      end
  end.

Definition trimStart (s : str) : str := dropStart isWhitespace s.
Definition trimEnd (s : str) : str := dropEnd isWhitespace s.
Definition trim (s : str) : str := trimEnd (trimStart s).

(** [s.endsWith(c)] for a one-character string [c]. *)
Definition endsWith (c : ascii) (s : str) : bool :=
  match last s with
  | Some d => Ascii.eqb d c
  | None => false
  end.

(** [s.repeat(n)] for a count that is an integer: a negative count throws. *)
Definition repeat (s : str) (n : Z) : result str :=
  if n <? 0 then Throw RangeError
  else Ok (concat (replicate (Z.to_nat n) s)).

(** [s.replace(/\s+/gu, ' ')]; [inRun] tells that the previous character
    belonged to the run of whitespace being replaced. *)
Fixpoint replaceWhitespaceRuns (inRun : bool) (s : str) : str :=
  match s with
  | [] => []
  | c :: s' =>
      if isWhitespace c
      then (if inRun then replaceWhitespaceRuns true s'
            else SPACE :: replaceWhitespaceRuns true s')
      else c :: replaceWhitespaceRuns false s'
  end.

(** [s.replace(/\n[ \t]*/gu, by)]; [afterLF] tells that the characters read
    since the last line feed were all spaces or tabs. *)
Fixpoint replaceLineStarts (by_ : str) (afterLF : bool) (s : str) : str :=
  match s with
  | [] => []
  | c :: s' =>
      if Ascii.eqb c LF then by_ ++ replaceLineStarts by_ true s'
      else if afterLF && isSpaceOrTab c then replaceLineStarts by_ true s'
      else c :: replaceLineStarts by_ false s'
  end.

(** The string without its whitespace characters. *)
Definition stripWhitespace (s : str) : str :=
  List.filter (fun c => negb (isWhitespace c)) s.

Definition noLeadingWhitespace (s : str) : Prop :=
  forall c s', s = c :: s' -> isWhitespace c = false.

Definition noTrailingWhitespace (s : str) : Prop :=
  forall c s', s = s' ++ [c] -> isWhitespace c = false.

End JsString.
Import JsString.

(** Modelled from the spec: [trimSpacesEnd] of [src/utils], which is not among
    the sources: it trims the trailing spaces of the output. *)
Definition trimSpacesEnd (s : str) : str := dropEnd isSpace s.

(** ** Tokens *)

(** Modelled from the spec: the token types of [src/core/tokenTypes], which is
    not among the sources, as the data model lists them. *)
Inductive tokenType :=
| WHITESPACE
| WORD
| STRING
| RESERVED
| RESERVED_TOP_LEVEL
| RESERVED_TOP_LEVEL_NO_INDENT
| RESERVED_NEWLINE
| OPERATOR
| OPEN_PAREN
| CLOSE_PAREN
| LINE_COMMENT
| BLOCK_COMMENT
| PLACEHOLDER
| NUMBER
| PUNCTUATION.

Global Instance tokenType_eq_dec : EqDecision tokenType.
Proof. solve_decision. Defined.

(** Modelled from the spec: the [Token] record of [src/core/token].  The
    formatter reads [whitespaceBefore] through [?.], so it may be undefined. *)
Record Token := mkToken {
  type : tokenType;
  value : str;
  whitespaceBefore : option str;
  key : option str
}.

Global Instance Token_eq_dec : EqDecision Token.
Proof. solve_decision. Defined.

Definition eqIgnoreCase (s : str) (kw : str) : bool :=
  bool_decide (toUpperCase s = toUpperCase kw).

(** Modelled from the spec: the predicates [isAnd], [isBetween] and [isLimit]
    of [src/core/token], which is not among the sources: a token is AND
    (BETWEEN, LIMIT) when its value is that keyword, in any letter case.  An
    undefined token is none of them. *)
Definition isAnd (t : Token) : bool := eqIgnoreCase (value t) "AND".
Definition isBetween (t : option Token) : bool :=
  match t with
  | Some t => eqIgnoreCase (value t) "BETWEEN"
  | None => false
  end.
Definition isLimit (t : option Token) : bool :=
  match t with
  | Some t => eqIgnoreCase (value t) "LIMIT"
  | None => false
  end.

(** ** Indentation *)

(** Modelled from the spec: the [Indentation] class of [src/core/Indentation],
    which is not among the sources: a stack of frames tagged top-level or
    block; [decreaseTopLevel] pops only a top-level frame, [decreaseBlockLevel]
    pops one frame of any tag, and the indent is the unit repeated by the
    depth. *)
Module Indentation.

Inductive frame := TOP_LEVEL | BLOCK.

Record t := mk {
  indent : str;
  frames : list frame
}.

Definition new (indent : str) : t := mk indent [].

Definition getIndent (i : t) : str :=
  concat (replicate (length (frames i)) (indent i)).

Definition increaseTopLevel (i : t) : t := mk (indent i) (TOP_LEVEL :: frames i).
Definition increaseBlockLevel (i : t) : t := mk (indent i) (BLOCK :: frames i).

Definition decreaseTopLevel (i : t) : t :=
  match frames i with
  | TOP_LEVEL :: fs => mk (indent i) fs
  | _ => i
  end.

Definition decreaseBlockLevel (i : t) : t := mk (indent i) (tail (frames i)).

Definition resetIndentation (i : t) : t := mk (indent i) [].

End Indentation.

(** ** Inline blocks *)

(** Modelled from the spec: the [InlineBlock] class of [src/core/InlineBlock],
    which is not among the sources.  The look-ahead sums the lengths of the
    values of the tokens that follow the parenthesis and answers yes at the
    matching closing parenthesis, no when the sum exceeds [lineWidth - 2], at a
    top-level reserved word, or at the end of the stream.  A nested group that
    would not fit makes the scan of the enclosing group fail in the same way,
    since that scan runs through the nested group.  With an undefined
    [lineWidth] the comparison with the budget is false. *)
Module InlineBlock.

Record t := mk {
  lineWidth : option Z;
  level : nat
}.

Definition new (lineWidth : option Z) : t := mk lineWidth 0.

Definition overBudget (lineWidth : option Z) (len : Z) : bool :=
  match lineWidth with
  | Some w => w - 2 <? len
  | None => false
  end.

Fixpoint lookAhead (lineWidth : option Z) (len : Z) (depth : nat)
         (ts : list Token) : bool :=
  match ts with
  | [] => false
  | tok :: ts' =>
      let len' := len + Z.of_nat (length (value tok)) in
      if overBudget lineWidth len' then false
      else match type tok with
           | RESERVED_TOP_LEVEL | RESERVED_TOP_LEVEL_NO_INDENT => false
           | OPEN_PAREN => lookAhead lineWidth len' (S depth) ts'
           | CLOSE_PAREN =>
               match depth with
               | O => true
               | S d => lookAhead lineWidth len' d ts'
               end
           | _ => lookAhead lineWidth len' depth ts'
           end
  end.

Definition isInlineBlock (b : t) (tokens : list Token) (index : nat) : bool :=
  lookAhead (lineWidth b) 0 0 (drop (S index) tokens).

Definition beginIfPossible (b : t) (tokens : list Token) (index : nat) : t :=
  match level b with
  | O => if isInlineBlock b tokens index then mk (lineWidth b) 1 else b
  | S _ => mk (lineWidth b) (S (level b))
  end.

Definition isActive (b : t) : bool := negb (Nat.eqb (level b) 0).

Definition end_ (b : t) : t := mk (lineWidth b) (pred (level b)).

End InlineBlock.

(** ** Parameters *)

Inductive ParamItems :=
| NoParams
| Positional (items : list str)
| Named (items : gmap str str).

(** Modelled from the spec: the [Params] class of [src/core/Params], which is
    not among the sources.  Without configured parameters a placeholder keeps
    its value; a placeholder with a key is looked up in the mapping, one
    without takes the next positional entry; a missing entry fails. *)
Module Params.

Record t := mk {
  params : ParamItems;
  index : nat
}.

Definition new (params : ParamItems) : t := mk params 0.

Definition get (p : t) (tok : Token) : result (str * t) :=
  match params p with
  | NoParams => Ok (value tok, p)
  | Named m =>
      match key tok with
      | Some k =>
          match m !! k with
          | Some v => Ok (v, p)
          | None => Throw (MissingParameter k)
          end
      | None => Throw (MissingParameter (value tok))
      end
  | Positional l =>
      match key tok with
      | Some k => Throw (MissingParameter k)
      | None =>
          match l !! index p with
          | Some v => Ok (v, mk (params p) (S (index p)))
          | None => Throw (MissingParameter (value tok))
          end
      end
  end.

End Params.

(** ** Options *)

(** Modelled from the spec: the enumerations of [src/types], which is not among
    the sources, with the values the configuration section lists. *)
Module KeywordMode.
Inductive t := standard | tenSpaceLeft | tenSpaceRight.
End KeywordMode.
Module NewlineMode.
Inductive t := always | never | lineWidth.
End NewlineMode.
Module AliasMode.
Inductive t := always | never | select | explicit.
End AliasMode.
Module CommaPosition.
Inductive t := after | before | tabular.
End CommaPosition.

(** [NewlineMode | keyof typeof NewlineMode | number] *)
Inductive NewlineOption :=
| NewlineIs (mode : NewlineMode.t)
| NewlineNumber (n : Z).

Record ParenOptions := {
  openParenNewline : bool;
  closeParenNewline : bool
}.

(** The options object the [Formatter] is constructed with.  [format] may
    leave [lineWidth] undefined, and the engine reads [trailingNewline], which
    is false when the object does not have it. *)
Module FormatOptions.
Record t := {
language : string;
indent : str;
uppercase : bool;
keywordPosition : KeywordMode.t;
newline : NewlineOption;
breakBeforeBooleanOperator : bool;
aliasAs : AliasMode.t;
tabulateAlias : bool;
commaPosition : CommaPosition.t;
parenOptions : ParenOptions;
lineWidth : option Z;
linesBetweenQueries : Z;
denseOperators : bool;
semicolonNewline : bool;
params : ParamItems;
trailingNewline : bool
}.
End FormatOptions.

(** ** Tokenizer *)

(** Modelled from the spec: the [Tokenizer] of [src/core/Tokenizer], which is
    not among the sources.  A dialect gives the lexers in their priority order
    (line comment, block comment, quoted string, quoted identifier, open
    paren, close paren, placeholder, number, the four reserved classes, word,
    operator, punctuation), each telling how many characters it matches at the
    start of the input.  The scan consumes the longest run of whitespace,
    recorded as the next token's [whitespaceBefore], and takes the first lexer
    that matches; a match of length zero, or no match, fails with
    [TokenizerStuck] at that offset.  Lexemes are kept as they are. *)
Module Tokenizer.

Definition lexer := str -> option nat.

Record t := mk {
  lexers : list (tokenType * lexer);
  placeholderKey : str -> option str
}.

Fixpoint takeStart (p : ascii -> bool) (s : str) : str :=
  match s with
  | [] => []
  | c :: s' => if p c then c :: takeStart p s' else []
  end.

Fixpoint firstMatch (ls : list (tokenType * lexer)) (input : str)
  : option (tokenType * nat) :=
  match ls with
  | [] => None
  | (ty, lx) :: ls' =>
      match lx input with
      | Some n => Some (ty, n)
      | None => firstMatch ls' input
      end
  end.

Definition keyOf (tk : t) (ty : tokenType) (v : str) : option str :=
  match ty with
  | PLACEHOLDER => placeholderKey tk v
  | _ => None
  end.

Fixpoint tokenizeFrom (tk : t) (fuel : nat) (offset : nat) (input : str)
  : result (list Token) :=
  let ws := takeStart isWhitespace input in
  let rest := dropStart isWhitespace input in
  let offset := (offset + length ws)%nat in
  match rest, fuel with
  | [], _ => Ok []
  | _, O => Throw (TokenizerStuck offset)
  | _, S fuel' =>
      match firstMatch (lexers tk) rest with
      | None | Some (_, O) => Throw (TokenizerStuck offset)
      | Some (ty, n) =>
          let v := take n rest in
          toks ← tokenizeFrom tk fuel' (offset + length v)%nat (drop n rest);
          Ok (mkToken ty v (Some ws) (keyOf tk ty v) :: toks)
      end
  end.

(** Every token consumes a character, so the length of the input is fuel
    enough (see [tokenizeFrom_fuel]). *)
Definition tokenize (tk : t) (input : str) : result (list Token) :=
  tokenizeFrom tk (length input) 0 input.

End Tokenizer.

(** ** The formatter engine ([src/core/Formatter.ts]) *)

Module Formatter.

Record t := mk {
  cfg : FormatOptions.t;
  indentation : Indentation.t;
  inlineBlock : InlineBlock.t;
  params : Params.t;
  previousReservedToken : option Token;
  tokens : list Token;
  index : nat
}.

(** What a dialect's subclass supplies: its tokenizer and the
    [tokenOverride] hook, which sees the formatter it is called on. *)
Record Dialect := {
  tokenizer : Tokenizer.t;
  tokenOverride : t -> Token -> Token
}.

(** The hook of the base class returns the token it is given. *)
Definition baseTokenOverride (f : t) (token : Token) : Token := token.

Definition new (cfg : FormatOptions.t) : t :=
  {| cfg := cfg;
     indentation := Indentation.new (FormatOptions.indent cfg);
     inlineBlock := InlineBlock.new (FormatOptions.lineWidth cfg);
     params := Params.new (FormatOptions.params cfg);
     previousReservedToken := None;
     tokens := [];
     index := 0%nat |}.

Definition setIndentation (f : t) (i : Indentation.t) : t :=
  mk (cfg f) i (inlineBlock f) (params f) (previousReservedToken f) (tokens f) (index f).
Definition setInlineBlock (f : t) (b : InlineBlock.t) : t :=
  mk (cfg f) (indentation f) b (params f) (previousReservedToken f) (tokens f) (index f).
Definition setParams (f : t) (p : Params.t) : t :=
  mk (cfg f) (indentation f) (inlineBlock f) p (previousReservedToken f) (tokens f) (index f).
Definition setPreviousReservedToken (f : t) (tok : Token) : t :=
  mk (cfg f) (indentation f) (inlineBlock f) (params f) (Some tok) (tokens f) (index f).
Definition setTokens (f : t) (ts : list Token) : t :=
  mk (cfg f) (indentation f) (inlineBlock f) (params f) (previousReservedToken f) ts (index f).
Definition setIndex (f : t) (i : nat) : t :=
  mk (cfg f) (indentation f) (inlineBlock f) (params f) (previousReservedToken f) (tokens f) i.

Inductive preserve := Before | After | Both.

(** The token types [show] re-cases. *)
Definition isCased (ty : tokenType) : bool :=
  match ty with
  | RESERVED | RESERVED_TOP_LEVEL | RESERVED_TOP_LEVEL_NO_INDENT
  | RESERVED_NEWLINE | OPEN_PAREN | CLOSE_PAREN => true
  | _ => false
  end.

Definition show (f : t) (token : Token) : str :=
  if isCased (type token)
  then (if FormatOptions.uppercase (cfg f) then toUpperCase (value token)
        else toLowerCase (value token))
  else value token.

Definition addNewline (f : t) (query : str) : str :=
  let query := trimSpacesEnd query in
  let query := if endsWith LF query then query else query ++ [LF] in
  query ++ Indentation.getIndent (indentation f).

(** [this.tokens[this.index - n]]: undefined when the index is out of range. *)
Definition tokenLookBehind (f : t) (n : nat) : option Token :=
  if (n <=? index f)%nat then tokens f !! (index f - n)%nat else None.

Definition tokenLookAhead (f : t) (n : nat) : option Token :=
  tokens f !! (index f + n)%nat.

Definition equalizeWhitespace (s : str) : str := replaceWhitespaceRuns false s.

Definition indentComment (f : t) (comment : str) : str :=
  replaceLineStarts ([LF] ++ Indentation.getIndent (indentation f) ++ [SPACE])
                    false comment.

Definition formatLineComment (f : t) (token : Token) (query : str) : str :=
  addNewline f (query ++ show f token).

Definition formatBlockComment (f : t) (token : Token) (query : str) : str :=
  addNewline f (addNewline f query ++ indentComment f (value token)).

Definition formatTopLevelReservedWordNoIndent (f : t) (token : Token) (query : str)
  : t * str :=
  let f := setIndentation f (Indentation.decreaseTopLevel (indentation f)) in
  let query := addNewline f query ++ equalizeWhitespace (show f token) in
  (f, addNewline f query).

Definition formatTopLevelReservedWord (f : t) (token : Token) (query : str)
  : t * str :=
  let f := setIndentation f (Indentation.decreaseTopLevel (indentation f)) in
  let query := addNewline f query in
  let f := setIndentation f (Indentation.increaseTopLevel (indentation f)) in
  let query := query ++ equalizeWhitespace (show f token) in
  (f, addNewline f query).

Definition formatWithSpaces (f : t) (token : Token) (query : str) (p : preserve)
  : str :=
  let before := match p with After => trimSpacesEnd query | _ => query end in
  let after := match p with Before => [] | _ => [SPACE] end in
  before ++ show f token ++ after.

Definition formatNewlineReservedWord (f : t) (token : Token) (query : str) : str :=
  if isAnd token && isBetween (tokenLookBehind f 2)
  then formatWithSpaces f token query Both
  else addNewline f query ++ equalizeWhitespace (show f token) ++ [SPACE].

Definition preserveWhitespaceFor (ty : option tokenType) : bool :=
  match ty with
  | Some OPEN_PAREN | Some LINE_COMMENT | Some OPERATOR => true
  | _ => false
  end.

Definition formatOpeningParentheses (f : t) (token : Token) (query : str)
  : t * str :=
  let query :=
    if bool_decide (length <$> whitespaceBefore token = Some 0%nat)
       && negb (preserveWhitespaceFor (type <$> tokenLookBehind f 1))
    then trimSpacesEnd query else query in
  let query := query ++ show f token in
  let f := setInlineBlock f
             (InlineBlock.beginIfPossible (inlineBlock f) (tokens f) (index f)) in
  if negb (InlineBlock.isActive (inlineBlock f))
  then
    let f := setIndentation f (Indentation.increaseBlockLevel (indentation f)) in
    (f, addNewline f query)
  else (f, query).

Definition formatClosingParentheses (f : t) (token : Token) (query : str)
  : t * str :=
  if InlineBlock.isActive (inlineBlock f)
  then
    let f := setInlineBlock f (InlineBlock.end_ (inlineBlock f)) in
    (f, formatWithSpaces f token query After)
  else
    let f := setIndentation f (Indentation.decreaseBlockLevel (indentation f)) in
    (f, formatWithSpaces f token (addNewline f query) Both).

Definition formatPlaceholder (f : t) (token : Token) (query : str)
  : result (t * str) :=
  '(v, p) ← Params.get (params f) token;
  Ok (setParams f p, query ++ v ++ [SPACE]).

Definition formatComma (f : t) (token : Token) (query : str) : str :=
  let query := trimSpacesEnd query ++ show f token ++ [SPACE] in
  if InlineBlock.isActive (inlineBlock f) then query
  else if isLimit (previousReservedToken f) then query
  else addNewline f query.

Definition formatWithoutSpaces (f : t) (token : Token) (query : str) : str :=
  trimSpacesEnd query ++ show f token.

(** [linesBetweenQueries || 1] *)
Definition linesBetweenQueriesOr1 (f : t) : Z :=
  if FormatOptions.linesBetweenQueries (cfg f) =? 0 then 1
  else FormatOptions.linesBetweenQueries (cfg f).

Definition formatQuerySeparator (f : t) (token : Token) (query : str)
  : result (t * str) :=
  let f := setIndentation f (Indentation.resetIndentation (indentation f)) in
  newlines ← JsString.repeat [LF] (linesBetweenQueriesOr1 f);
  Ok (f, trimSpacesEnd query ++ show f token ++ newlines).

Definition valueIs (token : Token) (s : string) : bool :=
  bool_decide (value token = list_ascii_of_string s).

Definition optValueIs (token : option Token) (s : string) : bool :=
  match token with
  | Some token => valueIs token s
  | None => false
  end.

(** The token types the dispatch settles before it looks at the value. *)
Definition dispatchedByType (ty : tokenType) : bool :=
  match ty with
  | LINE_COMMENT | BLOCK_COMMENT | RESERVED_TOP_LEVEL
  | RESERVED_TOP_LEVEL_NO_INDENT | RESERVED_NEWLINE | RESERVED
  | OPEN_PAREN | CLOSE_PAREN | PLACEHOLDER => true
  | _ => false
  end.

Section Engine.

Variable d : Dialect.

(** The tail of the dispatch, on the token's value. *)
Definition formatByValue (f : t) (token : Token) (formattedQuery : str)
  : result (t * str) :=
  if valueIs token "," then Ok (f, formatComma f token formattedQuery)
  else if valueIs token ":" then Ok (f, formatWithSpaces f token formattedQuery After)
  else if valueIs token "." then Ok (f, formatWithoutSpaces f token formattedQuery)
  else if valueIs token ";" then formatQuerySeparator f token formattedQuery
  else if valueIs token "["
          || (valueIs token "`" && optValueIs (tokenLookAhead f 2) "`")
  then Ok (f, formatWithSpaces f token formattedQuery Before)
  else if valueIs token "]"
          || (valueIs token "`" && optValueIs (tokenLookBehind f 2) "`")
  then Ok (f, formatWithSpaces f token formattedQuery After)
  else Ok (f, formatWithSpaces f token formattedQuery Both).

(** The body of the [forEach] of [getFormattedQueryFromTokens]. *)
Definition formatToken (f : t) (index : nat) (token : Token) (formattedQuery : str)
  : result (t * str) :=
  let f := setIndex f index in
  let token := tokenOverride d f token in
  match type token with
  | LINE_COMMENT => Ok (f, formatLineComment f token formattedQuery)
  | BLOCK_COMMENT => Ok (f, formatBlockComment f token formattedQuery)
  | RESERVED_TOP_LEVEL =>
      let '(f, q) := formatTopLevelReservedWord f token formattedQuery in
      Ok (setPreviousReservedToken f token, q)
  | RESERVED_TOP_LEVEL_NO_INDENT =>
      let '(f, q) := formatTopLevelReservedWordNoIndent f token formattedQuery in
      Ok (setPreviousReservedToken f token, q)
  | RESERVED_NEWLINE =>
      Ok (setPreviousReservedToken f token,
          formatNewlineReservedWord f token formattedQuery)
  | RESERVED =>
      Ok (setPreviousReservedToken f token,
          formatWithSpaces f token formattedQuery Both)
  | OPEN_PAREN => Ok (formatOpeningParentheses f token formattedQuery)
  | CLOSE_PAREN => Ok (formatClosingParentheses f token formattedQuery)
  | PLACEHOLDER => formatPlaceholder f token formattedQuery
  | _ => formatByValue f token formattedQuery
  end.

Fixpoint forEachToken (f : t) (index : nat) (ts : list Token) (formattedQuery : str)
  : result (t * str) :=
  match ts with
  | [] => Ok (f, formattedQuery)
  | token :: ts' =>
      '(f, q) ← formatToken f index token formattedQuery;
      forEachToken f (S index) ts' q
  end.

Definition getFormattedQueryFromTokens (f : t) : result (t * str) :=
  '(f, formattedQuery) ← forEachToken f 0 (tokens f) [];
  let formattedQuery := trimEnd formattedQuery in
  Ok (f, if FormatOptions.trailingNewline (cfg f) then formattedQuery ++ [LF]
         else formattedQuery).

Definition format (f : t) (query : str) : result str :=
  toks ← Tokenizer.tokenize (tokenizer d) query;
  let f := setTokens f toks in
  '(_, formattedQuery) ← getFormattedQueryFromTokens f;
  Ok (trim formattedQuery).

End Engine.

End Formatter.

(** ** The public entry ([format] of [src/sqlFormatter.ts]) *)

Module SqlFormatter.

(** [Partial<FormatOptions>]: every field is absent or has a value of its
    type.  The object may also carry [trailingNewline], which the engine
    reads. *)
Record PartialOptions := {
  language : option string;
  indent : option str;
  uppercase : option bool;
  keywordPosition : option KeywordMode.t;
  newline : option NewlineOption;
  breakBeforeBooleanOperator : option bool;
  aliasAs : option AliasMode.t;
  tabulateAlias : option bool;
  commaPosition : option CommaPosition.t;
  parenOptions : option ParenOptions;
  lineWidth : option Z;
  linesBetweenQueries : option Z;
  denseOperators : option bool;
  semicolonNewline : option bool;
  params : ParamItems;
  trailingNewline : option bool
}.

(** The argument [{}]. *)
Definition noOptions : PartialOptions :=
  {| language := None; indent := None; uppercase := None;
     keywordPosition := None; newline := None;
     breakBeforeBooleanOperator := None; aliasAs := None;
     tabulateAlias := None; commaPosition := None; parenOptions := None;
     lineWidth := None; linesBetweenQueries := None; denseOperators := None;
     semicolonNewline := None; params := NoParams; trailingNewline := None |}.

(** A property of the object once [format] has assigned to it: absent,
    present and undefined, or present with a value. *)
Inductive property (A : Type) :=
| Absent
| Undefined
| Has (a : A).
Arguments Absent {A}.
Arguments Undefined {A}.
Arguments Has {A} a.

(** [{...{x: dflt}, ...cfg}.x]: a property that is present wins, also when
    it is undefined. *)
Definition spread {A} (dflt : A) (p : property A) : option A :=
  match p with
  | Absent => Some dflt
  | Undefined => None
  | Has a => Some a
  end.

(** The dialect classes of [src/languages], which are not among the
    sources, in the order of the [formatters] table. *)
Record Languages := {
  bigquery : Formatter.Dialect;
  db2 : Formatter.Dialect;
  hive : Formatter.Dialect;
  mariadb : Formatter.Dialect;
  mysql : Formatter.Dialect;
  n1ql : Formatter.Dialect;
  plsql : Formatter.Dialect;
  postgresql : Formatter.Dialect;
  redshift : Formatter.Dialect;
  spark : Formatter.Dialect;
  sql : Formatter.Dialect;
  tsql : Formatter.Dialect
}.

Definition formatters (L : Languages) : list (string * Formatter.Dialect) :=
  [ ("bigquery", bigquery L); ("db2", db2 L); ("hive", hive L);
    ("mariadb", mariadb L); ("mysql", mysql L); ("n1ql", n1ql L);
    ("plsql", plsql L); ("postgresql", postgresql L);
    ("redshift", redshift L); ("spark", spark L); ("sql", sql L);
    ("tsql", tsql L) ].

Definition supportedDialects (L : Languages) : list string := (formatters L).*1.

Fixpoint lookupFormatter (table : list (string * Formatter.Dialect)) (name : string)
  : option Formatter.Dialect :=
  match table with
  | [] => None
  | (k, d) :: table' => if String.eqb k name then Some d else lookupFormatter table' name
  end.

Definition defaultParenOptions : ParenOptions :=
  {| openParenNewline := true; closeParenNewline := true |}.

Definition defaultOptions : FormatOptions.t :=
  {| FormatOptions.language := "sql";
     FormatOptions.indent := "  ";
     FormatOptions.uppercase := true;
     FormatOptions.keywordPosition := KeywordMode.standard;
     FormatOptions.newline := NewlineIs NewlineMode.always;
     FormatOptions.breakBeforeBooleanOperator := true;
     FormatOptions.aliasAs := AliasMode.select;
     FormatOptions.tabulateAlias := false;
     FormatOptions.commaPosition := CommaPosition.after;
     FormatOptions.parenOptions := defaultParenOptions;
     FormatOptions.lineWidth := Some 50;
     FormatOptions.linesBetweenQueries := 1;
     FormatOptions.denseOperators := false;
     FormatOptions.semicolonNewline := false;
     FormatOptions.params := NoParams;
     FormatOptions.trailingNewline := false |}.

(** Truthiness of [cfg.newline]: a number other than 0, or one of the
    (non-empty) names of a mode. *)
Definition newlineIsTruthy (n : option NewlineOption) : bool :=
  match n with
  | Some (NewlineNumber z) => negb (z =? 0)
  | Some (NewlineIs _) => true
  | None => false
  end.

(** [+cfg.newline], with [None] for NaN: the name of a mode is not a number. *)
Definition newlineToNumber (n : option NewlineOption) : option Z :=
  match n with
  | Some (NewlineNumber z) => Some z
  | _ => None
  end.

Definition isNumber (n : option Z) : bool :=
  match n with Some _ => true | None => false end.

Definition lessThanZero (n : option Z) : bool :=
  match n with Some z => z <? 0 | None => false end.

(** [cfg.newline === 0] *)
Definition isZero (n : option NewlineOption) : bool :=
  match n with
  | Some (NewlineNumber z) => z =? 0
  | _ => false
  end.

(** Lines 93 to 100: the check of [cfg.newline]. *)
Definition checkNewline (n : option NewlineOption) : result (option NewlineOption) :=
  if newlineIsTruthy n && isNumber (newlineToNumber n) then
    if lessThanZero (newlineToNumber n) then Throw InvalidNewline
    else if isZero n then Ok (Some (NewlineIs NewlineMode.always))
    else Ok n
  else Ok n.

Definition lineWidthWarning : string :=
  "Warning: cfg.linewidth was <=0, reset to default value".

(** Lines 102 to 105: the check of [cfg.lineWidth], with the warnings it
    writes to the console. *)
Definition checkLineWidth (w : option Z) : list string * property Z :=
  match w with
  | Some z =>
      if negb (z =? 0) && (z <=? 0) then ([lineWidthWarning], Undefined)
      else ([], Has z)
  | None => ([], Absent)
  end.

(** What a call of [format] does: the warnings written to the console and
    the value returned or the error thrown. *)
Record outcome (A : Type) := {
  warnings : list string;
  returned : result A
}.
Arguments warnings {A} o.
Arguments returned {A} o.

(** Lines 82 to 132: the options the [Formatter] is constructed with. *)
Definition resolveOptions (L : Languages) (cfg : PartialOptions)
  : outcome FormatOptions.t :=
  let unsupported :=
    match language cfg with
    | Some l =>
        if negb (String.eqb l "") && negb (bool_decide (l ∈ supportedDialects L))
        then Some l else None
    | None => None
    end in
  match unsupported with
  | Some l => {| warnings := []; returned := Throw (UnsupportedDialect l) |}
  | None =>
      let indent' :=
        match keywordPosition cfg with
        | Some KeywordMode.tenSpaceLeft | Some KeywordMode.tenSpaceRight =>
            Some (concat (replicate 10 [SPACE]))
        | _ => indent cfg
        end in
      match checkNewline (newline cfg) with
      | Throw e => {| warnings := []; returned := Throw e |}
      | Ok newline' =>
          let '(warned, lineWidth') := checkLineWidth (lineWidth cfg) in
          let dflt := defaultOptions in
          {| warnings := warned;
             returned := Ok
               {| FormatOptions.language :=
                    default (FormatOptions.language dflt) (language cfg);
                  FormatOptions.indent := default (FormatOptions.indent dflt) indent';
                  FormatOptions.uppercase :=
                    default (FormatOptions.uppercase dflt) (uppercase cfg);
                  FormatOptions.keywordPosition :=
                    default (FormatOptions.keywordPosition dflt) (keywordPosition cfg);
                  FormatOptions.newline :=
                    default (FormatOptions.newline dflt) newline';
                  FormatOptions.breakBeforeBooleanOperator :=
                    default (FormatOptions.breakBeforeBooleanOperator dflt)
                            (breakBeforeBooleanOperator cfg);
                  FormatOptions.aliasAs :=
                    default (FormatOptions.aliasAs dflt) (aliasAs cfg);
                  FormatOptions.tabulateAlias :=
                    default (FormatOptions.tabulateAlias dflt) (tabulateAlias cfg);
                  FormatOptions.commaPosition :=
                    default (FormatOptions.commaPosition dflt) (commaPosition cfg);
                  FormatOptions.parenOptions :=
                    default (FormatOptions.parenOptions dflt) (parenOptions cfg);
                  FormatOptions.lineWidth := spread 50 lineWidth';
                  FormatOptions.linesBetweenQueries :=
                    default (FormatOptions.linesBetweenQueries dflt)
                            (linesBetweenQueries cfg);
                  FormatOptions.denseOperators :=
                    default (FormatOptions.denseOperators dflt) (denseOperators cfg);
                  FormatOptions.semicolonNewline :=
                    default (FormatOptions.semicolonNewline dflt) (semicolonNewline cfg);
                  FormatOptions.params := params cfg;
                  FormatOptions.trailingNewline :=
                    default false (trailingNewline cfg) |} |}
      end
  end.

Definition format (L : Languages) (query : str) (cfg : PartialOptions)
  : outcome str :=
  let resolved := resolveOptions L cfg in
  {| warnings := warnings resolved;
     returned :=
       cfg ← returned resolved;
       match lookupFormatter (formatters L) (FormatOptions.language cfg) with
       | Some d => Formatter.format d (Formatter.new cfg) query
       | None => Throw TypeError
       end |}.

Definition withNewline (n : NewlineOption) (cfg : PartialOptions) : PartialOptions :=
  {| language := language cfg; indent := indent cfg; uppercase := uppercase cfg;
     keywordPosition := keywordPosition cfg; newline := Some n;
     breakBeforeBooleanOperator := breakBeforeBooleanOperator cfg;
     aliasAs := aliasAs cfg; tabulateAlias := tabulateAlias cfg;
     commaPosition := commaPosition cfg; parenOptions := parenOptions cfg;
     lineWidth := lineWidth cfg; linesBetweenQueries := linesBetweenQueries cfg;
     denseOperators := denseOperators cfg; semicolonNewline := semicolonNewline cfg;
     params := params cfg; trailingNewline := trailingNewline cfg |}.

Definition withLineWidth (w : Z) (cfg : PartialOptions) : PartialOptions :=
  {| language := language cfg; indent := indent cfg; uppercase := uppercase cfg;
     keywordPosition := keywordPosition cfg; newline := newline cfg;
     breakBeforeBooleanOperator := breakBeforeBooleanOperator cfg;
     aliasAs := aliasAs cfg; tabulateAlias := tabulateAlias cfg;
     commaPosition := commaPosition cfg; parenOptions := parenOptions cfg;
     lineWidth := Some w; linesBetweenQueries := linesBetweenQueries cfg;
     denseOperators := denseOperators cfg; semicolonNewline := semicolonNewline cfg;
     params := params cfg; trailingNewline := trailingNewline cfg |}.

Definition withLinesBetweenQueries (n : Z) (cfg : PartialOptions) : PartialOptions :=
  {| language := language cfg; indent := indent cfg; uppercase := uppercase cfg;
     keywordPosition := keywordPosition cfg; newline := newline cfg;
     breakBeforeBooleanOperator := breakBeforeBooleanOperator cfg;
     aliasAs := aliasAs cfg; tabulateAlias := tabulateAlias cfg;
     commaPosition := commaPosition cfg; parenOptions := parenOptions cfg;
     lineWidth := lineWidth cfg; linesBetweenQueries := Some n;
     denseOperators := denseOperators cfg; semicolonNewline := semicolonNewline cfg;
     params := params cfg; trailingNewline := trailingNewline cfg |}.

Definition withIndent (i : str) (cfg : PartialOptions) : PartialOptions :=
  {| language := language cfg; indent := Some i; uppercase := uppercase cfg;
     keywordPosition := keywordPosition cfg; newline := newline cfg;
     breakBeforeBooleanOperator := breakBeforeBooleanOperator cfg;
     aliasAs := aliasAs cfg; tabulateAlias := tabulateAlias cfg;
     commaPosition := commaPosition cfg; parenOptions := parenOptions cfg;
     lineWidth := lineWidth cfg; linesBetweenQueries := linesBetweenQueries cfg;
     denseOperators := denseOperators cfg; semicolonNewline := semicolonNewline cfg;
     params := params cfg; trailingNewline := trailingNewline cfg |}.

Definition withUppercase (b : bool) (cfg : PartialOptions) : PartialOptions :=
  {| language := language cfg; indent := indent cfg; uppercase := Some b;
     keywordPosition := keywordPosition cfg; newline := newline cfg;
     breakBeforeBooleanOperator := breakBeforeBooleanOperator cfg;
     aliasAs := aliasAs cfg; tabulateAlias := tabulateAlias cfg;
     commaPosition := commaPosition cfg; parenOptions := parenOptions cfg;
     lineWidth := lineWidth cfg; linesBetweenQueries := linesBetweenQueries cfg;
     denseOperators := denseOperators cfg; semicolonNewline := semicolonNewline cfg;
     params := params cfg; trailingNewline := trailingNewline cfg |}.

End SqlFormatter.

(** ** A dialect table for the examples *)

(** Modelled from the spec: a dialect with the keywords the specification
    names and the usual lexemes of SQL, to run the engine on concrete
    queries.  The dialect modules of [src/languages] are not among the
    sources. *)
Module SampleDialect.

Definition isDigit (c : ascii) : bool :=
  let n := nat_of_ascii c in (48 <=? n)%nat && (n <=? 57)%nat.

Definition isWordChar (c : ascii) : bool :=
  let n := nat_of_ascii (toUpperChar c) in
  ((65 <=? n)%nat && (n <=? 90)%nat) || isDigit c || Ascii.eqb c "_"%char.

Definition DQUOTE : ascii := "034"%char.

Definition nonEmpty (n : nat) : option nat :=
  match n with O => None | _ => Some n end.

Definition startsWith (prefix : string) (input : str) : bool :=
  bool_decide (take (length (list_ascii_of_string prefix)) input
               = list_ascii_of_string prefix).

(** A keyword matches in any letter case, when no word character follows. *)
Definition keywordLength (input : str) (kw : string) : nat :=
  let n := length (list_ascii_of_string kw) in
  if eqIgnoreCase (take n input) kw
     && match input !! n with Some c => negb (isWordChar c) | None => true end
  then n else 0%nat.

Definition keywords (kws : list string) : Tokenizer.lexer := fun input =>
  nonEmpty (foldr Nat.max 0%nat (keywordLength input <$> kws)).

Definition lineComment : Tokenizer.lexer := fun input =>
  if startsWith "--" input
  then Some (2 + length (Tokenizer.takeStart (fun c => negb (Ascii.eqb c LF))
                                             (drop 2 input)))%nat
  else None.

(** The length up to the end of the first [*/]. *)
Fixpoint closeOfComment (s : str) : option nat :=
  match s with
  | [] => None
  | c :: s' =>
      if startsWith "*/" s then Some 2%nat else S <$> closeOfComment s'
  end.

Definition blockComment : Tokenizer.lexer := fun input =>
  if startsWith "/*" input
  then (fun n => 2 + n)%nat <$> closeOfComment (drop 2 input)
  else None.

(** The length up to the closing quote [q]; a doubled quote does not close. *)
Fixpoint closeOfQuote (q : ascii) (s : str) : option nat :=
  match s with
  | [] => None
  | c :: s' =>
      if Ascii.eqb c q then
        match s' with
        | c' :: s'' =>
            if Ascii.eqb c' q then (fun n => 2 + n)%nat <$> closeOfQuote q s''
            else Some 1%nat
        | [] => Some 1%nat
        end
      else S <$> closeOfQuote q s'
  end.

Definition quoted (q : ascii) : Tokenizer.lexer := fun input =>
  match input with
  | c :: s' => if Ascii.eqb c q then S <$> closeOfQuote q s' else None
  | [] => None
  end.

Definition oneOf (chars : string) : Tokenizer.lexer := fun input =>
  match input with
  | c :: _ => if bool_decide (c ∈ list_ascii_of_string chars) then Some 1%nat else None
  | [] => None
  end.

Definition number : Tokenizer.lexer := fun input =>
  let int := Tokenizer.takeStart isDigit input in
  let rest := drop (length int) input in
  match int, rest with
  | [], _ => None
  | _, c :: rest' =>
      let frac := Tokenizer.takeStart isDigit rest' in
      match Ascii.eqb c "."%char, frac with
      | true, _ :: _ => Some (length int + 1 + length frac)%nat
      | _, _ => Some (length int)
      end
  | _, [] => Some (length int)
  end.

Definition word : Tokenizer.lexer := fun input =>
  nonEmpty (length (Tokenizer.takeStart isWordChar input)).

Definition operator : Tokenizer.lexer := fun input =>
  if startsWith "<>" input || startsWith "<=" input || startsWith ">=" input
     || startsWith "!=" input || startsWith "||" input
  then Some 2%nat
  else oneOf "+-*/=<>%&|^~!" input.

Definition punctuation : Tokenizer.lexer := fun input =>
  match input with
  | _ :: _ => Some 1%nat
  | [] => None
  end.

Definition tokenizer : Tokenizer.t :=
  {| Tokenizer.lexers :=
       [ (LINE_COMMENT, lineComment);
         (BLOCK_COMMENT, blockComment);
         (STRING, quoted "'"%char);
         (WORD, quoted DQUOTE);
         (OPEN_PAREN, oneOf "(");
         (CLOSE_PAREN, oneOf ")");
         (PLACEHOLDER, oneOf "?");
         (NUMBER, number);
         (RESERVED_TOP_LEVEL, keywords ["SELECT"; "FROM"; "WHERE"; "LIMIT"]);
         (RESERVED_TOP_LEVEL_NO_INDENT, keywords ["UNION"]);
         (RESERVED_NEWLINE, keywords ["AND"; "OR"; "JOIN"]);
         (RESERVED, keywords ["BETWEEN"; "AS"; "IN"; "ON"]);
         (WORD, word);
         (OPERATOR, operator);
         (PUNCTUATION, punctuation) ];
     Tokenizer.placeholderKey := fun _ => None |}.

Definition dialect : Formatter.Dialect :=
  {| Formatter.tokenizer := tokenizer;
     Formatter.tokenOverride := Formatter.baseTokenOverride |}.

Definition languages : SqlFormatter.Languages :=
  {| SqlFormatter.bigquery := dialect; SqlFormatter.db2 := dialect;
     SqlFormatter.hive := dialect; SqlFormatter.mariadb := dialect;
     SqlFormatter.mysql := dialect; SqlFormatter.n1ql := dialect;
     SqlFormatter.plsql := dialect; SqlFormatter.postgresql := dialect;
     SqlFormatter.redshift := dialect; SqlFormatter.spark := dialect;
     SqlFormatter.sql := dialect; SqlFormatter.tsql := dialect |}.

(** [format(query, cfg)] with this dialect for every language. *)
Definition format (query : string) (cfg : SqlFormatter.PartialOptions)
  : result string :=
  out ← SqlFormatter.returned (SqlFormatter.format languages query cfg);
  Ok (string_of_list_ascii out).

(** The options [format] constructs the formatter with. *)
Definition options (cfg : SqlFormatter.PartialOptions) : FormatOptions.t :=
  match SqlFormatter.returned (SqlFormatter.resolveOptions languages cfg) with
  | Ok c => c
  | Throw _ => SqlFormatter.defaultOptions
  end.

Definition tokens (query : string) : list Token :=
  match Tokenizer.tokenize tokenizer query with
  | Ok toks => toks
  | Throw _ => []
  end.

(** The formatter of [format(query, cfg)] when it starts on its tokens. *)
Definition formatter (query : string) (cfg : SqlFormatter.PartialOptions)
  : Formatter.t :=
  Formatter.setTokens (Formatter.new (options cfg)) (tokens query).

End SampleDialect.

(** * Notions the properties are stated with *)

(** Every character of [s] is in the class [p]. *)
Definition allIn (p : ascii -> bool) (s : str) : Prop :=
  Forall (fun c => p c = true) s.

Definition isLetter (c : ascii) : bool :=
  let n := nat_of_ascii c in
  ((65 <=? n)%nat && (n <=? 90)%nat) || ((97 <=? n)%nat && (n <=? 122)%nat).

(** The string has no letter, so its case is the only one. *)
Definition noLetters (s : str) : bool := forallb (fun c => negb (isLetter c)) s.

(** The options with [trailingNewline] set to [b]. *)
Definition withTrailingNewline (b : bool) (cfg : FormatOptions.t) : FormatOptions.t :=
  {| FormatOptions.language := FormatOptions.language cfg;
     FormatOptions.indent := FormatOptions.indent cfg;
     FormatOptions.uppercase := FormatOptions.uppercase cfg;
     FormatOptions.keywordPosition := FormatOptions.keywordPosition cfg;
     FormatOptions.newline := FormatOptions.newline cfg;
     FormatOptions.breakBeforeBooleanOperator :=
       FormatOptions.breakBeforeBooleanOperator cfg;
     FormatOptions.aliasAs := FormatOptions.aliasAs cfg;
     FormatOptions.tabulateAlias := FormatOptions.tabulateAlias cfg;
     FormatOptions.commaPosition := FormatOptions.commaPosition cfg;
     FormatOptions.parenOptions := FormatOptions.parenOptions cfg;
     FormatOptions.lineWidth := FormatOptions.lineWidth cfg;
     FormatOptions.linesBetweenQueries := FormatOptions.linesBetweenQueries cfg;
     FormatOptions.denseOperators := FormatOptions.denseOperators cfg;
     FormatOptions.semicolonNewline := FormatOptions.semicolonNewline cfg;
     FormatOptions.params := FormatOptions.params cfg;
     FormatOptions.trailingNewline := b |}.

(** [token.whitespaceBefore?.length === 0] *)
Definition emptyWhitespaceBefore (token : Token) : bool :=
  bool_decide (length <$> whitespaceBefore token = Some 0%nat).

Definition onFormatter (g : Formatter.t -> Formatter.t)
           (r : result (Formatter.t * str)) : result (Formatter.t * str) :=
  match r with
  | Ok (f, q) => Ok (g f, q)
  | Throw e => Throw e
  end.

Definition onPair (g : Formatter.t -> Formatter.t) (p : Formatter.t * str)
  : Formatter.t * str := (g p.1, p.2).

(** The formatter [f] with its options changed by [onCfg] and the tokens it
    holds by [onToken]. *)
Definition transport (onCfg : FormatOptions.t -> FormatOptions.t)
           (onToken : Token -> Token) (f : Formatter.t) : Formatter.t :=
  Formatter.mk (onCfg (Formatter.cfg f)) (Formatter.indentation f)
    (Formatter.inlineBlock f) (Formatter.params f)
    (onToken <$> Formatter.previousReservedToken f)
    (onToken <$> Formatter.tokens f) (Formatter.index f).

(** The formatter [f] with the flag of its options set to [b]. *)
Definition flagged (b : bool) (f : Formatter.t) : Formatter.t :=
  Formatter.mk (withTrailingNewline b (Formatter.cfg f)) (Formatter.indentation f)
    (Formatter.inlineBlock f) (Formatter.params f)
    (Formatter.previousReservedToken f) (Formatter.tokens f) (Formatter.index f).

(** The dialect's hook does not look at the flag. *)
Definition hookIgnoresTrailingNewline (d : Formatter.Dialect) : Prop :=
  forall b f token,
    Formatter.tokenOverride d (flagged b f) token = Formatter.tokenOverride d f token.

Definition sampleWithTrailingNewline : FormatOptions.t :=
  withTrailingNewline true SqlFormatter.defaultOptions.

(** A token with what the engine reads of it: the value of a reserved word
    or parenthesis in upper case, and the [whitespaceBefore] of an opening
    parenthesis only, as empty or not. *)
Definition normalized (t : Token) : Token :=
  mkToken (type t)
          (if Formatter.isCased (type t) then toUpperCase (value t) else value t)
          (match type t with
           | OPEN_PAREN => if emptyWhitespaceBefore t then Some [] else None
           | _ => None
           end)
          (key t).

(** The dialect's hook reads of the tokens what the engine reads. *)
Definition hookIgnoresWhitespace (d : Formatter.Dialect) : Prop :=
  forall f t,
    Formatter.tokenOverride d (transport id normalized f) (normalized t)
    = normalized (Formatter.tokenOverride d f t).

(** The dialect's hook keeps the value of the token. *)
Definition hookKeepsValue (d : Formatter.Dialect) : Prop :=
  forall f t, value (Formatter.tokenOverride d f t) = value t.

(** The whitespace of [s] is single spaces: every whitespace character is a
    space, and none follows another; [afterSpace] tells that the character
    before [s] was one. *)
Fixpoint collapsed (afterSpace : bool) (s : str) : bool :=
  match s with
  | [] => true
  | c :: s' =>
      if isWhitespace c
      then Ascii.eqb c SPACE && negb afterSpace && collapsed true s'
      else collapsed false s'
  end.

(** The options with [uppercase] set to [b]. *)
Definition withUppercase (b : bool) (cfg : FormatOptions.t) : FormatOptions.t :=
  {| FormatOptions.language := FormatOptions.language cfg;
     FormatOptions.indent := FormatOptions.indent cfg;
     FormatOptions.uppercase := b;
     FormatOptions.keywordPosition := FormatOptions.keywordPosition cfg;
     FormatOptions.newline := FormatOptions.newline cfg;
     FormatOptions.breakBeforeBooleanOperator :=
       FormatOptions.breakBeforeBooleanOperator cfg;
     FormatOptions.aliasAs := FormatOptions.aliasAs cfg;
     FormatOptions.tabulateAlias := FormatOptions.tabulateAlias cfg;
     FormatOptions.commaPosition := FormatOptions.commaPosition cfg;
     FormatOptions.parenOptions := FormatOptions.parenOptions cfg;
     FormatOptions.lineWidth := FormatOptions.lineWidth cfg;
     FormatOptions.linesBetweenQueries := FormatOptions.linesBetweenQueries cfg;
     FormatOptions.denseOperators := FormatOptions.denseOperators cfg;
     FormatOptions.semicolonNewline := FormatOptions.semicolonNewline cfg;
     FormatOptions.params := FormatOptions.params cfg;
     FormatOptions.trailingNewline := FormatOptions.trailingNewline cfg |}.

(** The formatter [f] with [uppercase] set to [b] in its options. *)
Definition recased (b : bool) (f : Formatter.t) : Formatter.t :=
  Formatter.mk (withUppercase b (Formatter.cfg f)) (Formatter.indentation f)
    (Formatter.inlineBlock f) (Formatter.params f)
    (Formatter.previousReservedToken f) (Formatter.tokens f) (Formatter.index f).

(** The dialect's hook does not look at the [uppercase] option. *)
Definition hookIgnoresUppercase (d : Formatter.Dialect) : Prop :=
  forall b f token,
    Formatter.tokenOverride d (recased b f) token = Formatter.tokenOverride d f token.

(** The token types whose tokens become the previous reserved token. *)
Definition reservedTypes : list tokenType :=
  [RESERVED_TOP_LEVEL; RESERVED_TOP_LEVEL_NO_INDENT; RESERVED_NEWLINE; RESERVED].

(** The options object with its [language] set to [l]. *)
Definition withLanguage (l : string) (cfg : SqlFormatter.PartialOptions)
  : SqlFormatter.PartialOptions :=
  {| SqlFormatter.language := Some l;
     SqlFormatter.indent := SqlFormatter.indent cfg;
     SqlFormatter.uppercase := SqlFormatter.uppercase cfg;
     SqlFormatter.keywordPosition := SqlFormatter.keywordPosition cfg;
     SqlFormatter.newline := SqlFormatter.newline cfg;
     SqlFormatter.breakBeforeBooleanOperator :=
       SqlFormatter.breakBeforeBooleanOperator cfg;
     SqlFormatter.aliasAs := SqlFormatter.aliasAs cfg;
     SqlFormatter.tabulateAlias := SqlFormatter.tabulateAlias cfg;
     SqlFormatter.commaPosition := SqlFormatter.commaPosition cfg;
     SqlFormatter.parenOptions := SqlFormatter.parenOptions cfg;
     SqlFormatter.lineWidth := SqlFormatter.lineWidth cfg;
     SqlFormatter.linesBetweenQueries := SqlFormatter.linesBetweenQueries cfg;
     SqlFormatter.denseOperators := SqlFormatter.denseOperators cfg;
     SqlFormatter.semicolonNewline := SqlFormatter.semicolonNewline cfg;
     SqlFormatter.params := SqlFormatter.params cfg;
     SqlFormatter.trailingNewline := SqlFormatter.trailingNewline cfg |}.

(** The options object with its [keywordPosition] set to [k]. *)
Definition withKeywordPosition (k : KeywordMode.t) (cfg : SqlFormatter.PartialOptions)
  : SqlFormatter.PartialOptions :=
  {| SqlFormatter.language := SqlFormatter.language cfg;
     SqlFormatter.indent := SqlFormatter.indent cfg;
     SqlFormatter.uppercase := SqlFormatter.uppercase cfg;
     SqlFormatter.keywordPosition := Some k;
     SqlFormatter.newline := SqlFormatter.newline cfg;
     SqlFormatter.breakBeforeBooleanOperator :=
       SqlFormatter.breakBeforeBooleanOperator cfg;
     SqlFormatter.aliasAs := SqlFormatter.aliasAs cfg;
     SqlFormatter.tabulateAlias := SqlFormatter.tabulateAlias cfg;
     SqlFormatter.commaPosition := SqlFormatter.commaPosition cfg;
     SqlFormatter.parenOptions := SqlFormatter.parenOptions cfg;
     SqlFormatter.lineWidth := SqlFormatter.lineWidth cfg;
     SqlFormatter.linesBetweenQueries := SqlFormatter.linesBetweenQueries cfg;
     SqlFormatter.denseOperators := SqlFormatter.denseOperators cfg;
     SqlFormatter.semicolonNewline := SqlFormatter.semicolonNewline cfg;
     SqlFormatter.params := SqlFormatter.params cfg;
     SqlFormatter.trailingNewline := SqlFormatter.trailingNewline cfg |}.

(** The options with [params] set to [p]. *)
Definition withParams (p : ParamItems) (cfg : FormatOptions.t) : FormatOptions.t :=
  {| FormatOptions.language := FormatOptions.language cfg;
     FormatOptions.indent := FormatOptions.indent cfg;
     FormatOptions.uppercase := FormatOptions.uppercase cfg;
     FormatOptions.keywordPosition := FormatOptions.keywordPosition cfg;
     FormatOptions.newline := FormatOptions.newline cfg;
     FormatOptions.breakBeforeBooleanOperator :=
       FormatOptions.breakBeforeBooleanOperator cfg;
     FormatOptions.aliasAs := FormatOptions.aliasAs cfg;
     FormatOptions.tabulateAlias := FormatOptions.tabulateAlias cfg;
     FormatOptions.commaPosition := FormatOptions.commaPosition cfg;
     FormatOptions.parenOptions := FormatOptions.parenOptions cfg;
     FormatOptions.lineWidth := FormatOptions.lineWidth cfg;
     FormatOptions.linesBetweenQueries := FormatOptions.linesBetweenQueries cfg;
     FormatOptions.denseOperators := FormatOptions.denseOperators cfg;
     FormatOptions.semicolonNewline := FormatOptions.semicolonNewline cfg;
     FormatOptions.params := p;
     FormatOptions.trailingNewline := FormatOptions.trailingNewline cfg |}.

(** ** What the formatter writes for a token *)

(** The indent unit of the formatter is whitespace. *)
Definition indentIsWhitespace (f : Formatter.t) : Prop :=
  allIn isWhitespace (Indentation.indent (Formatter.indentation f)).

(** The tokens as the dialect's hook hands them to the dispatch, along the run
    of the engine from the formatter [f], the index [i] and the output [q]. *)
Fixpoint overriddenTokens (d : Formatter.Dialect) (f : Formatter.t) (i : nat)
         (ts : list Token) (q : str) : list Token :=
  match ts with
  | [] => []
  | t :: ts' =>
      Formatter.tokenOverride d (Formatter.setIndex f i) t
      :: match Formatter.formatToken d f i t q with
         | Ok (f', q') => overriddenTokens d f' (S i) ts' q'
         | Throw _ => []
         end
  end.

(** The string starts with a character that is not whitespace. *)
Definition hardStart (s : str) : bool :=
  match s with
  | c :: _ => negb (isWhitespace c)
  | [] => false
  end.

(** The string ends with a character that is not whitespace. *)
Definition hardEnd (s : str) : bool :=
  match last s with
  | Some c => negb (isWhitespace c)
  | None => false
  end.

Definition hardValue (t : Token) : bool := hardStart (value t) && hardEnd (value t).

(** The characters the dispatch writes for a token that is no placeholder: a
    block comment with its lines indented, a top-level or newline reserved
    word shown and with its whitespace equalized, any other token as [show]
    renders it. *)
Definition written (f : Formatter.t) (token : Token) : str :=
  match type token with
  | BLOCK_COMMENT => Formatter.indentComment f (value token)
  | RESERVED_TOP_LEVEL | RESERVED_TOP_LEVEL_NO_INDENT | RESERVED_NEWLINE =>
      Formatter.equalizeWhitespace (Formatter.show f token)
  | _ => Formatter.show f token
  end.

(** What a rule does to the output before it writes the token: nothing, trim
    its trailing spaces, or [addNewline]. *)
Inductive lead :=
| Keep
| Trim
| Break (f : Formatter.t).

Definition applyLead (l : lead) (q : str) : str :=
  match l with
  | Keep => q
  | Trim => trimSpacesEnd q
  | Break f => Formatter.addNewline f q
  end.

(** The newline of the lead is indented with the indent unit of [f]. *)
Definition leadFits (f : Formatter.t) (l : lead) : Prop :=
  match l with
  | Break f0 =>
      Indentation.indent (Formatter.indentation f0)
      = Indentation.indent (Formatter.indentation f)
  | _ => True
  end.

(** What a rule writes after the token: nothing, a space, newlines, or a
    newline and the indent of the formatter it leaves. *)
Definition trailFits (f : Formatter.t) (after : str) : Prop :=
  after = [] \/ after = [SPACE] \/ (exists n, after = replicate n LF)
  \/ after = [LF] ++ Indentation.getIndent (Formatter.indentation f).

(** The tokens after which a rule may break the line: the comments, the
    top-level reserved words, the comma and the semicolon. *)
Definition breaksLine (token : Token) : bool :=
  match type token with
  | LINE_COMMENT | BLOCK_COMMENT | RESERVED_TOP_LEVEL
  | RESERVED_TOP_LEVEL_NO_INDENT => true
  | ty => negb (Formatter.dispatchedByType ty)
          && (Formatter.valueIs token "," || Formatter.valueIs token ";")
  end.

(** ** Formatting the formatted query *)

(** The whitespace at the end of the output. *)
Definition trailing (q : str) : str := drop (length (trimEnd q)) q.

(** The tokens of the formatted query as the run of the engine writes them:
    the type of each token of the query, its value as written, and before it
    the whitespace the run leaves between this token and the one before. *)
Fixpoint writtenTokens (d : Formatter.Dialect) (f : Formatter.t) (i : nat)
         (ts : list Token) (q : str) : list Token :=
  match ts with
  | [] => []
  | t :: ts' =>
      let g := Formatter.setIndex f i in
      let token := Formatter.tokenOverride d g t in
      match Formatter.formatToken d f i t q with
      | Ok (f', q') =>
          mkToken (type token) (written g token)
                  (Some (Tokenizer.takeStart isWhitespace
                           (drop (length (trimEnd q)) q')))
                  (key token)
          :: writtenTokens d f' (S i) ts' q'
      | Throw _ => []
      end
  end.

(** The type and the characters of a token. *)
Definition lexeme (t : Token) : tokenType * str := (type t, value t).

(** A token as it stands in the query: the whitespace before it and its
    value. *)
Definition source (t : Token) : str := default [] (whitespaceBefore t) ++ value t.

(** No opening parenthesis that has no whitespace before it directly follows
    a token after which a rule may break the line. *)
Fixpoint parenthesesKeepLine (previous : option Token) (ts : list Token) : bool :=
  match ts with
  | [] => true
  | t :: ts' =>
      negb (bool_decide (type t = OPEN_PAREN) && emptyWhitespaceBefore t
            && from_option breaksLine false previous)
      && parenthesesKeepLine (Some t) ts'
  end.

(** Where the run trims the output before an opening parenthesis (one that
    has no whitespace before it and follows no opening parenthesis, line
    comment or operator), the output does not end with a line break and
    spaces after it: it ends with a character that is not whitespace and
    spaces, or it has no spaces to trim. *)
Fixpoint parenthesesStay (d : Formatter.Dialect) (f : Formatter.t) (i : nat)
         (ts : list Token) (q : str) : bool :=
  match ts with
  | [] => true
  | t :: ts' =>
      let g := Formatter.setIndex f i in
      let token := Formatter.tokenOverride d g t in
      (if bool_decide (type token = OPEN_PAREN) && emptyWhitespaceBefore token
          && negb (Formatter.preserveWhitespaceFor
                     (type <$> Formatter.tokenLookBehind g 1))
       then bool_decide (trimSpacesEnd (trailing q) = [])
            || bool_decide (trimSpacesEnd q = q)
       else true)
      && match Formatter.formatToken d f i t q with
         | Ok (f', q') => parenthesesStay d f' (S i) ts' q'
         | Throw _ => true
         end
  end.

(** The look-ahead of the inline block answers for the tokens [ts'] as for
    the tokens [ts], after every position. *)
Definition sameLookAhead (lineWidth : option Z) (ts ts' : list Token) : bool :=
  forallb (fun i => bool_decide
                      (InlineBlock.lookAhead lineWidth 0 0 (drop (S i) ts')
                       = InlineBlock.lookAhead lineWidth 0 0 (drop (S i) ts)))
          (seq 0 (length ts)).

(** The formatter [f] as it stands in the second run: on the tokens of the
    formatted query, with its own previous reserved token. *)
Definition second (tokens : list Token) (previous : option Token) (f : Formatter.t)
  : Formatter.t :=
  Formatter.mk (Formatter.cfg f) (Formatter.indentation f) (Formatter.inlineBlock f)
    (Formatter.params f) previous tokens (Formatter.index f).

(** The string has no whitespace character. *)
Definition inkOnly (s : str) : bool := forallb (fun c => negb (isWhitespace c)) s.

(** The token [t2] has the type of [t], and is the same keyword, if any. *)
Definition alike (t t2 : Token) : Prop :=
  type t2 = type t
  /\ forall kw : string,
       inkOnly kw = true -> eqIgnoreCase (value t2) kw = eqIgnoreCase (value t) kw.

(** After a token that breaks no line and is no opening parenthesis, the
    output ends with at most a space. *)
Definition tailOK (previous : option Token) (q : str) : Prop :=
  from_option breaksLine false previous = false ->
  type <$> previous <> Some OPEN_PAREN ->
  trailing q = [] \/ trailing q = [SPACE].

(** The token [t2] of the formatted query is the token [w] as written; when
    it is an opening parenthesis, it has whitespace before it when [w] has. *)
Definition sameWritten (t2 w : Token) : Prop :=
  type t2 = type w /\ value t2 = value w
  /\ (type w = OPEN_PAREN -> emptyWhitespaceBefore t2 = emptyWhitespaceBefore w).

(** * Properties *)

(** ** The scenarios of the specification, with the sample dialect *)

Example scenario_select_from :
  SampleDialect.format "SELECT a FROM b" SqlFormatter.noOptions = Ok "SELECT
  a
FROM
  b".
Proof. vm_compute; reflexivity. Qed.

Example scenario_list_and_condition :
  SampleDialect.format "SELECT a,b FROM t WHERE x=1 AND y=2" SqlFormatter.noOptions
  = Ok "SELECT
  a,
  b
FROM
  t
WHERE
  x = 1
  AND y = 2".
Proof. vm_compute; reflexivity. Qed.

Example scenario_inline_block :
  SampleDialect.format "SELECT count(*) FROM t" SqlFormatter.noOptions = Ok "SELECT
  count(*)
FROM
  t".
Proof. vm_compute; reflexivity. Qed.

Example scenario_between :
  SampleDialect.format "SELECT a FROM t WHERE x BETWEEN 1 AND 2" SqlFormatter.noOptions
  = Ok "SELECT
  a
FROM
  t
WHERE
  x BETWEEN 1 AND 2".
Proof. vm_compute; reflexivity. Qed.

Example scenario_lines_between_queries :
  SampleDialect.format "SELECT * FROM a; SELECT * FROM b"
    (SqlFormatter.withLinesBetweenQueries 2 SqlFormatter.noOptions) = Ok "SELECT
  *
FROM
  a;

SELECT
  *
FROM
  b".
Proof. vm_compute; reflexivity. Qed.

Example scenario_limit :
  SampleDialect.format "SELECT a FROM t LIMIT 10, 20" SqlFormatter.noOptions
  = Ok "SELECT
  a
FROM
  t
LIMIT
  10, 20".
Proof. vm_compute; reflexivity. Qed.

(** ** Characters and strings *)

Section StringFacts.

Implicit Types (p : ascii -> bool) (s t : str) (c : ascii).

Lemma dropEnd_split p s : exists t, s = dropEnd p s ++ t /\ allIn p t.
Proof.
  induction s as [|c s [t [E Ht]]]; simpl.
  - exists []. split; [done | constructor].
  - destruct (dropEnd p s) as [|c' r] eqn:Er.
    + destruct (p c) eqn:Ec.
      * exists (c :: t). split; [by rewrite E | by constructor].
      * exists t. split; [by rewrite E | done].
    + exists t. split; [by rewrite E at 1 | done].
Qed.

Lemma dropEnd_all p s : allIn p s -> dropEnd p s = [].
Proof.
  induction 1 as [|c s Hc _ IH]; simpl; [done|]. by rewrite IH, Hc.
Qed.

Lemma dropEnd_app_all p s t : allIn p t -> dropEnd p (s ++ t) = dropEnd p s.
Proof.
  intros Ht. induction s as [|c s IH]; simpl.
  - by apply dropEnd_all.
  - by rewrite IH.
Qed.

Lemma dropEnd_idemp p s : dropEnd p (dropEnd p s) = dropEnd p s.
Proof.
  destruct (dropEnd_split p s) as [t [E Ht]].
  rewrite E at 2. by rewrite dropEnd_app_all.
Qed.

Lemma dropEnd_snoc_keep p s c : p c = false -> dropEnd p (s ++ [c]) = s ++ [c].
Proof.
  intros Hc. induction s as [|c' s IH]; simpl.
  - by rewrite Hc.
  - rewrite IH. by destruct s.
Qed.

Lemma dropEnd_last p s s' c : dropEnd p s = s' ++ [c] -> p c = false.
Proof.
  revert s'. induction s as [|c0 s IH]; intros s' E; simpl in E.
  - by destruct s'.
  - destruct (dropEnd p s) as [|c1 r] eqn:Er.
    + destruct (p c0) eqn:Ec0; [by destruct s'|].
      destruct s' as [|? [|? ?]]; by simplify_eq/=.
    + destruct s' as [|c2 s']; simpl in E; [discriminate E|].
      injection E as _ E. by eapply IH.
Qed.

Lemma dropStart_first p s c s' : dropStart p s = c :: s' -> p c = false.
Proof.
  induction s as [|c0 s IH]; simpl; [done|].
  destruct (p c0) eqn:Ec0; [done|]. intros; by simplify_eq.
Qed.

Lemma dropStart_dropEnd p s : dropStart p (dropEnd p s) = dropEnd p (dropStart p s).
Proof.
  induction s as [|c s IH]; simpl; [done|].
  destruct (p c) eqn:Ec; simpl.
  - rewrite <- IH. destruct (dropEnd p s); simpl; by rewrite ?Ec.
  - destruct (dropEnd p s); simpl; by rewrite Ec.
Qed.

Lemma trim_noLeading s : noLeadingWhitespace (trim s).
Proof.
  unfold trim, trimEnd, trimStart. rewrite <- dropStart_dropEnd.
  intros c s' E. by eapply dropStart_first.
Qed.

Lemma trim_noTrailing s : noTrailingWhitespace (trim s).
Proof. intros c s' E. by eapply dropEnd_last. Qed.

Lemma trim_app_whitespace s t : allIn isWhitespace t -> trim (s ++ t) = trim s.
Proof.
  intros Ht. unfold trim, trimEnd, trimStart.
  rewrite <- !dropStart_dropEnd. by rewrite dropEnd_app_all.
Qed.

Lemma trim_trimEnd s : trim (trimEnd s) = trim s.
Proof.
  unfold trim, trimEnd, trimStart.
  rewrite <- !dropStart_dropEnd. by rewrite dropEnd_idemp.
Qed.

Lemma endsWith_snoc c s d : endsWith c (s ++ [d]) = Ascii.eqb d c.
Proof. unfold endsWith. by rewrite last_snoc. Qed.

Lemma noTrailing_not_endsWith s : noTrailingWhitespace s -> endsWith LF s = false.
Proof.
  intros H. destruct s as [|c s] using rev_ind; [done|].
  rewrite endsWith_snoc. destruct (Ascii.eqb_spec c LF) as [->|]; [|done].
  by specialize (H _ _ eq_refl).
Qed.

Lemma toLower_toUpper_char c : toLowerChar (toUpperChar c) = toLowerChar c.
Proof. by destruct c as [[] [] [] [] [] [] [] []]. Qed.

Lemma toUpper_toUpper_char c : toUpperChar (toUpperChar c) = toUpperChar c.
Proof. by destruct c as [[] [] [] [] [] [] [] []]. Qed.

Lemma toUpperChar_not_letter c :
  isLetter (toUpperChar c) = false -> toUpperChar c = c.
Proof. by destruct c as [[] [] [] [] [] [] [] []]. Qed.

Lemma toLowerCase_toUpperCase s : toLowerCase (toUpperCase s) = toLowerCase s.
Proof.
  unfold toLowerCase, toUpperCase. rewrite <- list_fmap_compose.
  apply list_fmap_ext. intros _ c _. apply toLower_toUpper_char.
Qed.

Lemma toUpperCase_idemp s : toUpperCase (toUpperCase s) = toUpperCase s.
Proof.
  unfold toUpperCase. rewrite <- list_fmap_compose.
  apply list_fmap_ext. intros _ c _. apply toUpper_toUpper_char.
Qed.

(** Strings that differ in the case of their letters only. *)
Lemma sameCase_toLowerCase s t :
  toUpperCase s = toUpperCase t -> toLowerCase s = toLowerCase t.
Proof.
  intros E. by rewrite <- (toLowerCase_toUpperCase s), E, toLowerCase_toUpperCase.
Qed.

Lemma sameCase_length s t : toUpperCase s = toUpperCase t -> length s = length t.
Proof.
  intros E. apply (f_equal length) in E. unfold toUpperCase in E.
  by rewrite !length_fmap in E.
Qed.

Lemma sameCase_noLetters s t :
  noLetters t = true -> toUpperCase s = toUpperCase t -> s = t.
Proof.
  revert s. induction t as [|c t IH]; intros [|c' s] Ht E; try done.
  simpl in Ht. apply andb_true_iff in Ht as [Hc Ht]. apply negb_true_iff in Hc.
  injection E as Ec E. f_equal; [|by apply IH].
  assert (toUpperChar c = c) as Hfix.
  { revert Hc. by destruct c as [[] [] [] [] [] [] [] []]. }
  rewrite Hfix in Ec. rewrite <- Ec. symmetry. apply toUpperChar_not_letter.
  by rewrite Ec.
Qed.

End StringFacts.

(** ** The result monad *)

Lemma bind_Ok {A B} (r : result A) (k : A -> result B) (b : B) :
  r ≫= k = Ok b <-> exists a, r = Ok a /\ k a = Ok b.
Proof.
  destruct r as [a|e]; simpl; split.
  - intros H. by exists a.
  - by intros [a' [[= ->] H]].
  - done.
  - by intros [a' [? _]].
Qed.

Ltac inv_bind H :=
  repeat match type of H with
         | _ ≫= _ = Ok _ =>
             let a := fresh "a" in
             let E := fresh "E" in
             apply bind_Ok in H; destruct H as [a [E H]]
         | (let '(_, _) := ?p in _) = _ => destruct p
         | Ok _ = Ok _ => injection H as H
         end.

(** ** The final trimming *)

Lemma format_is_trimmed d f query out :
  Formatter.format d f query = Ok out -> exists s, out = trim s.
Proof.
  unfold Formatter.format. intros H.
  apply bind_Ok in H as [toks [_ H]].
  apply bind_Ok in H as [[f' q] [_ H]].
  injection H as <-. by eexists.
Qed.

(** The same holds of the public entry, whichever the dialects. *)
Lemma public_format_is_trimmed L query cfg out :
  SqlFormatter.returned (SqlFormatter.format L query cfg) = Ok out ->
  noLeadingWhitespace out /\ noTrailingWhitespace out.
Proof.
  unfold SqlFormatter.format. cbn [SqlFormatter.returned]. intros H.
  apply bind_Ok in H as [resolved [_ H]].
  destruct (SqlFormatter.lookupFormatter _ _) as [d|]; [|done].
  apply format_is_trimmed in H as [s ->].
  split; [apply trim_noLeading | apply trim_noTrailing].
Qed.

(** C8: the string [format] returns has no leading whitespace, and no
    trailing whitespace other than a single optional trailing newline. *)
Theorem format_result_trimmed d f query out :
  Formatter.format d f query = Ok out ->
  noLeadingWhitespace out
  /\ (noTrailingWhitespace out
      \/ exists s, out = s ++ [LF] /\ noTrailingWhitespace s).
Proof.
  intros [s ->]%format_is_trimmed. split.
  - apply trim_noLeading.
  - left. apply trim_noTrailing.
Qed.

Lemma format_result_trimmed_witness :
  let out := list_ascii_of_string "SELECT
  a
FROM
  b;" in
  Formatter.format SampleDialect.dialect (Formatter.new SqlFormatter.defaultOptions)
    "  select a from b ; " = Ok out
  /\ noLeadingWhitespace out
  /\ (noTrailingWhitespace out
      \/ exists s, out = s ++ [LF] /\ noTrailingWhitespace s).
Proof.
  intros out. split; [vm_compute; reflexivity|].
  apply (format_result_trimmed SampleDialect.dialect
           (Formatter.new SqlFormatter.defaultOptions) "  select a from b ; ").
  vm_compute; reflexivity.
Defined.

(** ** The [trailingNewline] flag *)

(** ** Formatters that differ in what the engine does not read

    The engine reads the options for the case and the lines between queries.
    Of a token it reads the type and the key, the value (of a reserved word
    or parenthesis, up to the case of its letters), and for an opening
    parenthesis whether [whitespaceBefore] is empty.  [transport] changes the
    rest: the options by [onCfg], the tokens by [onToken]. *)

Section Transport.

Variable d : Formatter.Dialect.
Variable onCfg : FormatOptions.t -> FormatOptions.t.
Variable onToken : Token -> Token.

Hypothesis onCfg_uppercase :
  forall c, FormatOptions.uppercase (onCfg c) = FormatOptions.uppercase c.
Hypothesis onCfg_linesBetweenQueries :
  forall c, FormatOptions.linesBetweenQueries (onCfg c)
            = FormatOptions.linesBetweenQueries c.
Hypothesis onToken_type : forall t, type (onToken t) = type t.
Hypothesis onToken_value :
  forall t, Formatter.isCased (type t) = false -> value (onToken t) = value t.
Hypothesis onToken_case :
  forall t, toUpperCase (value (onToken t)) = toUpperCase (value t).
Hypothesis onToken_key : forall t, key (onToken t) = key t.
Hypothesis onToken_whitespace :
  forall t, type t = OPEN_PAREN ->
            emptyWhitespaceBefore (onToken t) = emptyWhitespaceBefore t.

Local Abbreviation transport := (transport onCfg onToken).

Hypothesis hook : forall f t,
  Formatter.tokenOverride d (transport f) (onToken t)
  = onToken (Formatter.tokenOverride d f t).

Lemma show_transport f t : Formatter.show (transport f) (onToken t) = Formatter.show f t.
Proof.
  unfold Formatter.show; simpl. rewrite onToken_type, onCfg_uppercase.
  destruct (Formatter.isCased (type t)) eqn:Ec; [|by apply onToken_value].
  case_match; [apply onToken_case | apply sameCase_toLowerCase, onToken_case].
Qed.

Lemma addNewline_transport f q :
  Formatter.addNewline (transport f) q = Formatter.addNewline f q.
Proof. reflexivity. Qed.

Lemma tokenLookBehind_transport f n :
  Formatter.tokenLookBehind (transport f) n = onToken <$> Formatter.tokenLookBehind f n.
Proof.
  unfold Formatter.tokenLookBehind; simpl.
  case_match; [apply list_lookup_fmap | done].
Qed.

Lemma tokenLookAhead_transport f n :
  Formatter.tokenLookAhead (transport f) n = onToken <$> Formatter.tokenLookAhead f n.
Proof. apply list_lookup_fmap. Qed.

Lemma valueIs_transport t s :
  noLetters (list_ascii_of_string s) = true ->
  Formatter.valueIs (onToken t) s = Formatter.valueIs t s.
Proof.
  intros Hs. unfold Formatter.valueIs. apply bool_decide_ext. split; intros E.
  - apply sameCase_noLetters; [done|]. by rewrite <- onToken_case, E.
  - apply sameCase_noLetters; [done|]. by rewrite onToken_case, E.
Qed.

Lemma optValueIs_transport o s :
  noLetters (list_ascii_of_string s) = true ->
  Formatter.optValueIs (onToken <$> o) s = Formatter.optValueIs o s.
Proof. intros Hs. destruct o; simpl; [by apply valueIs_transport | done]. Qed.

Lemma eqIgnoreCase_transport t kw :
  eqIgnoreCase (value (onToken t)) kw = eqIgnoreCase (value t) kw.
Proof. unfold eqIgnoreCase. by rewrite onToken_case. Qed.

Lemma isAnd_transport t : isAnd (onToken t) = isAnd t.
Proof. apply eqIgnoreCase_transport. Qed.

Lemma isBetween_transport o : isBetween (onToken <$> o) = isBetween o.
Proof. destruct o; simpl; [apply eqIgnoreCase_transport | done]. Qed.

Lemma isLimit_transport o : isLimit (onToken <$> o) = isLimit o.
Proof. destruct o; simpl; [apply eqIgnoreCase_transport | done]. Qed.

Lemma lookAhead_transport w len depth ts :
  InlineBlock.lookAhead w len depth (onToken <$> ts)
  = InlineBlock.lookAhead w len depth ts.
Proof.
  revert len depth. induction ts as [|t ts IH]; intros len depth; simpl; [done|].
  rewrite onToken_type, (sameCase_length _ _ (onToken_case t)).
  case_match; [done|]. destruct (type t); try apply IH; try done.
  destruct depth; [done | apply IH].
Qed.

Lemma beginIfPossible_transport b ts i :
  InlineBlock.beginIfPossible b (onToken <$> ts) i
  = InlineBlock.beginIfPossible b ts i.
Proof.
  unfold InlineBlock.beginIfPossible, InlineBlock.isInlineBlock.
  by rewrite <- fmap_drop, lookAhead_transport.
Qed.

Lemma get_transport p t :
  type t = PLACEHOLDER -> Params.get p (onToken t) = Params.get p t.
Proof.
  intros Hty. unfold Params.get.
  by rewrite onToken_value, onToken_key by (by rewrite Hty).
Qed.

Lemma formatWithSpaces_transport f t q p :
  Formatter.formatWithSpaces (transport f) (onToken t) q p
  = Formatter.formatWithSpaces f t q p.
Proof. unfold Formatter.formatWithSpaces. by rewrite show_transport. Qed.

Lemma type_transport (o : option Token) : type <$> (onToken <$> o) = type <$> o.
Proof. destruct o; simpl; [by rewrite onToken_type | done]. Qed.

Lemma formatOpeningParentheses_transport f t q :
  type t = OPEN_PAREN ->
  Formatter.formatOpeningParentheses (transport f) (onToken t) q
  = onPair transport (Formatter.formatOpeningParentheses f t q).
Proof.
  intros Hty. unfold Formatter.formatOpeningParentheses.
  fold (emptyWhitespaceBefore (onToken t)). fold (emptyWhitespaceBefore t).
  rewrite onToken_whitespace by done.
  rewrite tokenLookBehind_transport, type_transport, show_transport.
  simpl. rewrite beginIfPossible_transport.
  by case_match.
Qed.

Lemma formatClosingParentheses_transport f t q :
  Formatter.formatClosingParentheses (transport f) (onToken t) q
  = onPair transport (Formatter.formatClosingParentheses f t q).
Proof.
  unfold Formatter.formatClosingParentheses. simpl.
  case_match.
  - change (Formatter.setInlineBlock (transport f) ?b)
      with (transport (Formatter.setInlineBlock f b)).
    by rewrite formatWithSpaces_transport.
  - change (Formatter.setIndentation (transport f) ?b)
      with (transport (Formatter.setIndentation f b)).
    by rewrite formatWithSpaces_transport.
Qed.

Lemma formatTopLevelReservedWord_transport f t q :
  Formatter.formatTopLevelReservedWord (transport f) (onToken t) q
  = onPair transport (Formatter.formatTopLevelReservedWord f t q).
Proof.
  unfold Formatter.formatTopLevelReservedWord, onPair. simpl.
  f_equal.
  change (Formatter.setIndentation (Formatter.setIndentation (transport f) ?a) ?b)
    with (transport (Formatter.setIndentation (Formatter.setIndentation f a) b)).
  by rewrite show_transport.
Qed.

Lemma formatTopLevelReservedWordNoIndent_transport f t q :
  Formatter.formatTopLevelReservedWordNoIndent (transport f) (onToken t) q
  = onPair transport (Formatter.formatTopLevelReservedWordNoIndent f t q).
Proof.
  unfold Formatter.formatTopLevelReservedWordNoIndent, onPair. simpl.
  f_equal.
  change (Formatter.setIndentation (transport f) ?a)
    with (transport (Formatter.setIndentation f a)).
  by rewrite show_transport.
Qed.

Lemma formatNewlineReservedWord_transport f t q :
  Formatter.formatNewlineReservedWord (transport f) (onToken t) q
  = Formatter.formatNewlineReservedWord f t q.
Proof.
  unfold Formatter.formatNewlineReservedWord.
  by rewrite isAnd_transport, tokenLookBehind_transport, isBetween_transport,
    formatWithSpaces_transport, show_transport.
Qed.

Lemma formatComma_transport f t q :
  Formatter.formatComma (transport f) (onToken t) q = Formatter.formatComma f t q.
Proof.
  unfold Formatter.formatComma. rewrite show_transport. simpl.
  by rewrite isLimit_transport.
Qed.

Lemma formatPlaceholder_transport f t q :
  type t = PLACEHOLDER ->
  Formatter.formatPlaceholder (transport f) (onToken t) q
  = onFormatter transport (Formatter.formatPlaceholder f t q).
Proof.
  intros Hty. unfold Formatter.formatPlaceholder. simpl.
  rewrite get_transport by done.
  by destruct (Params.get (Formatter.params f) t) as [[v p]|e].
Qed.

Lemma formatQuerySeparator_transport f t q :
  Formatter.formatQuerySeparator (transport f) (onToken t) q
  = onFormatter transport (Formatter.formatQuerySeparator f t q).
Proof.
  unfold Formatter.formatQuerySeparator, Formatter.linesBetweenQueriesOr1. simpl.
  rewrite onCfg_linesBetweenQueries.
  change (Formatter.setIndentation (transport f) ?a)
    with (transport (Formatter.setIndentation f a)).
  rewrite show_transport.
  by destruct (JsString.repeat _ _).
Qed.

Lemma formatByValue_transport f t q :
  Formatter.formatByValue (transport f) (onToken t) q
  = onFormatter transport (Formatter.formatByValue f t q).
Proof.
  unfold Formatter.formatByValue.
  rewrite !valueIs_transport by reflexivity.
  rewrite tokenLookAhead_transport, tokenLookBehind_transport.
  rewrite !optValueIs_transport by reflexivity.
  rewrite formatComma_transport, !formatWithSpaces_transport,
    formatQuerySeparator_transport.
  unfold Formatter.formatWithoutSpaces. rewrite show_transport.
  repeat case_match; reflexivity.
Qed.

Lemma formatToken_transport f i t q :
  Formatter.formatToken d (transport f) i (onToken t) q
  = onFormatter transport (Formatter.formatToken d f i t q).
Proof.
  unfold Formatter.formatToken.
  change (Formatter.setIndex (transport f) i) with (transport (Formatter.setIndex f i)).
  rewrite hook.
  generalize (Formatter.setIndex f i); intros g.
  generalize (Formatter.tokenOverride d g t); intros tok.
  rewrite onToken_type.
  rewrite formatTopLevelReservedWord_transport,
    formatTopLevelReservedWordNoIndent_transport,
    formatNewlineReservedWord_transport, formatWithSpaces_transport,
    formatClosingParentheses_transport, formatByValue_transport.
  unfold Formatter.formatLineComment, Formatter.formatBlockComment,
    Formatter.indentComment.
  rewrite show_transport.
  destruct (type tok) eqn:Hty; try reflexivity.
  - rewrite formatOpeningParentheses_transport by done.
    by destruct (Formatter.formatOpeningParentheses g tok q).
  - by destruct (Formatter.formatClosingParentheses g tok q).
  - by rewrite onToken_value by (by rewrite Hty).
  - by apply formatPlaceholder_transport.
Qed.

Lemma forEachToken_transport ts f i q :
  Formatter.forEachToken d (transport f) i (onToken <$> ts) q
  = onFormatter transport (Formatter.forEachToken d f i ts q).
Proof.
  revert f i q. induction ts as [|t ts IH]; intros f i q; simpl; [done|].
  rewrite formatToken_transport.
  destruct (Formatter.formatToken d f i t q) as [[f' q']|e]; simpl; [|done].
  apply IH.
Qed.

End Transport.

(** [format] without the steps the final [trim] undoes. *)
Lemma format_unfold d f query :
  Formatter.format d f query
  = (toks ← Tokenizer.tokenize (Formatter.tokenizer d) query;
     r ← Formatter.forEachToken d (Formatter.setTokens f toks) 0 toks [];
     Ok (trim r.2)).
Proof.
  unfold Formatter.format, Formatter.getFormattedQueryFromTokens.
  destruct (Tokenizer.tokenize _ query) as [toks|e]; simpl; [|done].
  destruct (Formatter.forEachToken _ _ _ _ _) as [[f' q]|e]; simpl; [|done].
  f_equal. case_match.
  - rewrite trim_app_whitespace; [apply trim_trimEnd|].
    by repeat constructor.
  - apply trim_trimEnd.
Qed.

Lemma transport_flagged b f : transport (withTrailingNewline b) id f = flagged b f.
Proof.
  unfold transport, flagged. by rewrite option_fmap_id, list_fmap_id.
Qed.

Lemma forEachToken_flagged d b ts f i q :
  hookIgnoresTrailingNewline d ->
  Formatter.forEachToken d (flagged b f) i ts q
  = onFormatter (flagged b) (Formatter.forEachToken d f i ts q).
Proof.
  intros Hd.
  pose proof (forEachToken_transport d (withTrailingNewline b) id) as H.
  rewrite <- transport_flagged, <- (list_fmap_id ts) at 1.
  rewrite H; try done.
  - destruct (Formatter.forEachToken d f i ts q) as [[f' q']|e]; simpl; [|done].
    by rewrite transport_flagged.
  - intros f0 t. rewrite transport_flagged. apply Hd.
Qed.

(** C10: the string [format] returns never ends with a newline, and the
    [trailingNewline] flag of the options does not change it. *)
Theorem trailingNewline_has_no_effect d cfg b query out :
  hookIgnoresTrailingNewline d ->
  Formatter.format d (Formatter.new cfg) query = Ok out ->
  endsWith LF out = false
  /\ Formatter.format d (Formatter.new (withTrailingNewline b cfg)) query = Ok out.
Proof.
  intros Hd H. split.
  - apply format_is_trimmed in H as [s ->].
    apply noTrailing_not_endsWith, trim_noTrailing.
  - rewrite format_unfold in *.
    destruct (Tokenizer.tokenize _ query) as [toks|e]; simpl in *; [|done].
    change (Formatter.setTokens (Formatter.new (withTrailingNewline b cfg)) toks)
      with (flagged b (Formatter.setTokens (Formatter.new cfg) toks)).
    rewrite forEachToken_flagged by done.
    by destruct (Formatter.forEachToken _ _ _ _ _) as [[f' q]|e].
Qed.

Lemma trailingNewline_has_no_effect_witness :
  hookIgnoresTrailingNewline SampleDialect.dialect
  /\ Formatter.format SampleDialect.dialect (Formatter.new sampleWithTrailingNewline)
       "select 1;" = Ok (list_ascii_of_string "SELECT
  1;")
  /\ endsWith LF (list_ascii_of_string "SELECT
  1;") = false
  /\ Formatter.format SampleDialect.dialect
       (Formatter.new (withTrailingNewline false sampleWithTrailingNewline))
       "select 1;" = Ok (list_ascii_of_string "SELECT
  1;").
Proof.
  assert (Hd : hookIgnoresTrailingNewline SampleDialect.dialect)
    by (intros b f token; reflexivity).
  assert (Hf : Formatter.format SampleDialect.dialect
                 (Formatter.new sampleWithTrailingNewline) "select 1;"
               = Ok (list_ascii_of_string "SELECT
  1;")) by (vm_compute; reflexivity).
  split; [exact Hd|]. split; [exact Hf|].
  exact (trailingNewline_has_no_effect SampleDialect.dialect
           sampleWithTrailingNewline false "select 1;" _ Hd Hf).
Defined.

(** ** The rules of the dispatch *)

Lemma dispatchedByType_cased ty :
  Formatter.dispatchedByType ty = false -> Formatter.isCased ty = false.
Proof. by destruct ty. Qed.

Lemma show_not_cased f token :
  Formatter.isCased (type token) = false -> Formatter.show f token = value token.
Proof. unfold Formatter.show. by intros ->. Qed.

Lemma addNewline_shape f q :
  Formatter.addNewline f q
  = trimSpacesEnd q
    ++ (if endsWith LF (trimSpacesEnd q) then [] else [LF])
    ++ Indentation.getIndent (Formatter.indentation f).
Proof.
  unfold Formatter.addNewline. case_match; [done|]. by rewrite <- app_assoc.
Qed.

Lemma formatToken_by_value d f i token0 q :
  let g := Formatter.setIndex f i in
  let token := Formatter.tokenOverride d g token0 in
  Formatter.dispatchedByType (type token) = false ->
  Formatter.formatToken d f i token0 q = Formatter.formatByValue g token q.
Proof.
  intros g token. unfold Formatter.formatToken. fold g. fold token.
  by destruct (type token).
Qed.

(** The casing of a keyword matched in any letter case. *)
Lemma show_keyword f token (kw : string) :
  Formatter.isCased (type token) = true ->
  eqIgnoreCase (value token) kw = true ->
  Formatter.show f token
  = if FormatOptions.uppercase (Formatter.cfg f)
    then toUpperCase (list_ascii_of_string kw)
    else toLowerCase (list_ascii_of_string kw).
Proof.
  unfold Formatter.show, eqIgnoreCase. intros -> E%bool_decide_eq_true.
  case_match; [done|].
  by rewrite <- (toLowerCase_toUpperCase (value token)), E, toLowerCase_toUpperCase.
Qed.

Lemma trimSpacesEnd_emitted q (c : ascii) :
  isSpace c = false ->
  trimSpacesEnd (trimSpacesEnd q ++ [c] ++ [SPACE]) = trimSpacesEnd q ++ [c].
Proof.
  intros Hc. unfold trimSpacesEnd. rewrite app_assoc.
  rewrite dropEnd_app_all by (by repeat constructor).
  by apply dropEnd_snoc_keep.
Qed.

(** C7: a comma is emitted after the output with its trailing spaces
    trimmed, followed by a space; a newline and the indent follow, unless an
    inline block is active or the last reserved token is LIMIT. *)
Theorem formatToken_comma d f i token0 q :
  let g := Formatter.setIndex f i in
  let token := Formatter.tokenOverride d g token0 in
  Formatter.dispatchedByType (type token) = false ->
  value token = [","%char] ->
  Formatter.formatToken d f i token0 q
  = Ok (g,
        if InlineBlock.isActive (Formatter.inlineBlock f)
           || isLimit (Formatter.previousReservedToken f)
        then trimSpacesEnd q ++ [","%char] ++ [SPACE]
        else Formatter.addNewline g (trimSpacesEnd q ++ [","%char] ++ [SPACE]))
  /\ Formatter.addNewline g (trimSpacesEnd q ++ [","%char] ++ [SPACE])
     = trimSpacesEnd q ++ [","%char] ++ [LF]
       ++ Indentation.getIndent (Formatter.indentation f).
Proof.
  intros g token Hty Hv. split.
  - rewrite formatToken_by_value by done. fold g; fold token.
    unfold Formatter.formatByValue, Formatter.valueIs.
    rewrite bool_decide_eq_true_2 by done.
    unfold Formatter.formatComma.
    rewrite show_not_cased by (by apply dispatchedByType_cased).
    rewrite Hv. simpl Formatter.inlineBlock. simpl Formatter.previousReservedToken.
    by repeat case_match.
  - rewrite addNewline_shape, trimSpacesEnd_emitted by done.
    rewrite endsWith_snoc. simpl. by rewrite <- !app_assoc.
Qed.

(** C3, as amended: at a token [;] the formatter resets the indentation
    stack, trims the trailing spaces of the output, emits [;] and appends
    [linesBetweenQueries] newlines, and one newline when [linesBetweenQueries]
    is 0. *)
Theorem formatToken_query_separator d f i token0 q :
  let g := Formatter.setIndex f i in
  let token := Formatter.tokenOverride d g token0 in
  let n := FormatOptions.linesBetweenQueries (Formatter.cfg f) in
  Formatter.dispatchedByType (type token) = false ->
  value token = [";"%char] ->
  0 <= n ->
  exists g',
    Formatter.formatToken d f i token0 q
    = Ok (g', trimSpacesEnd q ++ [";"%char]
              ++ replicate (if n =? 0 then 1%nat else Z.to_nat n) LF)
    /\ Indentation.frames (Formatter.indentation g') = []
    /\ Indentation.getIndent (Formatter.indentation g') = [].
Proof.
  intros g token n Hty Hv Hn.
  rewrite formatToken_by_value by done. fold g; fold token.
  unfold Formatter.formatByValue, Formatter.valueIs.
  rewrite Hv; simpl.
  unfold Formatter.formatQuerySeparator, Formatter.linesBetweenQueriesOr1,
    JsString.repeat.
  rewrite show_not_cased by (by apply dispatchedByType_cased).
  rewrite Hv. simpl Formatter.cfg. fold n.
  assert (E : forall k, concat (replicate k [LF]) = replicate k LF).
  { induction k as [|k IH]; simpl; [done | by rewrite IH]. }
  destruct (n =? 0) eqn:En; simpl.
  - eexists. split; [reflexivity | done].
  - destruct (n <? 0) eqn:Eneg; [lia|]. simpl. rewrite E.
    eexists. split; [reflexivity | done].
Qed.

(** C3 as stated fails: with [linesBetweenQueries] 0 the formatter appends one
    newline after [;], through the [|| 1] of [formatQuerySeparator]. *)
Lemma query_separator_zero_lines_counterexample :
  let cfg := SqlFormatter.withLinesBetweenQueries 0 SqlFormatter.noOptions in
  let f := SampleDialect.formatter "a ; b" cfg in
  let semicolon := mkToken PUNCTUATION ";" (Some [SPACE]) None in
  FormatOptions.linesBetweenQueries (Formatter.cfg f) = 0
  /\ SampleDialect.tokens "a ; b" !! 1%nat = Some semicolon
  /\ (exists g, Formatter.formatToken SampleDialect.dialect f 1 semicolon "a "
                = Ok (g, list_ascii_of_string "a;" ++ [LF]))
  /\ list_ascii_of_string "a;" ++ [LF]
     <> trimSpacesEnd "a " ++ [";"%char] ++ replicate (Z.to_nat 0) LF
  /\ SampleDialect.format "a ; b" cfg = Ok "a;
b".
Proof.
  repeat split; try (vm_compute; reflexivity).
  - eexists; vm_compute; reflexivity.
  - vm_compute; discriminate.
Qed.

Lemma formatToken_query_separator_witness :
  let cfg := SqlFormatter.withLinesBetweenQueries 2 SqlFormatter.noOptions in
  let f := SampleDialect.formatter "a ; b" cfg in
  let semicolon := mkToken PUNCTUATION ";" (Some [SPACE]) None in
  Formatter.dispatchedByType PUNCTUATION = false
  /\ 0 <= 2
  /\ exists g,
       Formatter.formatToken SampleDialect.dialect f 1 semicolon "a "
       = Ok (g, list_ascii_of_string "a;" ++ [LF; LF])
       /\ Indentation.frames (Formatter.indentation g) = []
       /\ Indentation.getIndent (Formatter.indentation g) = [].
Proof.
  intros cfg f semicolon.
  split; [reflexivity|]. split; [lia|].
  apply (formatToken_query_separator SampleDialect.dialect f 1 semicolon "a ");
    [reflexivity | reflexivity | vm_compute; discriminate].
Defined.

Lemma formatToken_comma_witness :
  let f := SampleDialect.formatter "a , b" SqlFormatter.noOptions in
  let comma := mkToken PUNCTUATION "," (Some [SPACE]) None in
  Formatter.dispatchedByType (type comma) = false
  /\ value comma = [","%char]
  /\ Formatter.formatToken SampleDialect.dialect f 1 comma "a "
     = Ok (Formatter.setIndex f 1, list_ascii_of_string "a," ++ [LF]).
Proof.
  intros f comma. split; [reflexivity|]. split; [reflexivity|].
  destruct (formatToken_comma SampleDialect.dialect f 1 comma "a " eq_refl eq_refl)
    as [E _].
  exact E.
Defined.

(** ** The options [format] resolves *)

(** What [format] resolves when it does not throw. *)
Lemma resolveOptions_Ok L cfg resolved :
  SqlFormatter.returned (SqlFormatter.resolveOptions L cfg) = Ok resolved ->
  exists newline',
    SqlFormatter.checkNewline (SqlFormatter.newline cfg) = Ok newline'
    /\ FormatOptions.newline resolved
       = default (NewlineIs NewlineMode.always) newline'
    /\ FormatOptions.lineWidth resolved
       = SqlFormatter.spread 50
           (SqlFormatter.checkLineWidth (SqlFormatter.lineWidth cfg)).2
    /\ SqlFormatter.warnings (SqlFormatter.resolveOptions L cfg)
       = (SqlFormatter.checkLineWidth (SqlFormatter.lineWidth cfg)).1.
Proof.
  unfold SqlFormatter.resolveOptions.
  destruct (match SqlFormatter.language cfg with Some _ => _ | None => _ end);
    [done|].
  destruct (SqlFormatter.checkNewline _) as [newline'|e]; [|done].
  destruct (SqlFormatter.checkLineWidth _) as [warned lineWidth'].
  simpl. intros [= <-]. by exists newline'.
Qed.

(** C4, the defect: the number 0 for [newline] is falsy, so the check that
    would replace it by [always] is not entered, and the formatter is
    constructed with [newline] 0. *)
Theorem newline_zero_not_normalized L cfg :
  SqlFormatter.newline cfg = Some (NewlineNumber 0) ->
  SqlFormatter.checkNewline (SqlFormatter.newline cfg) = Ok (Some (NewlineNumber 0))
  /\ forall resolved,
       SqlFormatter.returned (SqlFormatter.resolveOptions L cfg) = Ok resolved ->
       FormatOptions.newline resolved = NewlineNumber 0
       /\ FormatOptions.newline resolved <> NewlineIs NewlineMode.always.
Proof.
  intros E. split; [by rewrite E|].
  intros resolved (newline' & Hn & -> & _)%resolveOptions_Ok.
  rewrite E in Hn. injection Hn as <-. done.
Qed.

Lemma newline_zero_not_normalized_witness :
  let cfg := SqlFormatter.withNewline (NewlineNumber 0) SqlFormatter.noOptions in
  SqlFormatter.newline cfg = Some (NewlineNumber 0)
  /\ SqlFormatter.returned (SqlFormatter.resolveOptions SampleDialect.languages cfg)
     = Ok (SampleDialect.options cfg)
  /\ FormatOptions.newline (SampleDialect.options cfg) = NewlineNumber 0
  /\ FormatOptions.newline (SampleDialect.options cfg) <> NewlineIs NewlineMode.always.
Proof.
  intros cfg. split; [reflexivity|]. split; [reflexivity|].
  apply (newline_zero_not_normalized SampleDialect.languages cfg eq_refl).
  reflexivity.
Defined.

(** The part of C4 the code does: a negative [newline] makes [format] throw
    before the query is tokenized, whichever the query and the dialects. *)
Lemma negative_newline_throws L query cfg n :
  SqlFormatter.newline cfg = Some (NewlineNumber n) -> n < 0 ->
  exists e, SqlFormatter.format L query cfg
            = {| SqlFormatter.warnings := []; SqlFormatter.returned := Throw e |}
            /\ (e = InvalidNewline \/ exists l, e = UnsupportedDialect l).
Proof.
  intros E Hn. unfold SqlFormatter.format, SqlFormatter.resolveOptions.
  rewrite E. unfold SqlFormatter.checkNewline. simpl.
  replace (n =? 0) with false by lia. replace (n <? 0) with true by lia. simpl.
  case_match; simpl; eauto.
Qed.

(** C5, the defect: a [lineWidth] of 0 is falsy, so it is kept and nothing is
    warned; a negative [lineWidth] is warned about and set to undefined, and
    the undefined property then overrides the default 50 in the merge. *)
Theorem nonpositive_lineWidth_not_reset L cfg w resolved :
  SqlFormatter.lineWidth cfg = Some w -> w <= 0 ->
  SqlFormatter.returned (SqlFormatter.resolveOptions L cfg) = Ok resolved ->
  FormatOptions.lineWidth resolved <> Some 50
  /\ (w = 0 ->
      FormatOptions.lineWidth resolved = Some 0
      /\ SqlFormatter.warnings (SqlFormatter.resolveOptions L cfg) = [])
  /\ (w < 0 ->
      FormatOptions.lineWidth resolved = None
      /\ SqlFormatter.warnings (SqlFormatter.resolveOptions L cfg)
         = [SqlFormatter.lineWidthWarning]).
Proof.
  intros E Hw (newline' & _ & _ & -> & ->)%resolveOptions_Ok.
  rewrite E. unfold SqlFormatter.checkLineWidth.
  destruct (w =? 0) eqn:E0; simpl.
  - assert (w = 0) as -> by lia. repeat split; try done; lia.
  - replace (w <=? 0) with true by lia. simpl. repeat split; try done; lia.
Qed.

Lemma nonpositive_lineWidth_not_reset_witness :
  let cfg := SqlFormatter.withLineWidth (-1) SqlFormatter.noOptions in
  SqlFormatter.lineWidth cfg = Some (-1)
  /\ -1 <= 0
  /\ SqlFormatter.returned (SqlFormatter.resolveOptions SampleDialect.languages cfg)
     = Ok (SampleDialect.options cfg)
  /\ FormatOptions.lineWidth (SampleDialect.options cfg) <> Some 50.
Proof.
  intros cfg. split; [reflexivity|]. split; [lia|]. split; [reflexivity|].
  apply (nonpositive_lineWidth_not_reset SampleDialect.languages cfg (-1)
           (SampleDialect.options cfg) eq_refl); [lia | reflexivity].
Defined.

(** The part of C5 the code does: the warning about [lineWidth] is the only
    one [format] writes. *)
Lemma format_warnings L query cfg :
  SqlFormatter.warnings (SqlFormatter.format L query cfg) = []
  \/ SqlFormatter.warnings (SqlFormatter.format L query cfg)
     = [SqlFormatter.lineWidthWarning].
Proof.
  unfold SqlFormatter.format, SqlFormatter.resolveOptions,
    SqlFormatter.checkLineWidth. simpl.
  repeat case_match; simplify_eq/=; auto.
Qed.

(** ** Idempotence *)

Lemma emptyWhitespaceBefore_normalized t :
  type t = OPEN_PAREN ->
  emptyWhitespaceBefore (normalized t) = emptyWhitespaceBefore t.
Proof.
  intros Hty. unfold normalized. rewrite Hty.
  by destruct (emptyWhitespaceBefore t) eqn:E.
Qed.

Lemma value_normalized t :
  Formatter.isCased (type t) = false -> value (normalized t) = value t.
Proof. intros Hty. unfold normalized. simpl. by rewrite Hty. Qed.

Lemma case_normalized t : toUpperCase (value (normalized t)) = toUpperCase (value t).
Proof.
  unfold normalized. simpl. case_match; [apply toUpperCase_idemp | done].
Qed.

Lemma forEachToken_normalized d cfg toks :
  hookIgnoresWhitespace d ->
  Formatter.forEachToken d (Formatter.setTokens (Formatter.new cfg) (normalized <$> toks))
    0 (normalized <$> toks) []
  = onFormatter (transport id normalized)
      (Formatter.forEachToken d (Formatter.setTokens (Formatter.new cfg) toks) 0 toks []).
Proof.
  intros Hd.
  rewrite <- (forEachToken_transport d id normalized);
    auto using emptyWhitespaceBefore_normalized, value_normalized, case_normalized.
Qed.

(** The formatted query depends on the tokens as normalized. *)
Lemma format_tokens_normalized d cfg toks toks' :
  hookIgnoresWhitespace d ->
  normalized <$> toks' = normalized <$> toks ->
  (r ← Formatter.forEachToken d (Formatter.setTokens (Formatter.new cfg) toks') 0 toks' [];
   Ok (trim r.2))
  = (r ← Formatter.forEachToken d (Formatter.setTokens (Formatter.new cfg) toks) 0 toks [];
     Ok (trim r.2)).
Proof.
  intros Hd E.
  pose proof (forEachToken_normalized d cfg toks Hd) as H.
  pose proof (forEachToken_normalized d cfg toks' Hd) as H'.
  rewrite E, H in H'.
  destruct (Formatter.forEachToken d _ 0 toks' []) as [[f1 q1]|e1],
           (Formatter.forEachToken d _ 0 toks []) as [[f2 q2]|e2];
    simpl in *; by simplify_eq.
Qed.

(** ** The tokenizer *)

Lemma takeStart_dropStart p (s : str) :
  Tokenizer.takeStart p s ++ dropStart p s = s.
Proof. induction s as [|c s IH]; simpl; [done|]. case_match; simpl; congruence. Qed.

Lemma takeStart_allIn p (s : str) : allIn p (Tokenizer.takeStart p s).
Proof.
  induction s as [|c s IH]; simpl; [constructor|].
  destruct (p c) eqn:E; by constructor.
Qed.

Lemma dropStart_length p (s : str) : (length (dropStart p s) <= length s)%nat.
Proof. induction s as [|c s IH]; simpl; [done|]. case_match; simpl; lia. Qed.

(** The length of the input is fuel enough: more fuel gives the same tokens
    or the same failure. *)
Lemma tokenizeFrom_fuel tk fuel fuel' offset input :
  (length input <= fuel)%nat -> (length input <= fuel')%nat ->
  Tokenizer.tokenizeFrom tk fuel offset input
  = Tokenizer.tokenizeFrom tk fuel' offset input.
Proof.
  revert fuel' offset input.
  induction fuel as [|fuel IH]; intros fuel' offset input Hf Hf'.
  - destruct input; [|simpl in Hf; lia]. by destruct fuel'.
  - pose proof (dropStart_length isWhitespace input) as Hlen.
    destruct fuel' as [|fuel']; simpl.
    + destruct input; [done | simpl in Hf'; lia].
    + destruct (dropStart isWhitespace input) as [|c rest] eqn:Er; [done|].
      destruct (Tokenizer.firstMatch _ _) as [[ty [|n]]|]; try done.
      simpl in Hlen. simpl.
      rewrite (IH fuel'); [done | |]; rewrite length_drop; lia.
Qed.

(** The tokens and the whitespace before them make up the input, but for the
    whitespace at its end. *)
Lemma tokenizeFrom_covers tk fuel offset input toks :
  Tokenizer.tokenizeFrom tk fuel offset input = Ok toks ->
  exists rest,
    input = concat ((fun t => default [] (whitespaceBefore t) ++ value t) <$> toks)
            ++ rest
    /\ allIn isWhitespace rest
    /\ Forall (fun t => exists ws, whitespaceBefore t = Some ws
                                   /\ allIn isWhitespace ws) toks.
Proof.
  revert offset input toks.
  induction fuel as [|fuel IH]; intros offset input toks; simpl;
    pose proof (takeStart_dropStart isWhitespace input) as Hsplit;
    pose proof (takeStart_allIn isWhitespace input) as Hws;
    destruct (dropStart isWhitespace input) as [|c rest] eqn:Er; try done.
  - intros [= <-]. exists input. rewrite app_nil_r in Hsplit.
    split; [done|]. split; [by rewrite <- Hsplit | constructor].
  - intros [= <-]. exists input. rewrite app_nil_r in Hsplit.
    split; [done|]. split; [by rewrite <- Hsplit | constructor].
  - destruct (Tokenizer.firstMatch _ _) as [[ty [|n]]|]; try done.
    intros H. apply bind_Ok in H as [toks0 [H0 [= <-]]].
    apply IH in H0 as (rest' & E & Hrest & Hall).
    exists rest'. split; [|split; [done|]].
    + simpl. rewrite <- Hsplit at 1. rewrite <- !app_assoc. do 2 f_equal.
      change (list_fmap Token str ?g toks0) with (g <$> toks0).
      rewrite <- E. simpl. by rewrite take_drop.
    + constructor; [|done]. by eexists.
Qed.

(** ** Content *)

Section ContentFacts.

Implicit Types (s t : str).

Lemma allIn_app p s t : allIn p s -> allIn p t -> allIn p (s ++ t).
Proof. apply Forall_app_2. Qed.

Lemma allIn_concat_replicate p n (s : str) :
  allIn p s -> allIn p (concat (replicate n s)).
Proof.
  intros Hs. induction n as [|n IH]; simpl; [constructor|]. by apply Forall_app.
Qed.

Lemma stripWhitespace_app s t :
  stripWhitespace (s ++ t) = stripWhitespace s ++ stripWhitespace t.
Proof. apply List.filter_app. Qed.

Lemma stripWhitespace_all s : allIn isWhitespace s -> stripWhitespace s = [].
Proof.
  induction 1 as [|c s Hc _ IH]; simpl; [done|]. by rewrite Hc.
Qed.

Lemma stripWhitespace_dropEnd p s :
  (forall c, p c = true -> isWhitespace c = true) ->
  stripWhitespace (dropEnd p s) = stripWhitespace s.
Proof.
  intros Hp. destruct (dropEnd_split p s) as [t [E Ht]].
  rewrite E at 2.
  rewrite stripWhitespace_app, (stripWhitespace_all t), app_nil_r; [done|].
  eapply Forall_impl; [exact Ht | done].
Qed.

Lemma stripWhitespace_dropStart s :
  stripWhitespace (dropStart isWhitespace s) = stripWhitespace s.
Proof.
  rewrite <- (takeStart_dropStart isWhitespace s) at 2.
  rewrite stripWhitespace_app.
  by rewrite (stripWhitespace_all (Tokenizer.takeStart _ _)) by apply takeStart_allIn.
Qed.

Lemma isSpace_isWhitespace c : isSpace c = true -> isWhitespace c = true.
Proof. unfold isSpace. by intros ->%Ascii.eqb_eq. Qed.

Lemma isSpaceOrTab_isWhitespace c : isSpaceOrTab c = true -> isWhitespace c = true.
Proof.
  unfold isSpaceOrTab.
  by intros [->%Ascii.eqb_eq | ->%Ascii.eqb_eq]%orb_true_iff.
Qed.

Lemma stripWhitespace_trimSpacesEnd s :
  stripWhitespace (trimSpacesEnd s) = stripWhitespace s.
Proof. apply stripWhitespace_dropEnd, isSpace_isWhitespace. Qed.

Lemma stripWhitespace_trim s : stripWhitespace (trim s) = stripWhitespace s.
Proof.
  unfold trim, trimEnd, trimStart.
  by rewrite stripWhitespace_dropEnd, stripWhitespace_dropStart.
Qed.

Lemma isWhitespace_toUpperChar c : isWhitespace (toUpperChar c) = isWhitespace c.
Proof. by destruct c as [[] [] [] [] [] [] [] []]. Qed.

Lemma isWhitespace_toLowerChar c : isWhitespace (toLowerChar c) = isWhitespace c.
Proof. by destruct c as [[] [] [] [] [] [] [] []]. Qed.

Lemma toLowerChar_idemp c : toLowerChar (toLowerChar c) = toLowerChar c.
Proof. by destruct c as [[] [] [] [] [] [] [] []]. Qed.

Lemma stripWhitespace_replaceWhitespaceRuns b s :
  stripWhitespace (replaceWhitespaceRuns b s) = stripWhitespace s.
Proof.
  revert b. induction s as [|c s IH]; intros b; simpl; [done|].
  destruct (isWhitespace c) eqn:Ec; simpl.
  - destruct b; simpl; apply IH.
  - by rewrite Ec, IH.
Qed.

Lemma stripWhitespace_replaceLineStarts by_ b s :
  allIn isWhitespace by_ ->
  stripWhitespace (replaceLineStarts by_ b s) = stripWhitespace s.
Proof.
  intros Hby. revert b.
  induction s as [|c s IH]; intros b; simpl; [done|].
  destruct (Ascii.eqb_spec c LF) as [->|Hc].
  - by rewrite stripWhitespace_app, (stripWhitespace_all by_), IH.
  - destruct (isSpaceOrTab c) eqn:Est.
    + apply isSpaceOrTab_isWhitespace in Est as Hws.
      destruct b; simpl; rewrite IH, ?Hws; done.
    + rewrite andb_false_r. simpl. by rewrite IH.
Qed.

End ContentFacts.

(** ** Content preservation *)

Section ContentPreserved.

Variable d : Formatter.Dialect.

Lemma indent_decreaseTopLevel i :
  Indentation.indent (Indentation.decreaseTopLevel i) = Indentation.indent i.
Proof. unfold Indentation.decreaseTopLevel. by repeat case_match. Qed.

Lemma stripWhitespace_getIndent i :
  allIn isWhitespace (Indentation.indent i) ->
  stripWhitespace (Indentation.getIndent i) = [].
Proof. intros H. by apply stripWhitespace_all, allIn_concat_replicate. Qed.

Lemma stripWhitespace_addNewline f q :
  indentIsWhitespace f ->
  stripWhitespace (Formatter.addNewline f q) = stripWhitespace q.
Proof.
  intros H.
  rewrite addNewline_shape, !stripWhitespace_app, stripWhitespace_getIndent by done.
  rewrite stripWhitespace_trimSpacesEnd. by case_match; rewrite !app_nil_r.
Qed.

Lemma stripWhitespace_formatWithSpaces f t q p :
  stripWhitespace (Formatter.formatWithSpaces f t q p)
  = stripWhitespace q ++ stripWhitespace (Formatter.show f t).
Proof.
  unfold Formatter.formatWithSpaces.
  rewrite !stripWhitespace_app.
  destruct p; rewrite ?stripWhitespace_trimSpacesEnd; simpl; by rewrite ?app_nil_r.
Qed.

Lemma stripWhitespace_indentComment f s :
  indentIsWhitespace f ->
  stripWhitespace (Formatter.indentComment f s) = stripWhitespace s.
Proof.
  intros H. apply stripWhitespace_replaceLineStarts.
  apply allIn_app; [by repeat constructor|].
  apply allIn_app; [by apply allIn_concat_replicate | by repeat constructor].
Qed.

Ltac strip :=
  repeat first
    [ rewrite stripWhitespace_app
    | rewrite stripWhitespace_addNewline
        by (unfold indentIsWhitespace; simpl; rewrite ?indent_decreaseTopLevel;
            assumption)
    | rewrite stripWhitespace_indentComment by assumption
    | rewrite stripWhitespace_formatWithSpaces
    | rewrite stripWhitespace_trimSpacesEnd
    | rewrite stripWhitespace_replaceWhitespaceRuns ];
  rewrite ?app_nil_r.

Lemma formatByValue_strip f t q f' q' :
  indentIsWhitespace f ->
  Formatter.formatByValue f t q = Ok (f', q') ->
  indentIsWhitespace f'
  /\ stripWhitespace q' = stripWhitespace q ++ stripWhitespace (Formatter.show f t).
Proof.
  intros Hi. unfold Formatter.formatByValue, Formatter.formatComma,
    Formatter.formatWithoutSpaces, Formatter.formatQuerySeparator.
  repeat case_match; intros Hres; inv_bind Hres; simplify_eq/=;
    (split; [done|]); unfold Formatter.equalizeWhitespace; strip;
    try done.
  match goal with E : JsString.repeat _ _ = Ok _ |- _ =>
    unfold JsString.repeat in E; case_match; simplify_eq end.
  rewrite (stripWhitespace_all (concat _)); [by rewrite app_nil_r|].
  apply allIn_concat_replicate. by repeat constructor.
Qed.

(** A token adds to the output, whitespace aside, the characters [show]
    renders it with. *)
Lemma formatToken_strip f i t q f' q' :
  let g := Formatter.setIndex f i in
  let token := Formatter.tokenOverride d g t in
  indentIsWhitespace f ->
  Params.params (Formatter.params f) = NoParams ->
  Formatter.formatToken d f i t q = Ok (f', q') ->
  indentIsWhitespace f'
  /\ stripWhitespace q'
     = stripWhitespace q ++ stripWhitespace (Formatter.show g token).
Proof.
  intros g token Hi Hp. unfold Formatter.formatToken. fold g. fold token.
  generalize token; clear token; intros tok.
  assert (Hg : indentIsWhitespace g) by done.
  destruct (type tok) eqn:Hty;
    try (by apply formatByValue_strip);
    unfold Formatter.formatLineComment, Formatter.formatBlockComment,
      Formatter.formatTopLevelReservedWord,
      Formatter.formatTopLevelReservedWordNoIndent,
      Formatter.formatNewlineReservedWord,
      Formatter.formatOpeningParentheses, Formatter.formatClosingParentheses,
      Formatter.formatPlaceholder, Formatter.equalizeWhitespace;
    simpl Formatter.params; simpl Formatter.inlineBlock.
  all: try (intros [= <- <-]; split;
            [unfold indentIsWhitespace; simpl; rewrite ?indent_decreaseTopLevel; done
            | simpl; strip; done]).
  - (* RESERVED_NEWLINE *)
    intros [= <- <-]. split; [done|]. case_match; strip; done.
  - (* OPEN_PAREN *)
    repeat case_match; intros [= <- <-]; (split; [done|]); strip; done.
  - (* CLOSE_PAREN *)
    case_match; intros [= <- <-]; (split; [done|]); strip; done.
  - (* BLOCK_COMMENT *)
    intros [= <- <-]. split; [done|].
    rewrite show_not_cased by (by rewrite Hty). strip. done.
  - (* PLACEHOLDER *)
    unfold Params.get. rewrite Hp. simpl. intros [= <- <-]. split; [done|].
    rewrite show_not_cased by (by rewrite Hty). strip. done.
Qed.

Lemma show_cfg f g t :
  Formatter.cfg f = Formatter.cfg g -> Formatter.show f t = Formatter.show g t.
Proof. unfold Formatter.show. by intros ->. Qed.

Lemma formatToken_cfg f i t q f' q' :
  Formatter.formatToken d f i t q = Ok (f', q') ->
  Formatter.cfg f' = Formatter.cfg f.
Proof.
  unfold Formatter.formatToken.
  generalize (Formatter.tokenOverride d (Formatter.setIndex f i) t); intros token.
  destruct (type token) eqn:Hty;
    unfold Formatter.formatByValue, Formatter.formatQuerySeparator,
      Formatter.formatPlaceholder, Formatter.formatTopLevelReservedWord,
      Formatter.formatTopLevelReservedWordNoIndent,
      Formatter.formatOpeningParentheses, Formatter.formatClosingParentheses;
    repeat case_match; intros Hres; inv_bind Hres; by simplify_eq/=.
Qed.

Lemma formatToken_params f i t q f' q' :
  Params.params (Formatter.params f) = NoParams ->
  Formatter.formatToken d f i t q = Ok (f', q') ->
  Params.params (Formatter.params f') = NoParams.
Proof.
  intros Hp. unfold Formatter.formatToken.
  generalize (Formatter.tokenOverride d (Formatter.setIndex f i) t); intros token.
  destruct (type token) eqn:Hty;
    unfold Formatter.formatByValue, Formatter.formatQuerySeparator,
      Formatter.formatPlaceholder, Formatter.formatTopLevelReservedWord,
      Formatter.formatTopLevelReservedWordNoIndent,
      Formatter.formatOpeningParentheses, Formatter.formatClosingParentheses,
      Params.get;
    simpl Formatter.params; rewrite ?Hp;
    repeat case_match; intros Hres; inv_bind Hres; by simplify_eq/=.
Qed.

Lemma forEachToken_strip ts f i q f' q' :
  indentIsWhitespace f ->
  Params.params (Formatter.params f) = NoParams ->
  Formatter.forEachToken d f i ts q = Ok (f', q') ->
  stripWhitespace q'
  = stripWhitespace q
    ++ stripWhitespace (concat (Formatter.show f <$> overriddenTokens d f i ts q)).
Proof.
  revert f i q. induction ts as [|t ts IH]; intros f i q Hf Hp; simpl.
  - intros [= <- <-]. by rewrite app_nil_r.
  - intros H. apply bind_Ok in H as [[f1 q1] [H1 H]]. rewrite H1.
    pose proof (formatToken_params _ _ _ _ _ _ Hp H1) as Hp1.
    pose proof (formatToken_cfg _ _ _ _ _ _ H1) as Hcfg.
    apply formatToken_strip in H1 as [Hf1 E1]; [|done..].
    apply IH in H; [|done..].
    rewrite H, E1, stripWhitespace_app, <- app_assoc. do 2 f_equal.
    do 2 f_equal. apply list_fmap_ext. intros _ t' _. by apply show_cfg.
Qed.

Lemma overriddenTokens_values ts f i q f' q' :
  hookKeepsValue d ->
  Formatter.forEachToken d f i ts q = Ok (f', q') ->
  Forall2 (fun t t' => value t' = value t) ts (overriddenTokens d f i ts q).
Proof.
  intros Hd. revert f i q. induction ts as [|t ts IH]; intros f i q; simpl.
  - constructor.
  - intros H. apply bind_Ok in H as [[f1 q1] [H1 H]]. rewrite H1.
    constructor; [apply Hd | by eapply IH].
Qed.

(** With the hook of the base class, the dispatch gets the tokens of the
    query. *)
Lemma overriddenTokens_base ts f i q f' q' :
  (forall g t, Formatter.tokenOverride d g t = t) ->
  Formatter.forEachToken d f i ts q = Ok (f', q') ->
  overriddenTokens d f i ts q = ts.
Proof.
  intros Hd. revert f i q. induction ts as [|t ts IH]; intros f i q; simpl; [done|].
  intros H. apply bind_Ok in H as [[f1 q1] [H1 H]]. rewrite H1.
  rewrite Hd. f_equal. by eapply IH.
Qed.

End ContentPreserved.

Lemma stripWhitespace_tokens toks :
  Forall (fun t => exists ws, whitespaceBefore t = Some ws
                              /\ allIn isWhitespace ws) toks ->
  stripWhitespace
    (concat ((fun t => default [] (whitespaceBefore t) ++ value t) <$> toks))
  = stripWhitespace (concat (value <$> toks)).
Proof.
  induction 1 as [|t toks [ws [E Hws]] _ IH]; [done|].
  rewrite !fmap_cons, !concat_cons, !stripWhitespace_app, IH, E. simpl.
  by rewrite (stripWhitespace_all ws).
Qed.

Lemma tokenize_strip tk query toks :
  Tokenizer.tokenize tk query = Ok toks ->
  stripWhitespace query = stripWhitespace (concat (value <$> toks)).
Proof.
  intros (rest & E & Hrest & Hall)%tokenizeFrom_covers.
  rewrite E at 1.
  by rewrite stripWhitespace_app, stripWhitespace_tokens,
       (stripWhitespace_all rest), app_nil_r.
Qed.

(** C1, as amended: when no parameters are configured and the indent unit is
    whitespace, the formatted query without its whitespace is the
    concatenation, without its whitespace, of the tokens of the query as
    [show] renders them: the value of a reserved word or a parenthesis in the
    configured letter case, the value of any other token as it is.  The
    values of the tokens, without whitespace, are the query without its
    whitespace; the hook of the dialect keeps them, and the tokens themselves
    when it is the hook of the base class. *)
Theorem format_preserves_content d cfg query out :
  hookKeepsValue d ->
  FormatOptions.params cfg = NoParams ->
  allIn isWhitespace (FormatOptions.indent cfg) ->
  Formatter.format d (Formatter.new cfg) query = Ok out ->
  exists toks,
    Tokenizer.tokenize (Formatter.tokenizer d) query = Ok toks
    /\ stripWhitespace query = stripWhitespace (concat (value <$> toks))
    /\ let shown :=
         overriddenTokens d (Formatter.setTokens (Formatter.new cfg) toks) 0 toks []
       in
       Forall2 (fun t t' => value t' = value t) toks shown
       /\ ((forall g t, Formatter.tokenOverride d g t = t) -> shown = toks)
       /\ stripWhitespace out
          = stripWhitespace (concat (Formatter.show (Formatter.new cfg) <$> shown))
       /\ forall t,
            Formatter.show (Formatter.new cfg) t
            = if bool_decide
                   (type t ∈ [RESERVED; RESERVED_TOP_LEVEL;
                              RESERVED_TOP_LEVEL_NO_INDENT; RESERVED_NEWLINE;
                              OPEN_PAREN; CLOSE_PAREN])
              then (if FormatOptions.uppercase cfg then toUpperCase (value t)
                    else toLowerCase (value t))
              else value t.
Proof.
  intros Hd Hp Hi H. rewrite format_unfold in H.
  apply bind_Ok in H as [toks [Htoks H]].
  apply bind_Ok in H as [[f' q'] [Hrun [= <-]]].
  exists toks. split; [done|]. split; [by eapply tokenize_strip|].
  split; [by eapply overriddenTokens_values|].
  split; [intros Hbase; by eapply overriddenTokens_base|].
  split.
  - rewrite stripWhitespace_trim.
    by apply (forEachToken_strip d toks
                (Formatter.setTokens (Formatter.new cfg) toks) 0 [] f' q').
  - intros t. unfold Formatter.show. simpl. by destruct (type t).
Qed.

Lemma format_preserves_content_witness :
  let query := list_ascii_of_string "select a, 'B c' from t -- Done" in
  let out := list_ascii_of_string "SELECT
  a,
  'B c'
FROM
  t -- Done" in
  let toks := SampleDialect.tokens "select a, 'B c' from t -- Done" in
  hookKeepsValue SampleDialect.dialect
  /\ FormatOptions.params SqlFormatter.defaultOptions = NoParams
  /\ allIn isWhitespace (FormatOptions.indent SqlFormatter.defaultOptions)
  /\ Formatter.format SampleDialect.dialect (Formatter.new SqlFormatter.defaultOptions)
       query = Ok out
  /\ stripWhitespace query = stripWhitespace (concat (value <$> toks))
  /\ stripWhitespace out
     = stripWhitespace
         (concat (Formatter.show (Formatter.new SqlFormatter.defaultOptions) <$> toks))
  /\ stripWhitespace out = list_ascii_of_string "SELECTa,'Bc'FROMt--Done".
Proof.
  intros query out toks.
  assert (Hd : hookKeepsValue SampleDialect.dialect) by (intros f t; reflexivity).
  assert (Hi : allIn isWhitespace (FormatOptions.indent SqlFormatter.defaultOptions))
    by (repeat constructor).
  assert (Hf : Formatter.format SampleDialect.dialect
                 (Formatter.new SqlFormatter.defaultOptions) query = Ok out)
    by (vm_compute; reflexivity).
  split; [exact Hd|]. split; [reflexivity|]. split; [exact Hi|]. split; [exact Hf|].
  destruct (format_preserves_content SampleDialect.dialect SqlFormatter.defaultOptions
              query out Hd eq_refl Hi Hf)
    as (toks' & Htoks & Hq & _ & Hbase & Hout & _).
  assert (toks' = toks) as -> by (vm_compute in Htoks; by injection Htoks as <-).
  rewrite Hbase in Hout by (intros g t; reflexivity).
  split; [exact Hq|]. split; [exact Hout|]. vm_compute. reflexivity.
Defined.

(** C1 as stated fails: [format] re-cases the reserved words, and its indent
    unit is any string. *)
Lemma format_changes_content_counterexample :
  SqlFormatter.params SqlFormatter.noOptions = NoParams
  /\ SampleDialect.format "select 1" SqlFormatter.noOptions = Ok "SELECT
  1"
  /\ stripWhitespace "SELECT
  1" = list_ascii_of_string "SELECT1"
  /\ stripWhitespace "select 1" = list_ascii_of_string "select1"
  /\ SampleDialect.format "SELECT a"
       (SqlFormatter.withIndent "--" SqlFormatter.noOptions) = Ok "SELECT
--a"
  /\ stripWhitespace "SELECT
--a" <> stripWhitespace "SELECT a".
Proof. repeat split; vm_compute; (reflexivity || discriminate). Qed.

(** * Further properties of the engine *)

(** ** Whitespace normalization *)

Lemma collapsed_replaceWhitespaceRuns b s : collapsed b (replaceWhitespaceRuns b s) = true.
Proof.
  revert b. induction s as [|c s IH]; intros b; simpl; [done|].
  destruct (isWhitespace c) eqn:Ec.
  - destruct b; simpl; [apply IH|]. by rewrite IH.
  - simpl. by rewrite Ec, IH.
Qed.

Lemma replaceWhitespaceRuns_collapsed b s :
  collapsed b s = true -> replaceWhitespaceRuns b s = s.
Proof.
  revert b. induction s as [|c s IH]; intros b; simpl; [done|].
  destruct (isWhitespace c) eqn:Ec.
  - intros [[->%Ascii.eqb_eq Hb%negb_true_iff]%andb_true_iff Hs]%andb_true_iff.
    rewrite Hb. f_equal. by apply IH.
  - intros Hs. f_equal. by apply IH.
Qed.

(** [equalizeWhitespace] leaves only single spaces as whitespace, and is
    idempotent. *)
Theorem equalizeWhitespace_normal_form s :
  collapsed false (Formatter.equalizeWhitespace s) = true
  /\ Formatter.equalizeWhitespace (Formatter.equalizeWhitespace s)
     = Formatter.equalizeWhitespace s.
Proof.
  unfold Formatter.equalizeWhitespace. split.
  - apply collapsed_replaceWhitespaceRuns.
  - apply replaceWhitespaceRuns_collapsed, collapsed_replaceWhitespaceRuns.
Qed.

(** ** Comments *)

Lemma replaceLineStarts_skip by_ w s :
  allIn isSpaceOrTab w ->
  replaceLineStarts by_ true (w ++ s) = replaceLineStarts by_ true s.
Proof.
  induction 1 as [|c w Hc _ IH]; simpl; [done|].
  rewrite Hc. destruct (Ascii.eqb_spec c LF) as [->|_]; [done | apply IH].
Qed.

Lemma replaceLineStarts_idemp w s :
  allIn isSpaceOrTab w ->
  (forall b, replaceLineStarts (LF :: w) false (replaceLineStarts (LF :: w) b s)
             = replaceLineStarts (LF :: w) b s)
  /\ replaceLineStarts (LF :: w) true (replaceLineStarts (LF :: w) true s)
     = replaceLineStarts (LF :: w) true s.
Proof.
  intros Hw. induction s as [|c s [IH1 IH2]]; [done|].
  assert (HLF : forall b x,
             replaceLineStarts (LF :: w) b (LF :: w ++ x)
             = LF :: w ++ replaceLineStarts (LF :: w) true x).
  { intros b x. simpl. by rewrite replaceLineStarts_skip. }
  split; [intros b|]; simpl.
  - destruct (Ascii.eqb_spec c LF) as [->|Hc].
    + by rewrite HLF, IH2.
    + destruct (b && isSpaceOrTab c) eqn:Eb; [apply IH1|].
      simpl. destruct (Ascii.eqb_spec c LF); [done|]. by rewrite IH1.
  - destruct (Ascii.eqb_spec c LF) as [->|Hc].
    + by rewrite HLF, IH2.
    + destruct (isSpaceOrTab c) eqn:Ec; [apply IH2|].
      simpl. destruct (Ascii.eqb_spec c LF); [done|]. by rewrite Ec, IH1.
Qed.

(** [indentComment] leaves a comment of one line as it is. *)
Theorem indentComment_single_line f comment :
  LF ∉ comment -> Formatter.indentComment f comment = comment.
Proof.
  unfold Formatter.indentComment.
  set (by_ := [LF] ++ Indentation.getIndent (Formatter.indentation f) ++ [SPACE]).
  clearbody by_. intros H. induction comment as [|c s IH]; simpl; [done|].
  apply not_elem_of_cons in H as [Hc Hs].
  destruct (Ascii.eqb_spec c LF) as [->|_]; [done|]. by rewrite IH.
Qed.

Lemma indentComment_single_line_witness :
  let f := Formatter.new SqlFormatter.defaultOptions in
  (LF ∉ list_ascii_of_string "/* one  line */")
  /\ Formatter.indentComment f "/* one  line */" = list_ascii_of_string "/* one  line */".
Proof.
  intros f.
  assert (H : LF ∉ list_ascii_of_string "/* one  line */")
    by (apply (bool_decide_unpack _); vm_compute; exact I).
  split; [exact H|]. exact (indentComment_single_line f _ H).
Defined.

(** With an indent unit of spaces and tabs, re-indenting a comment that was
    re-indented at the same depth changes nothing. *)
Theorem indentComment_idempotent f comment :
  allIn isSpaceOrTab (Indentation.indent (Formatter.indentation f)) ->
  Formatter.indentComment f (Formatter.indentComment f comment)
  = Formatter.indentComment f comment.
Proof.
  intros Hi. unfold Formatter.indentComment.
  apply (replaceLineStarts_idemp
           (Indentation.getIndent (Formatter.indentation f) ++ [SPACE])).
  apply Forall_app. split; [by apply allIn_concat_replicate | by repeat constructor].
Qed.

Lemma indentComment_idempotent_witness :
  let f := Formatter.setIndentation (Formatter.new SqlFormatter.defaultOptions)
             (Indentation.mk "  " [Indentation.TOP_LEVEL]) in
  let comment := list_ascii_of_string "/*
* a
    * b */" in
  allIn isSpaceOrTab (Indentation.indent (Formatter.indentation f))
  /\ Formatter.indentComment f comment = list_ascii_of_string "/*
   * a
   * b */"
  /\ Formatter.indentComment f (Formatter.indentComment f comment)
     = Formatter.indentComment f comment.
Proof.
  intros f comment.
  assert (H : allIn isSpaceOrTab (Indentation.indent (Formatter.indentation f)))
    by (repeat constructor).
  split; [exact H|]. split; [vm_compute; reflexivity|].
  exact (indentComment_idempotent f comment H).
Defined.

(** ** New lines *)

Lemma endsWith_inv c s : endsWith c s = true -> exists s', s = s' ++ [c].
Proof.
  destruct s as [|d s] using rev_ind; [done|].
  rewrite endsWith_snoc. intros ->%Ascii.eqb_eq. by eexists.
Qed.

(** With an indent unit of spaces, [addNewline] is idempotent: the output
    that ends with a newline and the indent gets no second newline. *)
Theorem addNewline_idempotent f q :
  allIn isSpace (Indentation.indent (Formatter.indentation f)) ->
  Formatter.addNewline f (Formatter.addNewline f q) = Formatter.addNewline f q.
Proof.
  intros Hi.
  assert (Hind : allIn isSpace (Indentation.getIndent (Formatter.indentation f)))
    by (by apply allIn_concat_replicate).
  set (t := trimSpacesEnd q).
  assert (E : exists t', Formatter.addNewline f q
                         = (t' ++ [LF]) ++ Indentation.getIndent (Formatter.indentation f)).
  { rewrite addNewline_shape. fold t. destruct (endsWith LF t) eqn:Et.
    - apply endsWith_inv in Et as [t' ->]. by exists t'.
    - exists t. by rewrite app_assoc. }
  destruct E as [t' E]. rewrite E at 1. rewrite addNewline_shape.
  unfold trimSpacesEnd. rewrite dropEnd_app_all by done.
  rewrite dropEnd_snoc_keep by done. rewrite endsWith_snoc. simpl.
  by rewrite E.
Qed.

Lemma addNewline_idempotent_witness :
  let f := Formatter.setIndentation (Formatter.new SqlFormatter.defaultOptions)
             (Indentation.mk "  " [Indentation.TOP_LEVEL]) in
  allIn isSpace (Indentation.indent (Formatter.indentation f))
  /\ Formatter.addNewline f "SELECT   " = list_ascii_of_string "SELECT
  "
  /\ Formatter.addNewline f (Formatter.addNewline f "SELECT   ")
     = Formatter.addNewline f "SELECT   ".
Proof.
  intros f.
  assert (H : allIn isSpace (Indentation.indent (Formatter.indentation f)))
    by (repeat constructor).
  split; [exact H|]. split; [vm_compute; reflexivity|].
  exact (addNewline_idempotent f _ H).
Defined.

(** ** What a token changes of the formatter *)

Lemma formatToken_state d f i token0 q f' q' :
  let token := Formatter.tokenOverride d (Formatter.setIndex f i) token0 in
  Formatter.formatToken d f i token0 q = Ok (f', q') ->
  Formatter.cfg f' = Formatter.cfg f
  /\ (type token <> PLACEHOLDER -> Formatter.params f' = Formatter.params f).
Proof.
  intros token. unfold Formatter.formatToken. fold token.
  generalize token; clear token; intros token.
  destruct (type token) eqn:Hty;
    unfold Formatter.formatByValue, Formatter.formatQuerySeparator,
      Formatter.formatPlaceholder, Formatter.formatTopLevelReservedWord,
      Formatter.formatTopLevelReservedWordNoIndent,
      Formatter.formatOpeningParentheses, Formatter.formatClosingParentheses;
    repeat case_match; intros Hres; inv_bind Hres; simplify_eq/=; by split.
Qed.

(** A token leaves the options, the tokens and the indent unit as they are; it
    becomes the previous reserved token when its type is one of the four
    reserved types, and leaves that one as it is otherwise; it changes the
    inline block only when it is a parenthesis, and the parameters only when
    it is a placeholder. *)
Theorem formatToken_footprint d f i token0 q f' q' :
  let token := Formatter.tokenOverride d (Formatter.setIndex f i) token0 in
  Formatter.formatToken d f i token0 q = Ok (f', q') ->
  Formatter.cfg f' = Formatter.cfg f
  /\ Formatter.tokens f' = Formatter.tokens f
  /\ Formatter.index f' = i
  /\ Indentation.indent (Formatter.indentation f')
     = Indentation.indent (Formatter.indentation f)
  /\ Formatter.previousReservedToken f'
     = (if bool_decide (type token ∈ reservedTypes) then Some token
        else Formatter.previousReservedToken f)
  /\ (type token ∉ [OPEN_PAREN; CLOSE_PAREN] ->
      Formatter.inlineBlock f' = Formatter.inlineBlock f)
  /\ (type token <> PLACEHOLDER -> Formatter.params f' = Formatter.params f).
Proof.
  intros token. unfold Formatter.formatToken. fold token.
  generalize token; clear token; intros token.
  destruct (type token) eqn:Hty;
    unfold Formatter.formatByValue, Formatter.formatQuerySeparator,
      Formatter.formatPlaceholder, Formatter.formatTopLevelReservedWord,
      Formatter.formatTopLevelReservedWordNoIndent,
      Formatter.formatOpeningParentheses, Formatter.formatClosingParentheses;
    repeat case_match; intros Hres; inv_bind Hres; simplify_eq/=;
    repeat split; try done;
    try (by rewrite ?indent_decreaseTopLevel);
    try (intros Hnot; exfalso; apply Hnot; set_solver).
Qed.

Lemma formatToken_footprint_witness :
  let f := SampleDialect.formatter "a FROM b" SqlFormatter.noOptions in
  let from := mkToken RESERVED_TOP_LEVEL "FROM" (Some [SPACE]) None in
  exists f' q',
    Formatter.formatToken SampleDialect.dialect f 1 from "a " = Ok (f', q')
    /\ Formatter.previousReservedToken f' = Some from
    /\ Formatter.inlineBlock f' = Formatter.inlineBlock f
    /\ Formatter.params f' = Formatter.params f.
Proof.
  intros f from.
  destruct (Formatter.formatToken SampleDialect.dialect f 1 from "a ")
    as [[f' q']|e] eqn:E; [|vm_compute in E; discriminate E].
  exists f', q'. split; [reflexivity|].
  destruct (formatToken_footprint SampleDialect.dialect f 1 from "a " f' q' E)
    as (_ & _ & _ & _ & Hprev & Hinline & Hparams).
  split; [exact Hprev|]. split.
  - apply Hinline. apply (bool_decide_unpack _). vm_compute. exact I.
  - apply Hparams. discriminate.
Defined.

(** ** When the engine fails *)

Lemma formatToken_succeeds d f i token q :
  Params.params (Formatter.params f) = NoParams ->
  0 <= FormatOptions.linesBetweenQueries (Formatter.cfg f) ->
  exists f' q', Formatter.formatToken d f i token q = Ok (f', q').
Proof.
  intros Hp Hn. unfold Formatter.formatToken.
  generalize (Formatter.tokenOverride d (Formatter.setIndex f i) token); intros tok.
  destruct (type tok);
    unfold Formatter.formatByValue, Formatter.formatQuerySeparator,
      Formatter.formatPlaceholder, Formatter.linesBetweenQueriesOr1,
      JsString.repeat, Params.get;
    simpl; rewrite ?Hp; simpl;
    repeat (case_match; simpl); try lia; eauto.
  - destruct (Formatter.formatOpeningParentheses _ tok q); eauto.
  - destruct (Formatter.formatClosingParentheses _ tok q); eauto.
Qed.

Lemma forEachToken_succeeds d ts f i q :
  Params.params (Formatter.params f) = NoParams ->
  0 <= FormatOptions.linesBetweenQueries (Formatter.cfg f) ->
  exists f' q', Formatter.forEachToken d f i ts q = Ok (f', q').
Proof.
  revert f i q. induction ts as [|t ts IH]; intros f i q Hp Hn; simpl; [eauto|].
  destruct (formatToken_succeeds d f i t q Hp Hn) as (f1 & q1 & E).
  rewrite E. simpl.
  destruct (formatToken_state d f i t q f1 q1 E) as (Hcfg & Hpar).
  apply IH; [|by rewrite Hcfg].
  destruct (decide (type (Formatter.tokenOverride d (Formatter.setIndex f i) t)
                    = PLACEHOLDER)) as [Hty|Hty]; [|by rewrite Hpar].
  revert E. unfold Formatter.formatToken. rewrite Hty.
  unfold Formatter.formatPlaceholder, Params.get. simpl. rewrite Hp. simpl.
  by intros [= <- _].
Qed.



(** With a negative [linesBetweenQueries], which the option handling of
    [format] lets through, the formatter throws a RangeError at a [;]. *)
Theorem negative_linesBetweenQueries_throws d f i token0 q :
  let token := Formatter.tokenOverride d (Formatter.setIndex f i) token0 in
  Formatter.dispatchedByType (type token) = false ->
  value token = [";"%char] ->
  FormatOptions.linesBetweenQueries (Formatter.cfg f) < 0 ->
  Formatter.formatToken d f i token0 q = Throw RangeError.
Proof.
  intros token Hty Hv Hn.
  rewrite formatToken_by_value by done. fold token.
  unfold Formatter.formatByValue, Formatter.valueIs. rewrite Hv. simpl.
  unfold Formatter.formatQuerySeparator, Formatter.linesBetweenQueriesOr1,
    JsString.repeat. simpl.
  destruct (_ =? 0) eqn:E0; [lia|].
  destruct (_ <? 0) eqn:E1; [done | lia].
Qed.

Lemma negative_linesBetweenQueries_throws_witness :
  let cfg := SqlFormatter.withLinesBetweenQueries (-1) SqlFormatter.noOptions in
  let f := SampleDialect.formatter "a ; b" cfg in
  let semicolon := mkToken PUNCTUATION ";" (Some [SPACE]) None in
  FormatOptions.linesBetweenQueries (Formatter.cfg f) < 0
  /\ Formatter.formatToken SampleDialect.dialect f 1 semicolon "a " = Throw RangeError
  /\ SampleDialect.format "a ; b" cfg = Throw RangeError.
Proof.
  intros cfg f semicolon.
  assert (H : FormatOptions.linesBetweenQueries (Formatter.cfg f) < 0)
    by (vm_compute; reflexivity).
  split; [exact H|]. split; [|vm_compute; reflexivity].
  exact (negative_linesBetweenQueries_throws SampleDialect.dialect f 1 semicolon "a "
           eq_refl eq_refl H).
Defined.

(** ** Queries without tokens *)

Lemma tokenizeFrom_whitespace tk fuel offset input :
  allIn isWhitespace input -> Tokenizer.tokenizeFrom tk fuel offset input = Ok [].
Proof.
  intros H.
  assert (E : dropStart isWhitespace input = []).
  { induction H as [|c s Hc _ IH]; simpl; [done | by rewrite Hc]. }
  destruct fuel; simpl; by rewrite E.
Qed.

(** A query of whitespace only, the empty query among them, is formatted to
    the empty string, whatever the options and the state of the formatter. *)
Theorem format_whitespace_query d f query :
  allIn isWhitespace query -> Formatter.format d f query = Ok [].
Proof.
  intros H. rewrite format_unfold. unfold Tokenizer.tokenize.
  by rewrite tokenizeFrom_whitespace.
Qed.

Lemma format_whitespace_query_witness :
  let f := Formatter.new sampleWithTrailingNewline in
  allIn isWhitespace (LF :: list_ascii_of_string "   ")
  /\ Formatter.format SampleDialect.dialect f (LF :: list_ascii_of_string "   ") = Ok [].
Proof.
  intros f.
  assert (H : allIn isWhitespace (LF :: list_ascii_of_string "   "))
    by (repeat constructor).
  split; [exact H|]. exact (format_whitespace_query SampleDialect.dialect f _ H).
Defined.

(** ** The end of the formatted query *)

(** What [getFormattedQueryFromTokens] returns ends with no whitespace, but
    for the one newline it appends when [trailingNewline] is set. *)
Theorem getFormattedQueryFromTokens_end d f f' q :
  Formatter.getFormattedQueryFromTokens d f = Ok (f', q) ->
  if FormatOptions.trailingNewline (Formatter.cfg f)
  then exists s, q = s ++ [LF] /\ noTrailingWhitespace s
  else noTrailingWhitespace q.
Proof.
  unfold Formatter.getFormattedQueryFromTokens. intros H.
  apply bind_Ok in H as [[f1 q1] [Hrun H]].
  assert (Hcfg : Formatter.cfg f1 = Formatter.cfg f).
  { clear H. revert Hrun. generalize 0%nat. generalize (@nil ascii).
    generalize (Formatter.tokens f) at 1. intros ts. revert f.
    induction ts as [|t ts IH]; intros f q0 i; simpl.
    - by intros [= <- _].
    - intros H. apply bind_Ok in H as [[f2 q2] [E H]].
      apply IH in H. apply formatToken_state in E as [E _]. congruence. }
  rewrite Hcfg in H. injection H as _ <-.
  assert (Ht : noTrailingWhitespace (trimEnd q1))
    by (intros c s' E; by eapply dropEnd_last).
  case_match; [by eexists | done].
Qed.

Lemma getFormattedQueryFromTokens_end_witness :
  let f := Formatter.setTokens (Formatter.new sampleWithTrailingNewline)
             (SampleDialect.tokens "select 1 ;  ") in
  exists f',
    Formatter.getFormattedQueryFromTokens SampleDialect.dialect f
    = Ok (f', LF :: list_ascii_of_string "SELECT
  1;" ++ [LF])
    /\ exists s, LF :: list_ascii_of_string "SELECT
  1;" ++ [LF] = s ++ [LF] /\ noTrailingWhitespace s.
Proof.
  intros f.
  destruct (Formatter.getFormattedQueryFromTokens SampleDialect.dialect f)
    as [[f' q]|e] eqn:E; [|vm_compute in E; discriminate E].
  assert (Hq : q = LF :: list_ascii_of_string "SELECT
  1;" ++ [LF]) by (vm_compute in E; by injection E as _ <-).
  subst q. exists f'. split; [reflexivity|].
  exact (getFormattedQueryFromTokens_end SampleDialect.dialect f f' _ E).
Defined.

(** ** Parentheses and clauses *)

(** A closing parenthesis right after an opening one puts the indentation and
    the inline block back as they were before the opening one: an inline
    group leaves the indentation alone, and a block takes back the level it
    added. *)
Theorem parentheses_restore_state f open close q q' :
  let opened := Formatter.formatOpeningParentheses f open q in
  let closed := Formatter.formatClosingParentheses opened.1 close q' in
  Formatter.indentation closed.1 = Formatter.indentation f
  /\ Formatter.inlineBlock closed.1 = Formatter.inlineBlock f
  /\ (if InlineBlock.isActive (Formatter.inlineBlock opened.1)
      then Formatter.indentation opened.1 = Formatter.indentation f
      else Indentation.frames (Formatter.indentation opened.1)
           = Indentation.BLOCK :: Indentation.frames (Formatter.indentation f)).
Proof.
  unfold Formatter.formatOpeningParentheses, Formatter.formatClosingParentheses.
  destruct f as [cfg [ind frames] [w level] par prev toks idx]. simpl.
  unfold InlineBlock.beginIfPossible, InlineBlock.isActive. simpl.
  destruct level as [|k]; simpl.
  - destruct (InlineBlock.isInlineBlock _ _ _); simpl; repeat split; done.
  - repeat split; done.
Qed.

(** A top-level reserved word leaves the indentation with a top-level frame
    on top, and the next top-level reserved word leaves that indentation as
    it is: the clauses of a query are indented alike. *)
Theorem topLevel_words_align f token q token' q' :
  let first := Formatter.formatTopLevelReservedWord f token q in
  let second := Formatter.formatTopLevelReservedWord first.1 token' q' in
  (exists frames, Indentation.frames (Formatter.indentation first.1)
                  = Indentation.TOP_LEVEL :: frames)
  /\ Formatter.indentation second.1 = Formatter.indentation first.1.
Proof.
  unfold Formatter.formatTopLevelReservedWord. simpl.
  unfold Indentation.increaseTopLevel, Indentation.decreaseTopLevel. simpl.
  split; [by eexists | done].
Qed.

(** ** The whitespace of the query *)

(** Two queries with the same tokens, up to the case of the reserved words
    and parentheses and up to the whitespace between the tokens, other than
    whether there is some before an opening parenthesis, are formatted
    alike. *)
Theorem format_ignores_whitespace d cfg query query' toks toks' :
  hookIgnoresWhitespace d ->
  Tokenizer.tokenize (Formatter.tokenizer d) query = Ok toks ->
  Tokenizer.tokenize (Formatter.tokenizer d) query' = Ok toks' ->
  normalized <$> toks' = normalized <$> toks ->
  Formatter.format d (Formatter.new cfg) query'
  = Formatter.format d (Formatter.new cfg) query.
Proof.
  intros Hd Htoks Htoks' E.
  rewrite !format_unfold, Htoks, Htoks'. simpl.
  by apply format_tokens_normalized.
Qed.

Lemma format_ignores_whitespace_witness :
  let query := list_ascii_of_string "select a,b from t where f (x)>1" in
  let query' := list_ascii_of_string "  SELECT a ,
     b From t
  WHERE f  (x) > 1  " in
  hookIgnoresWhitespace SampleDialect.dialect
  /\ Tokenizer.tokenize SampleDialect.tokenizer query
     = Ok (SampleDialect.tokens (string_of_list_ascii query))
  /\ Tokenizer.tokenize SampleDialect.tokenizer query'
     = Ok (SampleDialect.tokens (string_of_list_ascii query'))
  /\ Formatter.format SampleDialect.dialect (Formatter.new SqlFormatter.defaultOptions)
       query'
     = Formatter.format SampleDialect.dialect (Formatter.new SqlFormatter.defaultOptions)
         query.
Proof.
  intros query query'.
  assert (Hd : hookIgnoresWhitespace SampleDialect.dialect)
    by (intros g t; reflexivity).
  split; [exact Hd|]. split; [vm_compute; reflexivity|].
  split; [vm_compute; reflexivity|].
  apply (format_ignores_whitespace SampleDialect.dialect SqlFormatter.defaultOptions
           query query' (SampleDialect.tokens (string_of_list_ascii query))
           (SampleDialect.tokens (string_of_list_ascii query')) Hd);
    vm_compute; reflexivity.
Defined.

(** ** The options of the public entry *)

Lemma resolveOptions_indent L cfg resolved :
  SqlFormatter.returned (SqlFormatter.resolveOptions L cfg) = Ok resolved ->
  FormatOptions.indent resolved
  = match SqlFormatter.keywordPosition cfg with
    | Some KeywordMode.tenSpaceLeft | Some KeywordMode.tenSpaceRight =>
        replicate 10 SPACE
    | _ => default (list_ascii_of_string "  ") (SqlFormatter.indent cfg)
    end
  /\ FormatOptions.language resolved
     = default "sql"%string (SqlFormatter.language cfg).
Proof.
  unfold SqlFormatter.resolveOptions.
  destruct (match SqlFormatter.language cfg with Some _ => _ | None => _ end);
    [done|].
  destruct (SqlFormatter.checkNewline _) as [newline'|e]; [|done].
  destruct (SqlFormatter.checkLineWidth _) as [warned lineWidth'].
  simpl. intros [= <-]. simpl. split; [|done].
  by destruct (SqlFormatter.keywordPosition cfg) as [[]|].
Qed.

(** With [keywordPosition] [tenSpaceLeft] or [tenSpaceRight] the formatter is
    constructed with an indent unit of ten spaces, whatever the [indent] of
    the options. *)
Theorem tenSpace_forces_indent L cfg resolved :
  SqlFormatter.keywordPosition cfg = Some KeywordMode.tenSpaceLeft
  \/ SqlFormatter.keywordPosition cfg = Some KeywordMode.tenSpaceRight ->
  SqlFormatter.returned (SqlFormatter.resolveOptions L cfg) = Ok resolved ->
  FormatOptions.indent resolved = replicate 10 SPACE.
Proof.
  intros Hk [E _]%resolveOptions_indent. by destruct Hk as [Hk|Hk]; rewrite Hk in E.
Qed.

Lemma tenSpace_forces_indent_witness :
  let cfg := withKeywordPosition KeywordMode.tenSpaceRight
               (SqlFormatter.withIndent "--" SqlFormatter.noOptions) in
  (SqlFormatter.keywordPosition cfg = Some KeywordMode.tenSpaceLeft
   \/ SqlFormatter.keywordPosition cfg = Some KeywordMode.tenSpaceRight)
  /\ SqlFormatter.returned (SqlFormatter.resolveOptions SampleDialect.languages cfg)
     = Ok (SampleDialect.options cfg)
  /\ FormatOptions.indent (SampleDialect.options cfg) = replicate 10 SPACE.
Proof.
  intros cfg.
  assert (H : SqlFormatter.keywordPosition cfg = Some KeywordMode.tenSpaceLeft
              \/ SqlFormatter.keywordPosition cfg = Some KeywordMode.tenSpaceRight)
    by (right; reflexivity).
  split; [exact H|]. split; [reflexivity|].
  exact (tenSpace_forces_indent SampleDialect.languages cfg _ H eq_refl).
Defined.

(** A language that is not the empty string and not one of the twelve
    dialects makes [format] throw [UnsupportedDialect], before any other
    check and before any warning, whatever the query and the other
    options. *)
Theorem unsupported_language_throws L query cfg l :
  SqlFormatter.language cfg = Some l ->
  l <> ""%string ->
  l ∉ ["bigquery"; "db2"; "hive"; "mariadb"; "mysql"; "n1ql"; "plsql";
       "postgresql"; "redshift"; "spark"; "sql"; "tsql"]%string ->
  SqlFormatter.format L query cfg
  = {| SqlFormatter.warnings := [];
       SqlFormatter.returned := Throw (UnsupportedDialect l) |}.
Proof.
  intros El Hne Hnot. unfold SqlFormatter.format, SqlFormatter.resolveOptions.
  rewrite El.
  destruct (String.eqb_spec l "") as [|_]; [done|].
  change (SqlFormatter.supportedDialects L)
    with ["bigquery"; "db2"; "hive"; "mariadb"; "mysql"; "n1ql"; "plsql";
          "postgresql"; "redshift"; "spark"; "sql"; "tsql"]%string.
  by rewrite bool_decide_eq_false_2.
Qed.

Lemma unsupported_language_throws_witness :
  let cfg := withLanguage "sqlite"
               (SqlFormatter.withNewline (NewlineNumber (-1))
                  (SqlFormatter.withLineWidth (-1) SqlFormatter.noOptions)) in
  SqlFormatter.language cfg = Some "sqlite"%string
  /\ "sqlite"%string <> ""%string
  /\ SqlFormatter.format SampleDialect.languages "SELECT 1" cfg
     = {| SqlFormatter.warnings := [];
          SqlFormatter.returned := Throw (UnsupportedDialect "sqlite") |}.
Proof.
  intros cfg. split; [reflexivity|]. split; [discriminate|].
  apply (unsupported_language_throws SampleDialect.languages "SELECT 1" cfg "sqlite");
    [reflexivity | discriminate |].
  apply (bool_decide_unpack _). vm_compute. exact I.
Defined.

(** The empty string as language passes the check of the dialect, being
    falsy, and overrides the default: [format] then finds no formatter and
    throws a TypeError (or InvalidNewline, when [newline] is negative). *)
Theorem empty_language_throws L query cfg :
  SqlFormatter.language cfg = Some ""%string ->
  SqlFormatter.returned (SqlFormatter.format L query cfg) = Throw TypeError
  \/ SqlFormatter.returned (SqlFormatter.format L query cfg) = Throw InvalidNewline.
Proof.
  intros El. unfold SqlFormatter.format. cbn [SqlFormatter.returned].
  destruct (SqlFormatter.returned (SqlFormatter.resolveOptions L cfg))
    as [resolved|e] eqn:E.
  - left. apply resolveOptions_indent in E as [_ E]. rewrite El in E.
    simpl. by rewrite E.
  - right. revert E. unfold SqlFormatter.resolveOptions. rewrite El. simpl.
    unfold SqlFormatter.checkNewline.
    repeat case_match; simpl; congruence.
Qed.

Lemma empty_language_throws_witness :
  let cfg := withLanguage "" SqlFormatter.noOptions in
  SqlFormatter.language cfg = Some ""%string
  /\ SqlFormatter.returned (SqlFormatter.format SampleDialect.languages "SELECT 1" cfg)
     = Throw TypeError.
Proof.
  intros cfg. split; [reflexivity|].
  destruct (empty_language_throws SampleDialect.languages "SELECT 1" cfg eq_refl)
    as [H|H]; [exact H|].
  vm_compute in H. discriminate H.
Defined.

(** Without a language in the options, [format] formats with the formatter
    of standard SQL, constructed with the resolved options. *)
Theorem default_language_is_sql L query cfg resolved :
  SqlFormatter.language cfg = None ->
  SqlFormatter.returned (SqlFormatter.resolveOptions L cfg) = Ok resolved ->
  SqlFormatter.returned (SqlFormatter.format L query cfg)
  = Formatter.format (SqlFormatter.sql L) (Formatter.new resolved) query.
Proof.
  intros El E. unfold SqlFormatter.format. cbn [SqlFormatter.returned].
  rewrite E. apply resolveOptions_indent in E as [_ E]. rewrite El in E.
  simpl. by rewrite E.
Qed.

Lemma default_language_is_sql_witness :
  let cfg := SqlFormatter.withUppercase false SqlFormatter.noOptions in
  SqlFormatter.language cfg = None
  /\ SqlFormatter.returned (SqlFormatter.resolveOptions SampleDialect.languages cfg)
     = Ok (SampleDialect.options cfg)
  /\ SqlFormatter.returned (SqlFormatter.format SampleDialect.languages "SELECT 1" cfg)
     = Formatter.format (SqlFormatter.sql SampleDialect.languages)
         (Formatter.new (SampleDialect.options cfg)) "SELECT 1".
Proof.
  intros cfg. split; [reflexivity|]. split; [reflexivity|].
  exact (default_language_is_sql SampleDialect.languages "SELECT 1" cfg
           (SampleDialect.options cfg) eq_refl eq_refl).
Defined.

(** A positive [lineWidth] is the one the formatter is constructed with, an
    absent one gives 50, and neither is warned about. *)
Theorem positive_lineWidth_kept L cfg resolved :
  match SqlFormatter.lineWidth cfg with Some w => 0 < w | None => True end ->
  SqlFormatter.returned (SqlFormatter.resolveOptions L cfg) = Ok resolved ->
  FormatOptions.lineWidth resolved = Some (default 50 (SqlFormatter.lineWidth cfg))
  /\ forall query, SqlFormatter.warnings (SqlFormatter.format L query cfg) = [].
Proof.
  intros Hw (newline' & _ & _ & -> & E)%resolveOptions_Ok.
  unfold SqlFormatter.format. cbn [SqlFormatter.warnings]. rewrite E.
  unfold SqlFormatter.checkLineWidth.
  destruct (SqlFormatter.lineWidth cfg) as [w|]; [|done].
  replace (w =? 0) with false by lia. replace (w <=? 0) with false by lia. done.
Qed.

Lemma positive_lineWidth_kept_witness :
  let cfg := SqlFormatter.withLineWidth 80 SqlFormatter.noOptions in
  0 < 80
  /\ SqlFormatter.returned (SqlFormatter.resolveOptions SampleDialect.languages cfg)
     = Ok (SampleDialect.options cfg)
  /\ FormatOptions.lineWidth (SampleDialect.options cfg) = Some 80
  /\ forall query,
       SqlFormatter.warnings (SqlFormatter.format SampleDialect.languages query cfg) = [].
Proof.
  intros cfg. split; [lia|]. split; [reflexivity|].
  apply (positive_lineWidth_kept SampleDialect.languages cfg
           (SampleDialect.options cfg)); [simpl; lia | reflexivity].
Defined.

(** ** The [uppercase] option *)

Section LowerCase.

Implicit Types (s t : str) (c : ascii).

Lemma toLowerCase_app s t : toLowerCase (s ++ t) = toLowerCase s ++ toLowerCase t.
Proof. unfold toLowerCase. apply fmap_app. Qed.

Lemma toLowerCase_idemp s : toLowerCase (toLowerCase s) = toLowerCase s.
Proof.
  unfold toLowerCase. rewrite <- list_fmap_compose.
  apply list_fmap_ext. intros _ c _. apply toLowerChar_idemp.
Qed.

Lemma toLowerCase_dropEnd p s :
  (forall c, p (toLowerChar c) = p c) ->
  toLowerCase (dropEnd p s) = dropEnd p (toLowerCase s).
Proof.
  intros Hp. induction s as [|c s IH]; simpl; [done|].
  rewrite <- IH, Hp. destruct (dropEnd p s); simpl; [by case_match | done].
Qed.

Lemma toLowerCase_dropStart p s :
  (forall c, p (toLowerChar c) = p c) ->
  toLowerCase (dropStart p s) = dropStart p (toLowerCase s).
Proof.
  intros Hp. induction s as [|c s IH]; simpl; [done|].
  rewrite Hp. by case_match.
Qed.

Lemma isSpace_toLowerChar c : isSpace (toLowerChar c) = isSpace c.
Proof. by destruct c as [[] [] [] [] [] [] [] []]. Qed.

Lemma isLF_toLowerChar c : Ascii.eqb (toLowerChar c) LF = Ascii.eqb c LF.
Proof. by destruct c as [[] [] [] [] [] [] [] []]. Qed.

Lemma toLowerCase_trimSpacesEnd s :
  toLowerCase (trimSpacesEnd s) = trimSpacesEnd (toLowerCase s).
Proof. apply toLowerCase_dropEnd, isSpace_toLowerChar. Qed.

Lemma toLowerCase_trim s : toLowerCase (trim s) = trim (toLowerCase s).
Proof.
  unfold trim, trimEnd, trimStart.
  rewrite toLowerCase_dropEnd, toLowerCase_dropStart;
    auto using isWhitespace_toLowerChar.
Qed.

Lemma endsWith_toLowerCase s : endsWith LF (toLowerCase s) = endsWith LF s.
Proof.
  destruct s as [|c s _] using rev_ind; [done|].
  rewrite toLowerCase_app. simpl. rewrite !endsWith_snoc. apply isLF_toLowerChar.
Qed.

Lemma toLowerCase_replaceWhitespaceRuns b s :
  toLowerCase (replaceWhitespaceRuns b s) = replaceWhitespaceRuns b (toLowerCase s).
Proof.
  revert b. induction s as [|c s IH]; intros b; simpl; [done|].
  rewrite isWhitespace_toLowerChar.
  destruct (isWhitespace c); [destruct b|]; simpl; by rewrite IH.
Qed.

Lemma toLowerCase_show f token :
  toLowerCase (Formatter.show f token) = toLowerCase (value token).
Proof.
  unfold Formatter.show. repeat case_match;
    auto using toLowerCase_toUpperCase, toLowerCase_idemp.
Qed.

Lemma toLowerCase_addNewline f q :
  toLowerCase (Formatter.addNewline f q)
  = trimSpacesEnd (toLowerCase q)
    ++ (if endsWith LF (trimSpacesEnd (toLowerCase q)) then [] else [LF])
    ++ toLowerCase (Indentation.getIndent (Formatter.indentation f)).
Proof.
  rewrite addNewline_shape, !toLowerCase_app, toLowerCase_trimSpacesEnd.
  by rewrite <- (endsWith_toLowerCase (trimSpacesEnd q)), toLowerCase_trimSpacesEnd;
    case_match.
Qed.

End LowerCase.

Ltac split_ifs :=
  repeat match goal with
         | |- context [if ?c then _ else _] =>
             lazymatch c with
             | context [if _ then _ else _] => fail
             | context [match _ with _ => _ end] => fail
             | _ => destruct c eqn:?
             end
         end.

Ltac lower :=
  repeat first
    [ rewrite toLowerCase_app
    | rewrite toLowerCase_addNewline
    | rewrite toLowerCase_show
    | rewrite toLowerCase_trimSpacesEnd
    | rewrite toLowerCase_replaceWhitespaceRuns ].

(** The outcomes of a step under two settings of [uppercase]: the same
    failure, or formatters that differ in the setting and outputs that differ
    in the case of letters. *)
Lemma formatToken_recased d b f i token q q' :
  hookIgnoresUppercase d ->
  toLowerCase q' = toLowerCase q ->
  match Formatter.formatToken d f i token q,
        Formatter.formatToken d (recased b f) i token q' with
  | Ok (f1, o1), Ok (f2, o2) => f2 = recased b f1 /\ toLowerCase o2 = toLowerCase o1
  | Throw e1, Throw e2 => e1 = e2
  | _, _ => False
  end.
Proof.
  intros Hd E. unfold Formatter.formatToken.
  change (Formatter.setIndex (recased b f) i) with (recased b (Formatter.setIndex f i)).
  rewrite Hd.
  generalize (Formatter.setIndex f i); intros g.
  generalize (Formatter.tokenOverride d g token); intros tok.
  destruct (type tok);
    unfold Formatter.formatByValue, Formatter.formatQuerySeparator,
      Formatter.formatComma, Formatter.formatWithoutSpaces,
      Formatter.formatPlaceholder, Formatter.formatTopLevelReservedWord,
      Formatter.formatTopLevelReservedWordNoIndent,
      Formatter.formatNewlineReservedWord, Formatter.formatLineComment,
      Formatter.formatBlockComment,
      Formatter.formatOpeningParentheses, Formatter.formatClosingParentheses,
      Formatter.formatWithSpaces,
      Formatter.equalizeWhitespace, Formatter.linesBetweenQueriesOr1;
    try change (Formatter.tokenLookBehind (recased b g))
      with (Formatter.tokenLookBehind g);
    try change (Formatter.tokenLookAhead (recased b g))
      with (Formatter.tokenLookAhead g);
    simpl; split_ifs; simpl;
    try (destruct (JsString.repeat _ _); simpl);
    try (destruct (Params.get _ _) as [[? ?]|?]; simpl);
    try done;
    (split; [reflexivity|]); lower; by rewrite ?E.
Qed.

Lemma forEachToken_recased d b ts f i q q' :
  hookIgnoresUppercase d ->
  toLowerCase q' = toLowerCase q ->
  match Formatter.forEachToken d f i ts q,
        Formatter.forEachToken d (recased b f) i ts q' with
  | Ok (f1, o1), Ok (f2, o2) => f2 = recased b f1 /\ toLowerCase o2 = toLowerCase o1
  | Throw e1, Throw e2 => e1 = e2
  | _, _ => False
  end.
Proof.
  intros Hd. revert f i q q'.
  induction ts as [|t ts IH]; intros f i q q' E; simpl; [done|].
  pose proof (formatToken_recased d b f i t q q' Hd E) as H.
  destruct (Formatter.formatToken d f i t q) as [[f1 o1]|e1],
           (Formatter.formatToken d (recased b f) i t q') as [[f2 o2]|e2];
    simpl; try done.
  destruct H as [-> H]. by apply IH.
Qed.

(** The [uppercase] option changes the case of letters in the formatted query
    and nothing else, and does not change whether formatting fails. *)
Theorem uppercase_changes_case_only d cfg b query :
  hookIgnoresUppercase d ->
  match Formatter.format d (Formatter.new cfg) query,
        Formatter.format d (Formatter.new (withUppercase b cfg)) query with
  | Ok out, Ok out' => toLowerCase out' = toLowerCase out
  | Throw e, Throw e' => e' = e
  | _, _ => False
  end.
Proof.
  intros Hd. rewrite !format_unfold.
  destruct (Tokenizer.tokenize _ query) as [toks|e]; simpl; [|done].
  change (Formatter.setTokens (Formatter.new (withUppercase b cfg)) toks)
    with (recased b (Formatter.setTokens (Formatter.new cfg) toks)).
  pose proof (forEachToken_recased d b toks
                (Formatter.setTokens (Formatter.new cfg) toks) 0 [] [] Hd eq_refl) as H.
  destruct (Formatter.forEachToken d (Formatter.setTokens _ toks) 0 toks [])
    as [[f1 o1]|e1],
    (Formatter.forEachToken d (recased b _) 0 toks []) as [[f2 o2]|e2];
    simpl; try done.
  destruct H as [_ H]. by rewrite !toLowerCase_trim, H.
Qed.

Lemma uppercase_changes_case_only_witness :
  hookIgnoresUppercase SampleDialect.dialect
  /\ Formatter.format SampleDialect.dialect (Formatter.new SqlFormatter.defaultOptions)
       "Select A from T" = Ok (list_ascii_of_string "SELECT
  A
FROM
  T")
  /\ Formatter.format SampleDialect.dialect
       (Formatter.new (withUppercase false SqlFormatter.defaultOptions))
       "Select A from T" = Ok (list_ascii_of_string "select
  A
from
  T")
  /\ match Formatter.format SampleDialect.dialect
             (Formatter.new SqlFormatter.defaultOptions) "Select A from T",
           Formatter.format SampleDialect.dialect
             (Formatter.new (withUppercase false SqlFormatter.defaultOptions))
             "Select A from T" with
     | Ok out, Ok out' => toLowerCase out' = toLowerCase out
     | Throw e, Throw e' => e' = e
     | _, _ => False
     end.
Proof.
  assert (Hd : hookIgnoresUppercase SampleDialect.dialect)
    by (intros b f t; reflexivity).
  split; [exact Hd|]. split; [vm_compute; reflexivity|].
  split; [vm_compute; reflexivity|].
  exact (uppercase_changes_case_only SampleDialect.dialect SqlFormatter.defaultOptions
           false "Select A from T" Hd).
Defined.

(** ** The output grows at its end *)

(** What [addNewline] returns ends with a newline and the indent.  Before
    them stands the output without its trailing spaces; when that already
    ends with a newline, this newline is the one kept and none is added. *)
Theorem addNewline_ends_line f q :
  exists pre,
    Formatter.addNewline f q
    = pre ++ [LF] ++ Indentation.getIndent (Formatter.indentation f)
    /\ if endsWith LF (trimSpacesEnd q)
       then pre ++ [LF] = trimSpacesEnd q
       else pre = trimSpacesEnd q.
Proof.
  rewrite addNewline_shape. destruct (endsWith LF (trimSpacesEnd q)) eqn:E.
  - apply endsWith_inv in E as [pre E]. exists pre. rewrite E.
    split; [by rewrite <- app_assoc | done].
  - by exists (trimSpacesEnd q).
Qed.

Section Appends.

Implicit Types (q x : str).

Lemma dropEnd_prefix p q : dropEnd p q `prefix_of` q.
Proof. destruct (dropEnd_split p q) as [t [E _]]. by exists t. Qed.

Lemma dropEnd_app_prefix p q x : dropEnd p q `prefix_of` dropEnd p (q ++ x).
Proof.
  induction q as [|c q IH]; simpl; [apply prefix_nil|].
  destruct IH as [k IH]. rewrite IH.
  destruct (dropEnd p q) as [|c' r]; simpl.
  - destruct k as [|c' k]; simpl; [reflexivity|].
    case_match; [apply prefix_nil | by apply prefix_cons, prefix_nil].
  - by exists k.
Qed.

Lemma grows_refl q : trimSpacesEnd q `prefix_of` trimSpacesEnd q.
Proof. reflexivity. Qed.

Lemma grows_trimmed q : trimSpacesEnd q `prefix_of` trimSpacesEnd (trimSpacesEnd q).
Proof. unfold trimSpacesEnd. by rewrite dropEnd_idemp. Qed.

Lemma grows_app q o x :
  trimSpacesEnd q `prefix_of` trimSpacesEnd o ->
  trimSpacesEnd q `prefix_of` trimSpacesEnd (o ++ x).
Proof. intros H. etrans; [exact H | apply dropEnd_app_prefix]. Qed.

Lemma grows_addNewline f q o :
  trimSpacesEnd q `prefix_of` trimSpacesEnd o ->
  trimSpacesEnd q `prefix_of` trimSpacesEnd (Formatter.addNewline f o).
Proof.
  intros H. rewrite addNewline_shape. apply grows_app.
  etrans; [exact H | apply grows_trimmed].
Qed.

Lemma grows_output q o :
  trimSpacesEnd q `prefix_of` trimSpacesEnd o -> trimSpacesEnd q `prefix_of` o.
Proof. intros H. etrans; [exact H | apply dropEnd_prefix]. Qed.

End Appends.

(** A token changes the output at its end only: the output before the token,
    without its trailing spaces, starts the output after it. *)
Theorem formatToken_appends d f i token q f' q' :
  Formatter.formatToken d f i token q = Ok (f', q') ->
  trimSpacesEnd q `prefix_of` q'.
Proof.
  unfold Formatter.formatToken.
  generalize (Formatter.setIndex f i); intros g.
  generalize (Formatter.tokenOverride d g token); intros tok.
  destruct (type tok);
    unfold Formatter.formatByValue, Formatter.formatQuerySeparator,
      Formatter.formatComma, Formatter.formatWithoutSpaces,
      Formatter.formatPlaceholder, Formatter.formatTopLevelReservedWord,
      Formatter.formatTopLevelReservedWordNoIndent,
      Formatter.formatNewlineReservedWord, Formatter.formatLineComment,
      Formatter.formatBlockComment,
      Formatter.formatOpeningParentheses, Formatter.formatClosingParentheses,
      Formatter.formatWithSpaces;
    cbn -[Formatter.addNewline trimSpacesEnd]; split_ifs;
    cbn -[Formatter.addNewline trimSpacesEnd];
    try (destruct (JsString.repeat _ _); cbn -[Formatter.addNewline trimSpacesEnd]);
    try (destruct (Params.get _ _) as [[? ?]|?];
         cbn -[Formatter.addNewline trimSpacesEnd]);
    try done; intros [= <- <-]; apply grows_output;
    repeat first
      [ apply grows_refl
      | apply grows_trimmed
      | apply grows_addNewline
      | apply grows_app ].
Qed.

Lemma formatToken_appends_witness :
  let f := SampleDialect.formatter "a   . b" SqlFormatter.noOptions in
  let dot := mkToken PUNCTUATION "." (Some [SPACE]) None in
  exists f',
    Formatter.formatToken SampleDialect.dialect f 1 dot "a    "
    = Ok (f', list_ascii_of_string "a.")
    /\ trimSpacesEnd "a    " `prefix_of` list_ascii_of_string "a.".
Proof.
  intros f dot.
  destruct (Formatter.formatToken SampleDialect.dialect f 1 dot "a    ")
    as [[f' q']|e] eqn:E; [|vm_compute in E; discriminate E].
  assert (Hq : q' = list_ascii_of_string "a.")
    by (vm_compute in E; by injection E as _ <-).
  subst q'. exists f'. split; [reflexivity|].
  exact (formatToken_appends SampleDialect.dialect f 1 dot "a    " f' _ E).
Defined.

(** * The characters the formatter writes *)

(** ** Strings that end with a character that is not whitespace *)

Section Hard.

Implicit Types (s x : str).

Lemma hardEnd_inv s :
  hardEnd s = true -> exists s' c, s = s' ++ [c] /\ isWhitespace c = false.
Proof.
  unfold hardEnd. destruct (last s) as [c|] eqn:E; [|done].
  intros Hc%negb_true_iff. apply last_Some in E as [s' ->]. eauto.
Qed.

Lemma hardEnd_snoc s c : hardEnd (s ++ [c]) = negb (isWhitespace c).
Proof. unfold hardEnd. by rewrite last_snoc. Qed.

Lemma hardEnd_app x s : hardEnd s = true -> hardEnd (x ++ s) = true.
Proof.
  intros (s' & c & -> & Hc)%hardEnd_inv. by rewrite app_assoc, hardEnd_snoc, Hc.
Qed.

Lemma isWhitespace_isSpace c : isWhitespace c = false -> isSpace c = false.
Proof.
  intros H. destruct (isSpace c) eqn:E; [|done].
  apply isSpace_isWhitespace in E. congruence.
Qed.

Lemma trimSpacesEnd_hard x s : hardEnd s = true -> trimSpacesEnd (x ++ s) = x ++ s.
Proof.
  intros (s' & c & -> & Hc)%hardEnd_inv. unfold trimSpacesEnd.
  rewrite app_assoc. by apply dropEnd_snoc_keep, isWhitespace_isSpace.
Qed.

Lemma endsWith_hard x s : hardEnd s = true -> endsWith LF (x ++ s) = false.
Proof.
  intros (s' & c & -> & Hc)%hardEnd_inv.
  rewrite app_assoc, endsWith_snoc. by destruct (Ascii.eqb_spec c LF) as [->|].
Qed.

Lemma addNewline_hard f x s :
  hardEnd s = true ->
  Formatter.addNewline f (x ++ s)
  = x ++ s ++ [LF] ++ Indentation.getIndent (Formatter.indentation f).
Proof.
  intros H. rewrite addNewline_shape, trimSpacesEnd_hard, endsWith_hard by done.
  by rewrite <- !app_assoc.
Qed.

Lemma hardEnd_map (h : ascii -> ascii) s :
  (forall c, isWhitespace (h c) = isWhitespace c) ->
  hardEnd (map h s) = hardEnd s.
Proof.
  intros Hh. unfold hardEnd.
  change (map h s) with (h <$> s). rewrite fmap_last.
  destruct (last s); simpl; [by rewrite Hh | done].
Qed.

Lemma hardEnd_show f t : hardEnd (Formatter.show f t) = hardEnd (value t).
Proof.
  unfold Formatter.show. repeat case_match; try done.
  - apply hardEnd_map, isWhitespace_toUpperChar.
  - apply hardEnd_map, isWhitespace_toLowerChar.
Qed.

Lemma replaceWhitespaceRuns_snoc b s c :
  isWhitespace c = false ->
  replaceWhitespaceRuns b (s ++ [c]) = replaceWhitespaceRuns b s ++ [c].
Proof.
  intros Hc. revert b. induction s as [|c' s IH]; intros b; simpl.
  - by rewrite Hc.
  - repeat case_match; by rewrite IH.
Qed.

Lemma hardEnd_equalizeWhitespace s :
  hardEnd s = true -> hardEnd (Formatter.equalizeWhitespace s) = true.
Proof.
  intros (s' & c & -> & Hc)%hardEnd_inv. unfold Formatter.equalizeWhitespace.
  by rewrite replaceWhitespaceRuns_snoc, hardEnd_snoc, Hc.
Qed.

Lemma replaceLineStarts_snoc by_ b s c :
  isWhitespace c = false ->
  replaceLineStarts by_ b (s ++ [c]) = replaceLineStarts by_ b s ++ [c].
Proof.
  intros Hc.
  assert (isSpaceOrTab c = false) as Hst.
  { unfold isSpaceOrTab. destruct (Ascii.eqb_spec c SPACE) as [->|]; [done|].
    by destruct (Ascii.eqb_spec c TAB) as [->|]. }
  assert (Ascii.eqb c LF = false) as HLF
    by (by destruct (Ascii.eqb_spec c LF) as [->|]).
  revert b. induction s as [|c' s IH]; intros b; simpl.
  - by rewrite HLF, Hst, andb_false_r.
  - repeat case_match; rewrite IH; by rewrite <- ?app_assoc.
Qed.

Lemma hardEnd_indentComment f s :
  hardEnd s = true -> hardEnd (Formatter.indentComment f s) = true.
Proof.
  intros (s' & c & -> & Hc)%hardEnd_inv. unfold Formatter.indentComment.
  by rewrite replaceLineStarts_snoc, hardEnd_snoc, Hc.
Qed.

Lemma hardEnd_written f t : hardEnd (value t) = true -> hardEnd (written f t) = true.
Proof.
  intros H. unfold written.
  destruct (type t); rewrite ?hardEnd_show; try done;
    by (apply hardEnd_equalizeWhitespace || apply hardEnd_indentComment);
    rewrite ?hardEnd_show.
Qed.

End Hard.

(** ** The rules of the dispatch, as what they write *)

Section Writes.

Variable d : Formatter.Dialect.

Lemma show_setIndentation f x t :
  Formatter.show (Formatter.setIndentation f x) t = Formatter.show f t.
Proof. done. Qed.

Lemma valueIs_eq token (s : string) :
  Formatter.valueIs token s = true -> value token = list_ascii_of_string s.
Proof. unfold Formatter.valueIs. by intros ?%bool_decide_eq_true. Qed.

Lemma concat_replicate_LF n : concat (replicate n [LF]) = replicate n LF.
Proof. induction n as [|n IH]; simpl; [done | by rewrite IH]. Qed.

Lemma formatByValue_writes f token q f' q' :
  hardEnd (value token) = true ->
  Formatter.dispatchedByType (type token) = false ->
  Formatter.formatByValue f token q = Ok (f', q') ->
  exists l S,
    q' = applyLead l q ++ value token ++ S
    /\ leadFits f l /\ trailFits f' S
    /\ (breaksLine token = false -> S = [] \/ S = [SPACE]).
Proof.
  intros Hv Hty. unfold Formatter.formatByValue.
  assert (Hs : forall g, Formatter.show g token = value token)
    by (intros g; by apply show_not_cased, dispatchedByType_cased).
  assert (Hb : breaksLine token
               = Formatter.valueIs token "," || Formatter.valueIs token ";").
  { unfold breaksLine. destruct (type token); try done. }
  rewrite Hb.
  unfold Formatter.formatComma, Formatter.formatWithoutSpaces,
    Formatter.formatQuerySeparator, Formatter.formatWithSpaces.
  destruct (Formatter.valueIs token ",") eqn:E1.
  { intros [= <- <-]. rewrite Hs.
    assert (exists tl, (tl = [SPACE]
                       \/ tl = [LF] ++ Indentation.getIndent (Formatter.indentation f))
              /\ (if InlineBlock.isActive (Formatter.inlineBlock f)
                  then trimSpacesEnd q ++ value token ++ [SPACE]
                  else if isLimit (Formatter.previousReservedToken f)
                       then trimSpacesEnd q ++ value token ++ [SPACE]
                       else Formatter.addNewline f
                              (trimSpacesEnd q ++ value token ++ [SPACE]))
                 = trimSpacesEnd q ++ value token ++ tl) as (tl & Htl & E).
    { assert (Formatter.addNewline f (trimSpacesEnd q ++ value token ++ [SPACE])
              = trimSpacesEnd q ++ value token ++ [LF]
                ++ Indentation.getIndent (Formatter.indentation f)) as ->.
      { assert (trimSpacesEnd (trimSpacesEnd q ++ value token ++ [SPACE])
                = trimSpacesEnd q ++ value token) as E.
        { unfold trimSpacesEnd at 1.
          rewrite app_assoc, dropEnd_app_all by (by repeat constructor).
          by apply trimSpacesEnd_hard. }
        rewrite addNewline_shape, E, endsWith_hard by done.
        by rewrite <- !app_assoc. }
      repeat case_match; eauto. }
    rewrite E. exists Trim, tl.
    split; [done|]. split; [done|].
    split; [unfold trailFits; destruct Htl as [-> | ->]; auto|]. done. }
  destruct (Formatter.valueIs token ":") eqn:E2.
  { intros [= <- <-]. rewrite Hs. exists Trim, [SPACE]. unfold trailFits. naive_solver. }
  destruct (Formatter.valueIs token ".") eqn:E3.
  { intros [= <- <-]. rewrite Hs. exists Trim, []. rewrite app_nil_r.
    unfold trailFits. naive_solver. }
  destruct (Formatter.valueIs token ";") eqn:E4.
  { intros H. inv_bind H. simplify_eq/=. rewrite Hs.
    match goal with E : JsString.repeat _ _ = Ok _ |- _ =>
      unfold JsString.repeat in E; case_match; simplify_eq end.
    exists Trim. eexists. split; [reflexivity|]. split; [done|]. split; [|done].
    right; right; left. eexists. apply concat_replicate_LF. }
  destruct (Formatter.valueIs token "[" || _).
  { intros [= <- <-]. rewrite Hs. exists Keep, []. rewrite app_nil_r.
    unfold trailFits. naive_solver. }
  destruct (Formatter.valueIs token "]" || _).
  { intros [= <- <-]. rewrite Hs. exists Trim, [SPACE]. unfold trailFits. naive_solver. }
  intros [= <- <-]. rewrite Hs. exists Keep, [SPACE]. unfold trailFits. naive_solver.
Qed.

Lemma formatToken_writes f i t q f' q' :
  let g := Formatter.setIndex f i in
  let token := Formatter.tokenOverride d g t in
  hardEnd (value token) = true ->
  Formatter.formatToken d f i t q = Ok (f', q') ->
  exists l L S,
    q' = applyLead l q ++ L ++ S
    /\ (if bool_decide (type token = PLACEHOLDER)
        then exists p, Params.get (Formatter.params f) token = Ok (L, p)
        else L = written g token)
    /\ leadFits f l /\ trailFits f' S
    /\ (type token = OPEN_PAREN ->
        l = if emptyWhitespaceBefore token
               && negb (Formatter.preserveWhitespaceFor
                          (type <$> Formatter.tokenLookBehind g 1))
            then Trim else Keep)
    /\ (breaksLine token = false -> type token <> OPEN_PAREN ->
        S = [] \/ S = [SPACE]).
Proof.
  intros g token Hv. unfold Formatter.formatToken. fold g. fold token.
  generalize dependent token. intros token Hv.
  pose proof (hardEnd_written g token Hv) as Hw.
  assert (Hsh : hardEnd (Formatter.show g token) = true) by (by rewrite hardEnd_show).
  unfold written in *. unfold breaksLine.
  destruct (type token) eqn:Hty; simpl bool_decide; cbv iota;
    try (intros H; apply formatByValue_writes in H as (l & S & -> & ? & ? & Hb);
         [| done | by rewrite Hty];
         exists l, (value token), S;
         rewrite show_not_cased by (by rewrite Hty);
         unfold breaksLine in Hb; rewrite Hty in Hb; naive_solver).
  - (* RESERVED *)
    intros [= <- <-]. exists Keep, (Formatter.show g token), [SPACE].
    unfold trailFits. naive_solver.
  - (* RESERVED_TOP_LEVEL *)
    unfold Formatter.formatTopLevelReservedWord. intros [= <- <-].
    rewrite !show_setIndentation, addNewline_hard by done.
    eexists (Break _), _, _. split; [reflexivity|]. split; [done|].
    split; [simpl; by rewrite indent_decreaseTopLevel|].
    unfold trailFits. naive_solver.
  - (* RESERVED_TOP_LEVEL_NO_INDENT *)
    unfold Formatter.formatTopLevelReservedWordNoIndent. intros [= <- <-].
    rewrite !show_setIndentation, addNewline_hard by done.
    eexists (Break _), _, _. split; [reflexivity|]. split; [done|].
    split; [simpl; by rewrite indent_decreaseTopLevel|].
    unfold trailFits. naive_solver.
  - (* RESERVED_NEWLINE *)
    unfold Formatter.formatNewlineReservedWord. intros [= <- <-].
    destruct (isAnd token && _) eqn:E.
    + apply andb_true_iff in E as [E _].
      assert (Formatter.equalizeWhitespace (Formatter.show g token)
              = Formatter.show g token) as Heq.
      { rewrite (show_keyword g token "AND"); [|by rewrite Hty | done].
        by destruct (FormatOptions.uppercase _). }
      rewrite Heq. exists Keep, (Formatter.show g token), [SPACE].
      unfold trailFits. naive_solver.
    + eexists (Break g), _, [SPACE]. split; [reflexivity|].
      unfold trailFits. naive_solver.
  - (* OPEN_PAREN *)
    unfold Formatter.formatOpeningParentheses.
    fold (emptyWhitespaceBefore token).
    set (l := if emptyWhitespaceBefore token && _ then Trim else Keep).
    match goal with |- context [(if ?c then trimSpacesEnd q else q)] =>
      assert ((if c then trimSpacesEnd q else q) = applyLead l q) as ->
        by (unfold l; by destruct c) end.
    destruct (negb (InlineBlock.isActive _)) eqn:E; intros [= <- <-].
    + repeat match goal with
             | |- context [Formatter.show ?h token] =>
                 lazymatch h with
                 | g => fail
                 | _ => change (Formatter.show h token) with (Formatter.show g token)
                 end
             end.
      rewrite addNewline_hard by done.
      eexists l, _, _. split; [reflexivity|]. split; [done|].
      split; [by destruct (emptyWhitespaceBefore token && _)|].
      unfold trailFits. naive_solver.
    + exists l, (Formatter.show g token), []. rewrite app_nil_r.
      split; [done|]. split; [done|].
      split; [by destruct (emptyWhitespaceBefore token && _)|].
      unfold trailFits. naive_solver.
  - (* CLOSE_PAREN *)
    unfold Formatter.formatClosingParentheses, Formatter.formatWithSpaces.
    destruct (InlineBlock.isActive _); intros [= <- <-].
    + exists Trim, (Formatter.show g token), [SPACE]. unfold trailFits. naive_solver.
    + eexists (Break _), (Formatter.show g token), [SPACE].
      split; [reflexivity|]. unfold trailFits. naive_solver.
  - (* LINE_COMMENT *)
    unfold Formatter.formatLineComment. intros [= <- <-].
    rewrite addNewline_hard by done.
    eexists Keep, _, _. split; [reflexivity|]. unfold trailFits. naive_solver.
  - (* BLOCK_COMMENT *)
    unfold Formatter.formatBlockComment. intros [= <- <-].
    rewrite addNewline_hard by done.
    eexists (Break g), _, _. split; [reflexivity|]. unfold trailFits. naive_solver.
  - (* PLACEHOLDER *)
    unfold Formatter.formatPlaceholder.
    destruct (Params.get _ token) as [[v p]|e] eqn:E; simpl; [|done].
    intros [= <- <-]. exists Keep, v, [SPACE]. unfold trailFits. naive_solver.
Qed.

End Writes.

(** ** Letter case (C9) and the newline reserved words (C6) *)




(** C6, as amended: a RESERVED_NEWLINE token that is AND, two positions
    after BETWEEN, is written in the configured letter case after the output
    as it stands and is followed by a space; no newline is written with it.
    Any other RESERVED_NEWLINE token is written after the output without its
    trailing spaces, a newline unless the output ends with one, and the
    indent; it is written in the configured letter case with every run of
    whitespace replaced by one space, so that its whitespace is single spaces
    and its other characters are kept, and is followed by a space. *)
Theorem formatToken_reserved_newline d f i token0 q :
  let g := Formatter.setIndex f i in
  let token := Formatter.tokenOverride d g token0 in
  let cased := if FormatOptions.uppercase (Formatter.cfg f)
               then toUpperCase (value token) else toLowerCase (value token) in
  type token = RESERVED_NEWLINE ->
  exists emitted word,
    Formatter.formatToken d f i token0 q
    = Ok (Formatter.setPreviousReservedToken g token, emitted)
    /\ if isAnd token
          && isBetween (if (2 <=? i)%nat then Formatter.tokens f !! (i - 2)%nat
                        else None)
       then emitted = q ++ word ++ [SPACE]
            /\ word = cased
            /\ (LF ∉ word ++ [SPACE])
       else emitted
            = trimSpacesEnd q
              ++ (if endsWith LF (trimSpacesEnd q) then [] else [LF])
              ++ Indentation.getIndent (Formatter.indentation f)
              ++ word ++ [SPACE]
            /\ word = replaceWhitespaceRuns false cased
            /\ collapsed false word = true
            /\ stripWhitespace word = stripWhitespace cased.
Proof.
  intros g token cased Hty.
  unfold Formatter.formatToken. fold g. fold token. rewrite Hty.
  assert (Hshow : Formatter.show g token = cased).
  { unfold Formatter.show. by rewrite Hty. }
  unfold Formatter.formatNewlineReservedWord, Formatter.tokenLookBehind,
    Formatter.formatWithSpaces, Formatter.equalizeWhitespace.
  simpl Formatter.index. simpl Formatter.tokens. rewrite Hshow.
  destruct (isAnd token && _) eqn:Hand.
  - exists (q ++ cased ++ [SPACE]), cased. split; [done|]. split; [done|].
    split; [done|].
    apply andb_true_iff in Hand as [Hand _].
    rewrite <- Hshow, (show_keyword g token "AND"); [|by rewrite Hty|done].
    destruct (FormatOptions.uppercase _);
      apply (bool_decide_unpack _); vm_compute; exact I.
  - eexists _, (replaceWhitespaceRuns false cased). split; [reflexivity|].
    rewrite addNewline_shape. split; [by rewrite <- !app_assoc|].
    split; [done|]. split; [apply collapsed_replaceWhitespaceRuns|].
    apply stripWhitespace_replaceWhitespaceRuns.
Qed.

Lemma formatToken_reserved_newline_witness :
  let f := SampleDialect.formatter "x BETWEEN 1 AND 2" SqlFormatter.noOptions in
  let and := mkToken RESERVED_NEWLINE "and" (Some [SPACE]) None in
  type and = RESERVED_NEWLINE
  /\ Formatter.formatToken SampleDialect.dialect f 3 and "x BETWEEN 1 "
     = Ok (Formatter.setPreviousReservedToken (Formatter.setIndex f 3) and,
           list_ascii_of_string "x BETWEEN 1 AND ")
  /\ Formatter.formatToken SampleDialect.dialect f 2 and "x BETWEEN "
     = Ok (Formatter.setPreviousReservedToken (Formatter.setIndex f 2) and,
           list_ascii_of_string "x BETWEEN
AND ").
Proof.
  intros f and. split; [reflexivity|].
  destruct (formatToken_reserved_newline SampleDialect.dialect f 3 and "x BETWEEN 1 "
              eq_refl) as (emitted & word & E & H).
  destruct (formatToken_reserved_newline SampleDialect.dialect f 2 and "x BETWEEN "
              eq_refl) as (emitted' & word' & E' & H').
  simpl in H, H'.
  destruct H as (-> & -> & _). destruct H' as (-> & -> & _).
  split; [exact E | exact E'].
Defined.

(** C6 as stated fails: AND two positions after BETWEEN is written where
    the token before it left the output.  After a comma, an opening
    parenthesis that begins a block, or a comment, that is at the start of a
    new line: AND has no space before it and is not on the line of
    BETWEEN. *)
Lemma and_after_line_break_counterexample :
  SampleDialect.tokens "x between , and 2"
  = [mkToken WORD "x" (Some []) None;
     mkToken RESERVED "between" (Some [SPACE]) None;
     mkToken PUNCTUATION "," (Some [SPACE]) None;
     mkToken RESERVED_NEWLINE "and" (Some [SPACE]) None;
     mkToken NUMBER "2" (Some [SPACE]) None]
  /\ SampleDialect.format "x between , and 2" SqlFormatter.noOptions
     = Ok "x BETWEEN,
AND 2"
  /\ SampleDialect.format "x between ( and 2" SqlFormatter.noOptions
     = Ok "x BETWEEN (
  AND 2"
  /\ SampleDialect.format "x between -- c
 and 2" SqlFormatter.noOptions
     = Ok "x BETWEEN -- c
AND 2".
Proof. repeat split; vm_compute; reflexivity. Qed.

(** * Formatting the formatted query *)

(** ** The whitespace at the end of the output *)

Section Tails.

Implicit Types (q s x w : str).

Lemma hardStart_inv s :
  hardStart s = true -> exists c s', s = c :: s' /\ isWhitespace c = false.
Proof. destruct s as [|c s']; [done|]. simpl. intros ?%negb_true_iff. eauto. Qed.

Lemma takeStart_hard w s :
  allIn isWhitespace w -> hardStart s = true ->
  Tokenizer.takeStart isWhitespace (w ++ s) = w.
Proof.
  intros Hw Hs. apply hardStart_inv in Hs as (c & s' & -> & Hc).
  induction Hw as [|c' w Hc' _ IH]; simpl; [by rewrite Hc|]. by rewrite Hc', IH.
Qed.

Lemma dropStart_hard w s :
  allIn isWhitespace w -> hardStart s = true ->
  dropStart isWhitespace (w ++ s) = s.
Proof.
  intros Hw Hs. apply hardStart_inv in Hs as (c & s' & -> & Hc).
  induction Hw as [|c' w Hc' _ IH]; simpl; [by rewrite Hc|]. by rewrite Hc', IH.
Qed.

Lemma trailing_spec q : q = trimEnd q ++ trailing q /\ allIn isWhitespace (trailing q).
Proof.
  unfold trailing, trimEnd.
  destruct (dropEnd_split isWhitespace q) as [t [E Ht]].
  assert (drop (length (dropEnd isWhitespace q)) q = t) as ->.
  { rewrite E at 2. apply drop_app_length. }
  done.
Qed.

Lemma trimEnd_hard q : trimEnd q = [] \/ hardEnd (trimEnd q) = true.
Proof.
  unfold trimEnd. destruct (dropEnd isWhitespace q) as [|c r] eqn:E using rev_ind;
    [by left|right].
  apply dropEnd_last in E. by rewrite hardEnd_snoc, E.
Qed.

Lemma dropEnd_app p x s :
  dropEnd p (x ++ s) = match dropEnd p s with
                       | [] => dropEnd p x
                       | r => x ++ r
                       end.
Proof.
  induction x as [|c x IH]; simpl.
  - by destruct (dropEnd p s).
  - rewrite IH. destruct (dropEnd p s) as [|c' r] eqn:E; [done|].
    by destruct x.
Qed.

Lemma dropEnd_hard p x s :
  (forall c, p c = true -> isWhitespace c = true) ->
  x = [] \/ hardEnd x = true ->
  dropEnd p (x ++ s) = x ++ dropEnd p s.
Proof.
  intros Hp Hx. rewrite dropEnd_app.
  assert (dropEnd p x = x) as E.
  { destruct Hx as [->|(x' & c & -> & Hc)%hardEnd_inv]; [done|].
    apply dropEnd_snoc_keep. destruct (p c) eqn:E; [|done].
    apply Hp in E. congruence. }
  rewrite E. destruct (dropEnd p s); by rewrite ?app_nil_r.
Qed.

Lemma trimSpacesEnd_prefix x s :
  x = [] \/ hardEnd x = true -> trimSpacesEnd (x ++ s) = x ++ trimSpacesEnd s.
Proof. apply dropEnd_hard, isSpace_isWhitespace. Qed.

Lemma trimEnd_prefix x s :
  x = [] \/ hardEnd x = true -> trimEnd (x ++ s) = x ++ trimEnd s.
Proof. by apply dropEnd_hard. Qed.

Lemma endsWith_app c x s : s <> [] -> endsWith c (x ++ s) = endsWith c s.
Proof.
  intros Hs. unfold endsWith. destruct s as [|c' s] using rev_ind; [done|].
  by rewrite app_assoc, !last_snoc.
Qed.

Lemma endsWith_prefix x s :
  x = [] \/ hardEnd x = true -> endsWith LF (x ++ s) = endsWith LF s.
Proof.
  intros Hx. destruct s as [|c s].
  - rewrite app_nil_r. destruct Hx as [->|Hx]; [done|].
    rewrite <- (app_nil_l x). by apply endsWith_hard.
  - by apply endsWith_app.
Qed.

Lemma applyLead_prefix l x s :
  x = [] \/ hardEnd x = true -> applyLead l (x ++ s) = x ++ applyLead l s.
Proof.
  intros Hx. destruct l as [| |f]; simpl; [done | by apply trimSpacesEnd_prefix|].
  rewrite !addNewline_shape, trimSpacesEnd_prefix, endsWith_prefix by done.
  by rewrite <- !app_assoc.
Qed.

Lemma allIn_dropEnd p p' s : allIn p s -> allIn p (dropEnd p' s).
Proof.
  intros H. destruct (dropEnd_split p' s) as [t [E _]].
  rewrite E in H. by apply Forall_app in H as [H _].
Qed.

Lemma allIn_applyLead f l s :
  allIn isWhitespace (Indentation.indent (Formatter.indentation f)) ->
  leadFits f l -> allIn isWhitespace s -> allIn isWhitespace (applyLead l s).
Proof.
  intros Hi Hl Hs. destruct l as [| |f0]; simpl in *; [done | by apply allIn_dropEnd|].
  rewrite addNewline_shape. apply allIn_app; [by apply allIn_dropEnd|].
  apply allIn_app; [case_match; by repeat constructor|].
  apply allIn_concat_replicate. by rewrite Hl.
Qed.

Lemma allIn_trail f S :
  allIn isWhitespace (Indentation.indent (Formatter.indentation f)) ->
  trailFits f S -> allIn isWhitespace S.
Proof.
  intros Hi [->|[->|[[n ->]| ->]]]; try (by repeat constructor).
  - apply Forall_replicate. done.
  - apply allIn_app; [by repeat constructor | by apply allIn_concat_replicate].
Qed.

End Tails.

(** ** The layout of a run *)

Section Layout.

Variable d : Formatter.Dialect.

Lemma formatToken_keeps f i t q f' q' :
  Formatter.formatToken d f i t q = Ok (f', q') ->
  Formatter.tokens f' = Formatter.tokens f
  /\ Indentation.indent (Formatter.indentation f')
     = Indentation.indent (Formatter.indentation f)
  /\ InlineBlock.lineWidth (Formatter.inlineBlock f')
     = InlineBlock.lineWidth (Formatter.inlineBlock f).
Proof.
  unfold Formatter.formatToken.
  generalize (Formatter.tokenOverride d (Formatter.setIndex f i) t); intros token.
  destruct (type token) eqn:Hty;
    unfold Formatter.formatByValue, Formatter.formatQuerySeparator,
      Formatter.formatPlaceholder, Formatter.formatTopLevelReservedWord,
      Formatter.formatTopLevelReservedWordNoIndent,
      Formatter.formatOpeningParentheses, Formatter.formatClosingParentheses,
      InlineBlock.beginIfPossible;
    repeat case_match; intros Hres; inv_bind Hres; simplify_eq/=;
    repeat split; try done; by rewrite ?indent_decreaseTopLevel.
Qed.

Lemma hardStart_map (h : ascii -> ascii) s :
  (forall c, isWhitespace (h c) = isWhitespace c) ->
  hardStart (map h s) = hardStart s.
Proof. intros Hh. destruct s; simpl; [done | by rewrite Hh]. Qed.

Lemma hardStart_show f t : hardStart (Formatter.show f t) = hardStart (value t).
Proof.
  unfold Formatter.show. repeat case_match; try done.
  - apply hardStart_map, isWhitespace_toUpperChar.
  - apply hardStart_map, isWhitespace_toLowerChar.
Qed.

Lemma hardStart_equalizeWhitespace s :
  hardStart s = true -> hardStart (Formatter.equalizeWhitespace s) = true.
Proof.
  intros (c & s' & -> & Hc)%hardStart_inv.
  unfold Formatter.equalizeWhitespace. simpl. rewrite Hc. simpl. by rewrite Hc.
Qed.

Lemma hardStart_indentComment f s :
  hardStart s = true -> hardStart (Formatter.indentComment f s) = true.
Proof.
  intros (c & s' & -> & Hc)%hardStart_inv. unfold Formatter.indentComment. simpl.
  destruct (Ascii.eqb_spec c LF) as [->|_]; [done|]. simpl. by rewrite Hc.
Qed.

Lemma hardStart_written f t :
  hardStart (value t) = true -> hardStart (written f t) = true.
Proof.
  intros H. unfold written.
  destruct (type t); rewrite ?hardStart_show; try done;
    by (apply hardStart_equalizeWhitespace || apply hardStart_indentComment);
    rewrite ?hardStart_show.
Qed.

Lemma written_placeholder f t :
  type t = PLACEHOLDER -> written f t = value t.
Proof. intros Hty. unfold written, Formatter.show. by rewrite Hty. Qed.

Lemma formatToken_layout f i t q f' q' :
  let g := Formatter.setIndex f i in
  let token := Formatter.tokenOverride d g t in
  indentIsWhitespace f ->
  Params.params (Formatter.params f) = NoParams ->
  hardStart (value token) = true ->
  hardEnd (value token) = true ->
  Formatter.formatToken d f i t q = Ok (f', q') ->
  exists l S,
    let w := applyLead l (trailing q) in
    q' = trimEnd q ++ w ++ written g token ++ S
    /\ allIn isWhitespace w /\ allIn isWhitespace S
    /\ Tokenizer.takeStart isWhitespace (drop (length (trimEnd q)) q') = w
    /\ trimEnd q' = trimEnd q ++ w ++ written g token
    /\ (type token = OPEN_PAREN ->
        l = if emptyWhitespaceBefore token
               && negb (Formatter.preserveWhitespaceFor
                          (type <$> Formatter.tokenLookBehind g 1))
            then Trim else Keep)
    /\ (breaksLine token = false -> type token <> OPEN_PAREN ->
        S = [] \/ S = [SPACE]).
Proof.
  intros g token Hi Hp Hs He H.
  pose proof (formatToken_keeps _ _ _ _ _ _ H) as (_ & Hind & _).
  apply formatToken_writes in H as (l & L & S & -> & HL & Hl & HS & Hparen & Htail);
    [|done].
  fold g in HL, Hparen. fold token in HL, Hparen, Htail.
  assert (L = written g token) as ->.
  { destruct (bool_decide_reflect (type token = PLACEHOLDER)) as [Hty|_]; [|done].
    destruct HL as [p HL]. unfold Params.get in HL. simpl in HL. rewrite Hp in HL.
    injection HL as <- _. by rewrite written_placeholder. }
  exists l, S. cbv zeta.
  destruct (trailing_spec q) as [Eq Hq].
  assert (Hw : allIn isWhitespace (applyLead l (trailing q)))
    by (by eapply allIn_applyLead).
  assert (HSw : allIn isWhitespace S).
  { eapply allIn_trail; [|done]. by rewrite Hind. }
  assert (E : applyLead l q = trimEnd q ++ applyLead l (trailing q)).
  { rewrite Eq at 1. apply applyLead_prefix, trimEnd_hard. }
  rewrite E, <- !app_assoc.
  split; [done|]. split; [done|]. split; [done|]. split.
  { rewrite drop_app_length. apply takeStart_hard; [done|].
    pose proof (hardStart_written g token Hs) as Hw'.
    by destruct (written g token). }
  split; [|done].
  rewrite !app_assoc. unfold trimEnd at 1. rewrite dropEnd_app_all by done.
  rewrite <- app_assoc. 
  assert (hardEnd (trimEnd q ++ applyLead l (trailing q) ++ written g token) = true)
    as (x & c & -> & Hc)%hardEnd_inv.
  { rewrite app_assoc. by apply hardEnd_app, hardEnd_written. }
  by apply dropEnd_snoc_keep.
Qed.

End Layout.

(** ** Keywords and values as written *)

Section Ink.

Implicit Types (s y : str).

Lemma toUpper_toLower_char c : toUpperChar (toLowerChar c) = toUpperChar c.
Proof. by destruct c as [[] [] [] [] [] [] [] []]. Qed.

Lemma toUpperCase_toLowerCase s : toUpperCase (toLowerCase s) = toUpperCase s.
Proof.
  unfold toUpperCase, toLowerCase. rewrite map_map.
  apply map_ext. intros c. apply toUpper_toLower_char.
Qed.

Lemma toUpperCase_show f t :
  toUpperCase (Formatter.show f t) = toUpperCase (value t).
Proof.
  unfold Formatter.show. repeat case_match;
    auto using toUpperCase_toLowerCase, toUpperCase_idemp.
Qed.

Lemma toUpperCase_replaceWhitespaceRuns b s :
  toUpperCase (replaceWhitespaceRuns b s) = replaceWhitespaceRuns b (toUpperCase s).
Proof.
  revert b. induction s as [|c s IH]; intros b; simpl; [done|].
  rewrite isWhitespace_toUpperChar.
  destruct (isWhitespace c); [destruct b|]; simpl; by rewrite IH.
Qed.

Lemma inkOnly_toUpperCase s : inkOnly (toUpperCase s) = inkOnly s.
Proof.
  induction s as [|c s IH]; simpl; [done|].
  by rewrite isWhitespace_toUpperChar, IH.
Qed.

Lemma replaceWhitespaceRuns_ink b s :
  inkOnly s = true -> replaceWhitespaceRuns b s = s.
Proof.
  revert b. induction s as [|c s IH]; intros b; simpl; [done|].
  intros [Hc%negb_true_iff Hs]%andb_true_iff. rewrite Hc. f_equal. by apply IH.
Qed.

Lemma inkOnly_replaceWhitespaceRuns s :
  inkOnly (replaceWhitespaceRuns false s) = inkOnly s.
Proof.
  induction s as [|c s IH]; simpl; [done|].
  destruct (isWhitespace c) eqn:Ec; simpl; [done|]. by rewrite Ec, IH.
Qed.

Lemma replaceLineStarts_ink by_ b s :
  inkOnly s = true -> replaceLineStarts by_ b s = s.
Proof.
  revert b. induction s as [|c s IH]; intros b; simpl; [done|].
  intros [Hc%negb_true_iff Hs]%andb_true_iff.
  destruct (Ascii.eqb_spec c LF) as [->|_]; [done|].
  assert (isSpaceOrTab c = false) as ->.
  { unfold isSpaceOrTab. destruct (Ascii.eqb_spec c SPACE) as [->|]; [done|].
    by destruct (Ascii.eqb_spec c TAB) as [->|]. }
  rewrite andb_false_r. f_equal. by apply IH.
Qed.

Lemma inkOnly_replaceLineStarts w s :
  inkOnly (replaceLineStarts (LF :: w) false s) = inkOnly s.
Proof.
  induction s as [|c s IH]; simpl; [done|].
  destruct (Ascii.eqb_spec c LF) as [->|_]; [done|]. simpl. by rewrite IH.
Qed.

Lemma ink_fixed (F : str -> str) (K : str) y :
  (forall s, inkOnly (F s) = inkOnly s) ->
  (forall s, inkOnly s = true -> F s = s) ->
  inkOnly K = true ->
  bool_decide (toUpperCase (F y) = K) = bool_decide (toUpperCase y = K).
Proof.
  intros H1 H2 HK. apply bool_decide_ext. split; intros E.
  - assert (inkOnly y = true) as Hy.
    { rewrite <- H1, <- inkOnly_toUpperCase. by rewrite E. }
    by rewrite H2 in E.
  - assert (inkOnly y = true) as Hy.
    { rewrite <- inkOnly_toUpperCase. by rewrite E. }
    by rewrite H2.
Qed.

Lemma eqIgnoreCase_written f t (kw : string) :
  inkOnly kw = true ->
  eqIgnoreCase (written f t) kw = eqIgnoreCase (value t) kw.
Proof.
  intros Hkw. unfold eqIgnoreCase.
  assert (HK : inkOnly (toUpperCase kw) = true) by (by rewrite inkOnly_toUpperCase).
  assert (Hs : bool_decide (toUpperCase (Formatter.show f t) = toUpperCase kw)
               = bool_decide (toUpperCase (value t) = toUpperCase kw))
    by (by rewrite toUpperCase_show).
  assert (He : bool_decide (toUpperCase (Formatter.equalizeWhitespace
                                           (Formatter.show f t)) = toUpperCase kw)
               = bool_decide (toUpperCase (value t) = toUpperCase kw)).
  { rewrite <- Hs. apply (ink_fixed Formatter.equalizeWhitespace); [| |done].
    - apply inkOnly_replaceWhitespaceRuns.
    - intros s. apply replaceWhitespaceRuns_ink. }
  unfold written. destruct (type t); try done.
  apply (ink_fixed (Formatter.indentComment f)); [| |done].
  - intros s. apply inkOnly_replaceLineStarts.
  - intros s. apply replaceLineStarts_ink.
Qed.

Lemma valueIs_eqIgnoreCase t (s : string) :
  noLetters s = true -> Formatter.valueIs t s = eqIgnoreCase (value t) s.
Proof.
  intros Hs. unfold Formatter.valueIs, eqIgnoreCase. apply bool_decide_ext.
  split; [by intros -> | by apply sameCase_noLetters].
Qed.

End Ink.

(** ** A token of the formatted query *)

Section Second.

Variable d : Formatter.Dialect.
Hypothesis base : forall f t, Formatter.tokenOverride d f t = t.

Lemma toLowerCase_twice (s : str) : toLowerCase (toLowerCase s) = toLowerCase s.
Proof.
  induction s as [|c s IH]; simpl; [done|]. by rewrite toLowerChar_idemp, IH.
Qed.

Lemma show_twice f t t2 :
  type t2 = type t -> value t2 = Formatter.show f t ->
  Formatter.show f t2 = Formatter.show f t.
Proof.
  unfold Formatter.show. intros -> ->.
  repeat case_match; try done.
  - apply toUpperCase_idemp.
  - apply toLowerCase_twice.
Qed.

Lemma show_equalized f t t2 :
  type t2 = type t ->
  value t2 = Formatter.equalizeWhitespace (Formatter.show f t) ->
  Formatter.equalizeWhitespace (Formatter.show f t2)
  = Formatter.equalizeWhitespace (Formatter.show f t).
Proof.
  unfold Formatter.show, Formatter.equalizeWhitespace. intros -> ->.
  assert (forall s, replaceWhitespaceRuns false (replaceWhitespaceRuns false s)
                    = replaceWhitespaceRuns false s) as Hidem.
  { intros s. apply replaceWhitespaceRuns_collapsed, collapsed_replaceWhitespaceRuns. }
  repeat case_match; try done.
  - by rewrite toUpperCase_replaceWhitespaceRuns, toUpperCase_idemp.
  - by rewrite toLowerCase_replaceWhitespaceRuns, toLowerCase_twice.
Qed.

Lemma indentComment_twice f s :
  allIn isSpaceOrTab (Indentation.indent (Formatter.indentation f)) ->
  Formatter.indentComment f (Formatter.indentComment f s) = Formatter.indentComment f s.
Proof.
  intros H. unfold Formatter.indentComment.
  apply (replaceLineStarts_idemp
           (Indentation.getIndent (Formatter.indentation f) ++ [SPACE]) s).
  apply Forall_app. split; [by apply allIn_concat_replicate | by repeat constructor].
Qed.

Lemma lookup_alike (l1 l2 : list Token) j :
  Forall2 alike l1 l2 ->
  type <$> l2 !! j = type <$> l1 !! j
  /\ isBetween (l2 !! j) = isBetween (l1 !! j)
  /\ Formatter.optValueIs (l2 !! j) "`" = Formatter.optValueIs (l1 !! j) "`".
Proof.
  intros H. apply Forall2_lookup with (i := j) in H.
  destruct H as [t t2 [Hty Hkw]|]; [|done].
  split; [simpl; by rewrite Hty|]. split; [exact (Hkw "BETWEEN" eq_refl)|].
  unfold Formatter.optValueIs. rewrite !valueIs_eqIgnoreCase by done.
  exact (Hkw "`" eq_refl).
Qed.

Lemma formatToken_second all2 prev2 f i t t2 q f' q' :
  let g := Formatter.setIndex f i in
  Params.params (Formatter.params f) = NoParams ->
  allIn isSpaceOrTab (Indentation.indent (Formatter.indentation f)) ->
  Forall2 alike (Formatter.tokens f) all2 ->
  isLimit prev2 = isLimit (Formatter.previousReservedToken f) ->
  type t2 = type t ->
  value t2 = written g t ->
  InlineBlock.isInlineBlock (Formatter.inlineBlock f) all2 i
  = InlineBlock.isInlineBlock (Formatter.inlineBlock f) (Formatter.tokens f) i ->
  (type t = OPEN_PAREN ->
   (if emptyWhitespaceBefore t2
       && negb (Formatter.preserveWhitespaceFor (type <$> Formatter.tokenLookBehind g 1))
    then trimSpacesEnd q else q)
   = (if emptyWhitespaceBefore t
         && negb (Formatter.preserveWhitespaceFor (type <$> Formatter.tokenLookBehind g 1))
      then trimSpacesEnd q else q)) ->
  Formatter.formatToken d f i t q = Ok (f', q') ->
  exists prev2',
    Formatter.formatToken d (second all2 prev2 f) i t2 q
    = Ok (second all2 prev2' f', q')
    /\ isLimit prev2' = isLimit (Formatter.previousReservedToken f').
Proof.
  intros g Hp Hi Hall Hlim Hty Hv Hlook Hparen.
  set (g2 := Formatter.setIndex (second all2 prev2 f) i).
  assert (Hkw : forall kw : string, inkOnly kw = true ->
                  eqIgnoreCase (value t2) kw = eqIgnoreCase (value t) kw).
  { intros kw Hkw. rewrite Hv. by apply eqIgnoreCase_written. }
  assert (Hb : forall n, type <$> Formatter.tokenLookBehind g2 n
                         = type <$> Formatter.tokenLookBehind g n
                         /\ isBetween (Formatter.tokenLookBehind g2 n)
                            = isBetween (Formatter.tokenLookBehind g n)
                         /\ Formatter.optValueIs (Formatter.tokenLookBehind g2 n) "`"
                            = Formatter.optValueIs (Formatter.tokenLookBehind g n) "`").
  { intros n. unfold Formatter.tokenLookBehind. simpl.
    destruct (n <=? i)%nat; [by apply lookup_alike | done]. }
  assert (Ha : forall n, Formatter.optValueIs (Formatter.tokenLookAhead g2 n) "`"
                         = Formatter.optValueIs (Formatter.tokenLookAhead g n) "`").
  { intros n. unfold Formatter.tokenLookAhead. simpl. by apply lookup_alike. }
  unfold Formatter.formatToken. rewrite !base. fold g. fold g2. rewrite Hty.
  unfold written in Hv.
  assert (Hplain : Formatter.isCased (type t) = false -> type t <> BLOCK_COMMENT ->
                   value t2 = value t /\ Formatter.show g2 t2 = Formatter.show g t).
  { intros Hc Hnc. unfold Formatter.show. rewrite Hty, Hc.
    assert (value t2 = Formatter.show g t) as E
      by (rewrite Hv; destruct (type t); simpl in Hc; done).
    rewrite E. unfold Formatter.show. by rewrite Hc. }
  assert (Hshow : value t2 = Formatter.show g t ->
                  Formatter.show g2 t2 = Formatter.show g t).
  { intros E. by apply (show_twice g). }
  assert (Hbyvalue : Formatter.dispatchedByType (type t) = false ->
            Formatter.formatByValue g t q = Ok (f', q') ->
            exists prev2',
              Formatter.formatByValue g2 t2 q = Ok (second all2 prev2' f', q')
              /\ isLimit prev2' = isLimit (Formatter.previousReservedToken f')).
  { intros Hd.
    destruct Hplain as [Ev Es];
      [by apply dispatchedByType_cased | by intros E; rewrite E in Hd|].
    unfold Formatter.formatByValue, Formatter.valueIs.
    destruct (Hb 2%nat) as (_ & _ & Hb2).
    rewrite Ev, (Ha 2%nat), Hb2.
    fold (Formatter.valueIs t ","). fold (Formatter.valueIs t ":").
    fold (Formatter.valueIs t "."). fold (Formatter.valueIs t ";").
    fold (Formatter.valueIs t "["). fold (Formatter.valueIs t "]").
    fold (Formatter.valueIs t "`").
    unfold Formatter.formatComma, Formatter.formatWithoutSpaces,
      Formatter.formatQuerySeparator, Formatter.formatWithSpaces.
    change (Formatter.show (Formatter.setIndentation g2 ?x) t2)
      with (Formatter.show g2 t2).
    change (Formatter.show (Formatter.setIndentation g ?x) t)
      with (Formatter.show g t).
    rewrite Es. simpl Formatter.previousReservedToken. rewrite Hlim.
    clear Hv Hparen Hshow Hlook Hkw Hb Ha Hb2.
    repeat (case_match; try (intros [= <- <-]; by exists prev2)).
    all: intros Hres; inv_bind Hres; simplify_eq/=.
    all: match goal with E : JsString.repeat _ _ = Ok _ |- _ =>
           unfold Formatter.linesBetweenQueriesOr1 in *; simpl in *; rewrite E end.
    all: by exists prev2. }
  destruct (type t) eqn:Ety; try (by apply Hbyvalue).
  - (* RESERVED *)
    intros [= <- <-]. exists (Some t2). split; [|exact (Hkw "LIMIT" eq_refl)].
    unfold Formatter.formatWithSpaces. rewrite Hshow; [done | exact Hv].
  - (* RESERVED_TOP_LEVEL *)
    unfold Formatter.formatTopLevelReservedWord. intros [= <- <-].
    exists (Some t2). split; [|exact (Hkw "LIMIT" eq_refl)].
    change (Formatter.show (Formatter.setIndentation ?x ?y) t2)
      with (Formatter.show g t2).
    change (Formatter.show (Formatter.setIndentation ?x ?y) t)
      with (Formatter.show g t).
    rewrite (show_equalized g t t2); [done | congruence | exact Hv].
  - (* RESERVED_TOP_LEVEL_NO_INDENT *)
    unfold Formatter.formatTopLevelReservedWordNoIndent. intros [= <- <-].
    exists (Some t2). split; [|exact (Hkw "LIMIT" eq_refl)].
    change (Formatter.show (Formatter.setIndentation ?x ?y) t2)
      with (Formatter.show g t2).
    change (Formatter.show (Formatter.setIndentation ?x ?y) t)
      with (Formatter.show g t).
    rewrite (show_equalized g t t2); [done | congruence | exact Hv].
  - (* RESERVED_NEWLINE *)
    unfold Formatter.formatNewlineReservedWord. intros [= <- <-].
    exists (Some t2). split; [|exact (Hkw "LIMIT" eq_refl)].
    destruct (Hb 2%nat) as (_ & -> & _).
    unfold isAnd. rewrite (Hkw "AND" eq_refl). fold (isAnd t).
    change (Formatter.show g2 t2) with (Formatter.show g t2).
    rewrite (show_equalized g t t2); [| congruence | exact Hv].
    destruct (isAnd t && _) eqn:E; [|done].
    apply andb_true_iff in E as [E _].
    assert (Formatter.equalizeWhitespace (Formatter.show g t) = Formatter.show g t)
      as Heq.
    { rewrite (show_keyword g t "AND"); [|by rewrite Ety | done].
      by destruct (FormatOptions.uppercase _). }
    unfold Formatter.formatWithSpaces.
    change (Formatter.show g2 t2) with (Formatter.show g t2).
    rewrite (show_twice g t t2); [done | congruence | by rewrite <- Heq].
  - (* OPEN_PAREN *)
    unfold Formatter.formatOpeningParentheses.
    fold (emptyWhitespaceBefore t2). fold (emptyWhitespaceBefore t).
    destruct (Hb 1%nat) as (-> & _).
    rewrite Hparen by done.
    change (Formatter.show g2 t2) with (Formatter.show g t2).
    rewrite (show_twice g t t2); [| congruence | exact Hv].
    assert (InlineBlock.beginIfPossible (Formatter.inlineBlock g2)
              (Formatter.tokens g2) (Formatter.index g2)
            = InlineBlock.beginIfPossible (Formatter.inlineBlock g)
                (Formatter.tokens g) (Formatter.index g)) as Hbegin.
    { unfold InlineBlock.beginIfPossible. simpl. by rewrite Hlook. }
    rewrite Hbegin. simpl Formatter.inlineBlock.
    destruct (negb (InlineBlock.isActive _)); intros [= <- <-]; by exists prev2.
  - (* CLOSE_PAREN *)
    unfold Formatter.formatClosingParentheses, Formatter.formatWithSpaces.
    change (Formatter.show ?x t2) with (Formatter.show g t2).
    rewrite (show_twice g t t2); [| congruence | exact Hv].
    simpl Formatter.inlineBlock.
    destruct (InlineBlock.isActive _); intros [= <- <-]; by exists prev2.
  - (* LINE_COMMENT *)
    unfold Formatter.formatLineComment. intros [= <- <-]. exists prev2.
    destruct Hplain as [_ ->]; done.
  - (* BLOCK_COMMENT *)
    unfold Formatter.formatBlockComment. intros [= <- <-]. exists prev2.
    split; [|done]. rewrite Hv.
    change (Formatter.indentComment g2 ?x) with (Formatter.indentComment g x).
    by rewrite indentComment_twice.
  - (* PLACEHOLDER *)
    unfold Formatter.formatPlaceholder, Params.get. simpl Formatter.params.
    rewrite Hp. simpl. intros [= <- <-]. exists prev2.
    destruct Hplain as [-> _]; done.
Qed.

End Second.

(** ** The run on the formatted query *)

Section Again.

Variable d : Formatter.Dialect.
Hypothesis base : forall f t, Formatter.tokenOverride d f t = t.
Variables (all1 all2 : list Token) (lw : option Z).
Hypothesis Hall : Forall2 alike all1 all2.
Hypothesis Hlook :
  forall i, (i < length all1)%nat ->
    InlineBlock.lookAhead lw 0 0 (drop (S i) all2)
    = InlineBlock.lookAhead lw 0 0 (drop (S i) all1).

Lemma trimSpacesEnd_trimEnd q : trailing q = [] -> trimSpacesEnd q = q.
Proof.
  intros E. destruct (trailing_spec q) as [Eq _]. rewrite E, app_nil_r in Eq.
  rewrite Eq. rewrite <- (app_nil_r (trimEnd q)) at 1.
  rewrite trimSpacesEnd_prefix by apply trimEnd_hard. by rewrite app_nil_r.
Qed.

Lemma lookBehind_last (pre ts : list Token) f :
  Formatter.tokens f = pre ++ ts ->
  Formatter.tokenLookBehind (Formatter.setIndex f (length pre)) 1 = last pre.
Proof.
  intros E. unfold Formatter.tokenLookBehind.
  cbn [Formatter.index Formatter.setIndex Formatter.tokens]. rewrite E.
  destruct pre as [|p pre _] using rev_ind; [done|].
  rewrite length_app, last_snoc. cbn [length].
  replace (length pre + 1)%nat with (S (length pre)) by lia.
  replace (S (length pre) - 1)%nat with (length pre) by lia.
  cbn [Nat.leb]. rewrite <- app_assoc. rewrite lookup_app_r by lia.
  rewrite Nat.sub_diag. reflexivity.
Qed.

Lemma run_again ts :
  forall pre ts2 f prev2 q f' q',
    all1 = pre ++ ts ->
    Formatter.tokens f = all1 ->
    InlineBlock.lineWidth (Formatter.inlineBlock f) = lw ->
    Params.params (Formatter.params f) = NoParams ->
    allIn isSpaceOrTab (Indentation.indent (Formatter.indentation f)) ->
    isLimit prev2 = isLimit (Formatter.previousReservedToken f) ->
    parenthesesStay d f (length pre) ts q = true ->
    Forall (fun t => hardValue t = true) ts ->
    Forall2 sameWritten ts2 (writtenTokens d f (length pre) ts q) ->
    Formatter.forEachToken d f (length pre) ts q = Ok (f', q') ->
    exists prev2',
      Formatter.forEachToken d (second all2 prev2 f) (length pre) ts2 q
      = Ok (second all2 prev2' f', q').
Proof.
  induction ts as [|t ts IH];
    intros pre ts2 f prev2 q f' q' Hpre Htok Hlw Hp Hi Hlim Hstay Hhard HW Hrun.
  - simpl in *. apply Forall2_nil_inv_r in HW as ->. simpl.
    injection Hrun as <- <-. by exists prev2.
  - simpl in Hrun, HW. apply bind_Ok in Hrun as [[f1 q1] [H1 Hrun]].
    cbn [parenthesesStay] in Hstay. rewrite H1, base in Hstay.
    rewrite H1 in HW. rewrite base in HW.
    apply Forall2_cons_inv_r in HW as (t2 & ts2' & (Hty & Hv & Hempty) & HW & ->).
    simpl in Hty, Hv, Hempty.
    apply Forall_cons in Hhard as [Ht Hhard].
    apply andb_true_iff in Ht as [Hs He].
    apply andb_true_iff in Hstay as [Hk Hstay].
    set (g := Formatter.setIndex f (length pre)) in *.
    assert (Hiw : indentIsWhitespace f).
    { eapply Forall_impl; [exact Hi|]. intros c. apply isSpaceOrTab_isWhitespace. }
    pose proof (formatToken_layout d f (length pre) t q f1 q1) as Hlay.
    cbv zeta in Hlay. rewrite base in Hlay.
    destruct (Hlay Hiw Hp Hs He H1) as (l & tl & Eq1 & Hw & HS & Hgap & Etrim & Hl & HSt).
    clear Hlay. fold g in Hgap, Etrim, Hl, Eq1.
    pose proof (formatToken_keeps d _ _ _ _ _ _ H1) as (Htok1 & Hind1 & Hlw1).
    pose proof (formatToken_params d _ _ _ _ _ _ Hp H1) as Hp1.
    destruct (formatToken_second d base all2 prev2 f (length pre) t t2 q f1 q1)
      as (prev2' & E2 & Hlim'); try done.
    { by rewrite Htok. }
    { unfold InlineBlock.isInlineBlock. rewrite Hlw, Htok. apply Hlook.
      rewrite Hpre, length_app. simpl. lia. }
    { intros Hop. fold g.
      specialize (Hl Hop). specialize (Hempty Hop).
      rewrite Hop, bool_decide_eq_true_2 in Hk by done.
      destruct (Formatter.preserveWhitespaceFor
                  (type <$> Formatter.tokenLookBehind g 1)) eqn:Epres;
        [by rewrite !andb_false_r|].
      rewrite !andb_true_r. simpl in Hl, Hk. rewrite andb_true_r in Hl, Hk.
      assert (emptyWhitespaceBefore t2
              = bool_decide (applyLead l (trailing q) = [])) as ->.
      { rewrite Hempty. unfold emptyWhitespaceBefore. simpl. rewrite Hgap.
        apply bool_decide_ext. split.
        - intros [= E]. by apply nil_length_inv.
        - by intros ->. }
      destruct (emptyWhitespaceBefore t) eqn:E1; subst l; simpl.
      - destruct (bool_decide_reflect (trimSpacesEnd (trailing q) = [])) as [E|E];
          [done|].
        simpl in Hk. by apply bool_decide_eq_true in Hk.
      - destruct (bool_decide_reflect (trailing q = [])) as [E|E];
          [by apply trimSpacesEnd_trimEnd | done]. }
    simpl. rewrite E2. simpl.
    assert (Hpre' : all1 = (pre ++ [t]) ++ ts) by (by rewrite <- app_assoc).
    assert (Hlen : length (pre ++ [t]) = S (length pre))
      by (rewrite length_app; simpl; lia).
    rewrite <- Hlen in *.
    eapply (IH (pre ++ [t])); try done.
    + congruence.
    + congruence.
    + by rewrite Hind1.
Qed.

(** No opening parenthesis without whitespace before it stands after a token
    that may break the line: then the output is trimmed before none of them
    at the start of a line. *)
Lemma parenthesesKeepLine_stay ts :
  forall pre f q f' q',
    Formatter.tokens f = pre ++ ts ->
    indentIsWhitespace f ->
    Params.params (Formatter.params f) = NoParams ->
    tailOK (last pre) q ->
    parenthesesKeepLine (last pre) ts = true ->
    Forall (fun t => hardValue t = true) ts ->
    Formatter.forEachToken d f (length pre) ts q = Ok (f', q') ->
    parenthesesStay d f (length pre) ts q = true.
Proof.
  induction ts as [|t ts IH];
    intros pre f q f' q' Htok Hiw Hp Htail Hkeep Hhard Hrun; [done|].
  simpl in Hrun. apply bind_Ok in Hrun as [[f1 q1] [H1 Hrun]].
  cbn [parenthesesStay]. rewrite H1, base.
  apply Forall_cons in Hhard as [Ht Hhard].
  apply andb_true_iff in Ht as [Hs He].
  cbn [parenthesesKeepLine] in Hkeep. apply andb_true_iff in Hkeep as [Hk Hkeep].
  set (g := Formatter.setIndex f (length pre)) in *.
  pose proof (formatToken_layout d f (length pre) t q f1 q1) as Hlay.
  cbv zeta in Hlay. rewrite base in Hlay.
  destruct (Hlay Hiw Hp Hs He H1) as (l & tl & Eq1 & Hw & HS & Hgap & Etrim & Hl & HSt).
  clear Hlay. fold g in Hgap, Etrim, Hl, Eq1.
  pose proof (formatToken_keeps d _ _ _ _ _ _ H1) as (Htok1 & Hind1 & Hlw1).
  pose proof (formatToken_params d _ _ _ _ _ _ Hp H1) as Hp1.
  assert (Hbehind : Formatter.tokenLookBehind g 1 = last pre)
    by (by apply (lookBehind_last pre (t :: ts))).
  apply andb_true_iff. split.
  - rewrite Hbehind.
    destruct (bool_decide_reflect (type t = OPEN_PAREN)) as [Hop|]; [|done].
    destruct (emptyWhitespaceBefore t) eqn:E1; [|done].
    destruct (Formatter.preserveWhitespaceFor (type <$> last pre)) eqn:Epres;
      [done|].
    simpl. simpl in Hk. apply negb_true_iff in Hk.
    rewrite bool_decide_eq_true_2; [done|].
    destruct Htail as [-> | ->]; try done.
    intros E. rewrite E in Epres. done.
  - assert (Hlen : length (pre ++ [t]) = S (length pre))
      by (rewrite length_app; simpl; lia).
    rewrite <- Hlen in *.
    eapply (IH (pre ++ [t])); try done.
    + by rewrite Htok1, Htok, <- app_assoc.
    + unfold indentIsWhitespace. by rewrite Hind1.
    + rewrite last_snoc. unfold tailOK. simpl. intros Hb Hnp.
      assert (trailing q1 = tl) as ->.
      { unfold trailing. rewrite Etrim, Eq1, !app_assoc. apply drop_app_length. }
      apply HSt; [done | congruence].
    + by rewrite last_snoc.
Qed.

End Again.

(** ** The whitespace between the written tokens *)

Lemma tokenizeFrom_hardStart tk fuel offset input toks :
  Tokenizer.tokenizeFrom tk fuel offset input = Ok toks ->
  Forall (fun t => hardStart (value t) = true) toks.
Proof.
  revert offset input toks.
  induction fuel as [|fuel IH]; intros offset input toks; simpl;
    destruct (dropStart isWhitespace input) as [|c rest] eqn:Er; try done.
  - intros [= <-]. constructor.
  - intros [= <-]. constructor.
  - destruct (Tokenizer.firstMatch _ _) as [[ty [|n]]|]; try done.
    intros H. apply bind_Ok in H as [toks0 [H0 [= <-]]].
    constructor; [|by eapply IH].
    simpl. apply dropStart_first in Er. by rewrite Er.
Qed.

Section Unique.

Implicit Types (w x y : str).

Lemma gap_unique w1 w2 c1 c2 x y :
  allIn isWhitespace w1 -> allIn isWhitespace w2 ->
  isWhitespace c1 = false -> isWhitespace c2 = false ->
  w1 ++ c1 :: x = w2 ++ c2 :: y -> w1 = w2.
Proof.
  intros H1. revert w2. induction H1 as [|a w1 Ha _ IH]; intros w2 H2 Hc1 Hc2 E.
  - destruct H2 as [|b w2 Hb _]; [done|]. simpl in E. congruence.
  - destruct H2 as [|b w2 Hb H2]; simpl in E; [congruence|].
    injection E as -> E. f_equal. by eapply IH.
Qed.

Lemma sources_unique (A B : list Token) restA restB :
  Forall2 (fun a b => value a = value b) A B ->
  Forall (fun b => hardStart (value b) = true) B ->
  Forall (fun t => exists ws, whitespaceBefore t = Some ws
                              /\ allIn isWhitespace ws) A ->
  Forall (fun t => exists ws, whitespaceBefore t = Some ws
                              /\ allIn isWhitespace ws) B ->
  concat (source <$> A) ++ restA = concat (source <$> B) ++ restB ->
  Forall2 (fun a b => whitespaceBefore a = whitespaceBefore b) A B.
Proof.
  induction 1 as [|a b A B Hv _ IH]; intros Hs HA HB E; [constructor|].
  apply Forall_cons in Hs as [Hb Hs].
  apply Forall_cons in HA as [(wa & Ea & Hwa) HA].
  apply Forall_cons in HB as [(wb & Eb & Hwb) HB].
  rewrite !fmap_cons, !concat_cons in E. unfold source at 1 3 in E.
  rewrite Ea, Eb, Hv in E. simpl in E.
  apply hardStart_inv in Hb as (c & v & Ev & Hc). rewrite Ev in E.
  rewrite <- !app_assoc in E. simpl in E.
  pose proof (gap_unique _ _ _ _ _ _ Hwa Hwb Hc Hc E) as ->.
  apply app_inv_head in E. injection E as E. apply app_inv_head in E.
  constructor; [congruence | by apply IH].
Qed.

End Unique.

Section Layouts.

Variable d : Formatter.Dialect.
Hypothesis base : forall f t, Formatter.tokenOverride d f t = t.

Lemma run_layout ts :
  forall f i q f' q',
    indentIsWhitespace f ->
    Params.params (Formatter.params f) = NoParams ->
    Forall (fun t => hardValue t = true) ts ->
    Formatter.forEachToken d f i ts q = Ok (f', q') ->
    trimEnd q' = trimEnd q ++ concat (source <$> writtenTokens d f i ts q)
    /\ Forall (fun w => hardStart (value w) = true) (writtenTokens d f i ts q)
    /\ Forall (fun w => exists ws, whitespaceBefore w = Some ws
                                   /\ allIn isWhitespace ws)
              (writtenTokens d f i ts q)
    /\ Forall2 alike ts (writtenTokens d f i ts q).
Proof.
  induction ts as [|t ts IH]; intros f i q f' q' Hi Hp Hhard Hrun.
  - simpl in *. injection Hrun as <- <-. rewrite app_nil_r. repeat constructor.
  - simpl in Hrun |- *. apply bind_Ok in Hrun as [[f1 q1] [H1 Hrun]].
    rewrite H1, base.
    apply Forall_cons in Hhard as [Ht Hhard].
    apply andb_true_iff in Ht as [Hs He].
    pose proof (formatToken_layout d f i t q f1 q1) as Hlay.
    cbv zeta in Hlay. rewrite base in Hlay.
    destruct (Hlay Hi Hp Hs He H1) as (l & tl & Eq1 & Hw & HS & Hgap & Etrim & _).
    pose proof (formatToken_keeps d _ _ _ _ _ _ H1) as (_ & Hind1 & _).
    pose proof (formatToken_params d _ _ _ _ _ _ Hp H1) as Hp1.
    destruct (IH f1 (S i) q1 f' q') as (E & H1s & H1w & H1a); try done.
    { unfold indentIsWhitespace. by rewrite Hind1. }
    split; [|split; [|split]].
    + rewrite E, Etrim, fmap_cons, concat_cons. unfold source at 2. simpl.
      rewrite Hgap. by rewrite <- !app_assoc.
    + constructor; [|done]. simpl. by apply hardStart_written.
    + constructor; [|done]. simpl. eexists. split; [reflexivity|].
      by rewrite Hgap.
    + constructor; [|done]. split; [done|]. simpl.
      intros kw Hkw. by apply eqIgnoreCase_written.
Qed.

Lemma head_gap t ts f :
  indentIsWhitespace f ->
  Params.params (Formatter.params f) = NoParams ->
  hardValue t = true ->
  type t = OPEN_PAREN ->
  forall w W, writtenTokens d f 0 (t :: ts) [] = w :: W ->
              whitespaceBefore w = Some [].
Proof.
  intros Hi Hp Ht Hty w W. simpl.
  destruct (Formatter.formatToken d f 0 t []) as [[f1 q1]|e] eqn:H1; [|done].
  rewrite base. intros [= <- _]. simpl. f_equal.
  apply andb_true_iff in Ht as [Hs He].
  pose proof (formatToken_layout d f 0 t [] f1 q1) as Hlay.
  cbv zeta in Hlay. rewrite base in Hlay.
  destruct (Hlay Hi Hp Hs He H1) as (l & tl & _ & _ & _ & Hgap & _ & Hl & _).
  change (trimEnd []) with (@nil ascii) in *. simpl in *.
  rewrite Hgap, (Hl Hty). by case_match.
Qed.

End Layouts.

Lemma lookAhead_ext lw (l1 l2 : list Token) :
  Forall2 (fun a b => lexeme a = lexeme b) l1 l2 ->
  forall len depth,
    InlineBlock.lookAhead lw len depth l1 = InlineBlock.lookAhead lw len depth l2.
Proof.
  induction 1 as [|a b l1 l2 [= Hty Hv] _ IH]; intros len depth; simpl; [done|].
  rewrite Hty, Hv. repeat case_match; try done; apply IH.
Qed.

Lemma forallb_Forall_true {A} (p : A -> bool) (l : list A) :
  forallb p l = true -> Forall (fun x => p x = true) l.
Proof.
  induction l as [|x l IH]; simpl; [constructor|].
  intros [Hx Hl]%andb_true_iff. constructor; auto.
Qed.

Lemma trim_dropStart (s : str) : trim s = dropStart isWhitespace (trimEnd s).
Proof. unfold trim, trimStart, trimEnd. symmetry. apply dropStart_dropEnd. Qed.

(** ** Idempotence (C2) *)

Lemma tokenize_hardValue tk query toks :
  Tokenizer.tokenize tk query = Ok toks ->
  forallb (fun t => hardEnd (value t)) toks = true ->
  Forall (fun t => hardValue t = true) toks.
Proof.
  intros Hs%tokenizeFrom_hardStart Hend%forallb_Forall_true.
  induction Hs as [|t ts H1 _ IH]; [constructor|].
  apply Forall_cons in Hend as [H2 Hend].
  constructor; [|by apply IH]. unfold hardValue. by rewrite H1, H2.
Qed.

(** The output is trimmed before no opening parenthesis at the start of a
    line when no opening parenthesis that has no whitespace before it
    directly follows a comment, a top-level reserved word, a comma or a
    semicolon. *)
Lemma parenthesesKeepLine_suffices d cfg query toks out :
  (forall f t, Formatter.tokenOverride d f t = t) ->
  FormatOptions.params cfg = NoParams ->
  allIn isWhitespace (FormatOptions.indent cfg) ->
  Tokenizer.tokenize (Formatter.tokenizer d) query = Ok toks ->
  forallb (fun t => hardEnd (value t)) toks = true ->
  Formatter.format d (Formatter.new cfg) query = Ok out ->
  parenthesesKeepLine None toks = true ->
  parenthesesStay d (Formatter.setTokens (Formatter.new cfg) toks) 0 toks [] = true.
Proof.
  intros base Hp Hi Htoks Hend Hfmt Hkeep.
  rewrite format_unfold, Htoks in Hfmt. simpl in Hfmt.
  apply bind_Ok in Hfmt as [[f' q'] [Hrun _]].
  apply (parenthesesKeepLine_stay d base toks [] _ [] f' q'); try done.
  - unfold tailOK. by left.
  - by eapply tokenize_hardValue.
Qed.




(** In the model of the inline block, the look-ahead reads the lengths of the
    values, which re-indenting a block comment changes: a group that did not
    fit can fit in the formatted query. *)
Lemma lookAhead_after_reindent_example :
  let query := list_ascii_of_string "(a /* c
                                                  d */ b)" in
  let out := list_ascii_of_string "(
  a
  /* c
   d */
  b
)" in
  Formatter.format SampleDialect.dialect (Formatter.new SqlFormatter.defaultOptions)
    query = Ok out
  /\ Formatter.format SampleDialect.dialect (Formatter.new SqlFormatter.defaultOptions)
       out = Ok (list_ascii_of_string "(a
/* c
 d */
b)").
Proof. split; vm_compute; reflexivity. Qed.
